(** * Bamboo Budget: expense accounting, persistence and rate lookup

    A shallow embedding of the accounting logic of the travel-expense
    tracker: the add/edit form ([components/AddExpenseModal.tsx]), the
    browser-storage adapter ([services/storageService.ts]), the Firestore
    adapter and the Gemini gateway ([services/geminiService.ts]).

    JavaScript numbers are IEEE-754 binary64 values and are modelled by the
    primitive floats of the prover, which have the same arithmetic. *)

From Stdlib Require Import ZArith Floats Bool List Ascii String Lia.
From Stdlib Require Import QArith Qabs Qpower Lqa.
From Stdlib Require Import Sorting.Sorted Sorting.Permutation.
From stdpp Require Import base option list strings gmap.

Set Default Proof Using "Type".
Set Warnings "-register-all".
Local Open Scope Z_scope.

(** ** Binary64 numbers and the rationals they denote *)

Module Binary64.

(** The rational a finite number denotes: [(-1) ^ s * m * 2 ^ e]; zeros,
    infinities and [NaN] are given [0]. *)
Definition SF2Q (x : spec_float) : Q :=
  match x with
  | S754_finite s m e => (inject_Z (cond_Zopp s (Z.pos m)) * 2 ^ e)%Q
  | _ => 0%Q
  end.

(** A normal number: finite, with a mantissa of 53 bits. *)
Definition SFnormal (x : spec_float) : bool :=
  match x with
  | S754_finite _ m _ => Z.pos (digits2_pos m) =? 53
  | _ => false
  end.

(** [2 ^ -53], half the distance from [1] to the next number. *)
Definition half_epsilon : Q := 1 # 9007199254740992.

(** The positive rational [a / b] lies at the place [l] of the interval
    from [m] to [m + 1]: on [m], or strictly inside, below, on or above
    the middle. *)
Definition located (a b m : Z) (l : location) : Prop :=
  match l with
  | loc_Exact => a = m * b
  | loc_Inexact c =>
      (m * b < a < (m + 1) * b) /\ (2 * a ?= (2 * m + 1) * b) = c
  end.

(** [mz * 2 ^ ez] is within half a unit of its last place of
    [(A / B) * 2 ^ E]. *)
Definition rounds (mz : positive) (ez A B E : Z) : Prop :=
  exists k c,
    0 <= k /\ 0 <= c /\ ez + c = E + k
    /\ 2 * Z.abs (Z.pos mz * (2 ^ k * B) - A * 2 ^ c) <= 2 ^ k * B.

End Binary64.

(** ** JavaScript numbers *)

Module JsNumber.

(** The rational a finite number denotes. *)
Definition value (x : float) : Q := Binary64.SF2Q (Prim2SF x).

(** Neither zero, subnormal, infinite nor [NaN]: at least [2 ^ -1022] in
    magnitude. *)
Definition is_normal (x : float) : bool :=
  match classify x with
  | PNormal | NNormal => true
  | _ => false
  end.

(** [Number.EPSILON], [2 ^ -52]. *)
Definition EPSILON : Q := 1 # 4503599627370496.

Definition is_finite (x : float) : bool :=
  match Prim2SF x with
  | S754_zero _ | S754_finite _ _ _ => true
  | S754_infinity _ | S754_nan => false
  end.

(** Truthiness of a number: [0], [-0] and [NaN] are falsy. *)
Definition truthy (x : float) : bool :=
  negb (PrimFloat.is_nan x || PrimFloat.is_zero x).

(** [x || 0] on numbers. *)
Definition or_zero (x : float) : float :=
  if truthy x then x else 0%float.

(** [Math.max(1, x)]: [NaN] when [x] is [NaN], else the larger. *)
Definition Math_max_1 (x : float) : float :=
  if PrimFloat.is_nan x then nan
  else if PrimFloat.ltb 1 x then x else 1%float.

End JsNumber.

(** ** JavaScript strings

    A string is a sequence of UTF-16 code units.  Property names written in
    the source are kept as [string]; string data is [jsstring]. *)

Module JsString.

Definition jsstring := list N.

(** Code units of an ASCII literal of the source. *)
Definition js (s : string) : jsstring :=
  List.map N_of_ascii (list_ascii_of_string s).

(** [WhiteSpace] and [LineTerminator] code units, the set that
    [String.prototype.trim] strips. *)
Definition is_white (c : N) : bool :=
  ((9 <=? c) && (c <=? 13) || (c =? 32) || (c =? 160) || (c =? 5760)
   || (8192 <=? c) && (c <=? 8202) || (c =? 8232) || (c =? 8233)
   || (c =? 8239) || (c =? 8287) || (c =? 12288) || (c =? 65279))%N.

Fixpoint trim_start (s : jsstring) : jsstring :=
  match s with
  | c :: s' => if is_white c then trim_start s' else s
  | [] => []
  end.

Definition trim_end (s : jsstring) : jsstring :=
  rev (trim_start (rev s)).

Definition trim (s : jsstring) : jsstring := trim_end (trim_start s).

(** [sep] starts [s]. *)
Fixpoint starts_with (sep s : jsstring) : bool :=
  match sep, s with
  | [], _ => true
  | a :: sep', b :: s' => (a =? b)%N && starts_with sep' s'
  | _ :: _, [] => false
  end.

(** [s.split(sep)] for a non-empty separator: the text is scanned from the
    left, [cur] collects (reversed) the piece being read, and [skip] counts
    the code units of a separator occurrence still to be passed over. *)
Fixpoint split_go (sep : jsstring) (skip : nat) (cur s : jsstring)
  : list jsstring :=
  match s with
  | [] => [rev cur]
  | c :: s' =>
      match skip with
      | S k => split_go sep k cur s'
      | O =>
          if starts_with sep s
          then rev cur :: split_go sep (length sep - 1) [] s'
          else split_go sep 0 (c :: cur) s'
      end
  end.

Definition split (sep s : jsstring) : list jsstring := split_go sep 0 [] s.

(** [parts.join(sep)]. *)
Fixpoint join (sep : jsstring) (parts : list jsstring) : jsstring :=
  match parts with
  | [] => []
  | [p] => p
  | p :: rest => p ++ sep ++ join sep rest
  end.

Definition is_empty (s : jsstring) : bool :=
  match s with [] => true | _ => false end.

(** [s.includes(sep)] *)
Fixpoint includes (sep s : jsstring) : bool :=
  starts_with sep s
  || match s with
     | [] => false
     | _ :: s' => includes sep s'
     end.

(** The first code unit is white space. *)
Definition head_white (s : jsstring) : bool :=
  match s with c :: _ => is_white c | [] => false end.

(** No white space at either end. *)
Definition is_trimmed (s : jsstring) : bool :=
  negb (head_white s) && negb (head_white (rev s)).

End JsString.

(** ** The typed records of [types.ts] *)

Module Types.
Import JsString.

Record ExpenseItem := {
  name : jsstring;          (* translated text *)
  originalName : jsstring   (* text on the receipt *)
}.

Record Expense := {
  id : jsstring;
  tripId : jsstring;
  storeName : jsstring;
  date : jsstring;
  items : list ExpenseItem;
  originalCurrency : jsstring;
  originalAmount : float;
  exchangeRate : float;
  totalTWD : float;
  paidByMe : bool;
  splitCount : float;
  myShareTWD : float;
  debtAmountTWD : float;
  isRepaid : bool;
  receiptImage : option jsstring
}.

End Types.

(** ** The add/edit form: [components/AddExpenseModal.tsx] *)

Module AddExpenseModal.
Import JsNumber JsString Types.

(** The amount field holds a number or the empty string. *)
Inductive AmountInput := AmountBlank | AmountNum (x : float).

(** [Number(amount)]. *)
Definition Number_of (a : AmountInput) : float :=
  match a with AmountBlank => 0%float | AmountNum x => x end.

(** The form state read by [handleSave]. *)
Record Form := {
  f_storeName : jsstring;
  f_amount : AmountInput;
  f_currency : jsstring;
  f_date : jsstring;
  f_itemsText : jsstring;
  f_rate : float;
  f_isSplit : bool;
  f_totalPeople : float;
  f_image : option jsstring
}.

Definition newline : jsstring := [10%N].
Definition bars : jsstring := [124%N; 124%N].          (* "||" *)
Definition spaced_bars : jsstring := [32%N; 124%N; 124%N; 32%N].  (* " || " *)

Definition jsstring_eqb (a b : jsstring) : bool := bool_decide (a = b).

(** The line of one item: the body of the [map] callback. *)
Definition format_line (i : ExpenseItem) : jsstring :=
  if jsstring_eqb (originalName i) (name i) then name i
  else originalName i ++ spaced_bars ++ name i.

Definition formatItemsToString (its : list ExpenseItem) : jsstring :=
  join newline (List.map format_line its).

Definition parse_line (line : jsstring) : ExpenseItem :=
  match split bars line with
  | p0 :: p1 :: _ => {| originalName := trim p0; name := trim p1 |}
  | _ => {| originalName := trim line; name := trim line |}
  end.

Definition parseStringToItems (text : jsstring) : list ExpenseItem :=
  List.map parse_line
    (List.filter (fun line => negb (is_empty (trim line)))
                 (split newline text)).

(** Text that survives the trip through the textarea: not empty, on one
    line, without ["||"], and with no white space at its ends. *)
Definition clean_text (s : jsstring) : bool :=
  negb (is_empty s) && negb (includes newline s)
  && negb (includes bars s) && is_trimmed s.

Definition clean_item (i : ExpenseItem) : bool :=
  clean_text (name i) && clean_text (originalName i).

Section HandleSave.
(** Props and environment of the component. *)
Variable prop_tripId : jsstring.
Variable initialData : option Expense.
(** The identifier [uuidv4()] returns when called. *)
Variable uuidv4 : jsstring.
(** [new Date(s).toISOString()]; [None] when it throws on an invalid
    date. *)
Variable toISOString : jsstring -> option jsstring.

Definition unnamed_store : jsstring := [26410%N; 21629%N; 21517%N].

Definition or_else (a b : jsstring) : jsstring :=
  if is_empty a then b else a.

(** The expense [handleSave] hands to [onSave]; [None] when the date
    conversion throws before anything is saved. *)
Definition handleSave (f : Form) : option Expense :=
  let numAmount := or_zero (Number_of (f_amount f)) in
  let total := (numAmount * f_rate f)%float in
  let split_count :=
    if f_isSplit f then Math_max_1 (f_totalPeople f) else 1%float in
  let myShare := (total / split_count)%float in
  let debtAmount := (total - myShare)%float in
  match toISOString (f_date f) with
  | None => None
  | Some finalDateIso =>
      Some {|
        id := or_else (from_option id [] initialData) uuidv4;
        tripId := prop_tripId;
        storeName := or_else (f_storeName f) unnamed_store;
        date := finalDateIso;
        items := parseStringToItems (f_itemsText f);
        originalCurrency := f_currency f;
        originalAmount := numAmount;
        exchangeRate := f_rate f;
        totalTWD := total;
        paidByMe := true;
        splitCount := split_count;
        myShareTWD := myShare;
        debtAmountTWD := debtAmount;
        isRepaid := from_option isRepaid false initialData;
        receiptImage :=
          match f_image f with
          | Some img => if is_empty img then None else Some img
          | None => None
          end
      |}
  end.
End HandleSave.

End AddExpenseModal.

(** ** JavaScript values

    Records read back from storage are untyped ([any]): a value is one of the
    JSON shapes, or [undefined]. *)

Module Js.
Import JsString.

Inductive JsVal :=
| JUndefined
| JNull
| JBool (b : bool)
| JNum (x : float)
| JStr (s : jsstring)
| JArr (xs : list JsVal)
| JObj (fields : list (string * JsVal)).

(** An object: its own properties in insertion order. *)
Definition JsObject := list (string * JsVal).

(** [o.k], [undefined] when the property is missing. *)
Fixpoint get (k : string) (o : JsObject) : JsVal :=
  match o with
  | [] => JUndefined
  | (k', v) :: o' => if bool_decide (k = k') then v else get k o'
  end.

(** [{...o, k: v}]: the property keeps its place when [o] has it and is
    added last otherwise. *)
Fixpoint set_field (k : string) (v : JsVal) (o : JsObject) : JsObject :=
  match o with
  | [] => [(k, v)]
  | (k', v') :: o' =>
      if bool_decide (k = k') then (k, v) :: o'
      else (k', v') :: set_field k v o'
  end.

(** [{...base, ...src}]. *)
Definition assign (base src : JsObject) : JsObject :=
  fold_left (fun o kv => set_field kv.1 kv.2 o) src base.

(** Truthiness as [!v] and [v || w] test it. *)
Definition truthy (v : JsVal) : bool :=
  match v with
  | JUndefined | JNull => false
  | JBool b => b
  | JNum x => JsNumber.truthy x
  | JStr s => negb (is_empty s)
  | JArr _ | JObj _ => true
  end.

Definition is_undefined (v : JsVal) : bool :=
  match v with JUndefined => true | _ => false end.

(** [typeof v === 'string'] *)
Definition is_string (v : JsVal) : bool :=
  match v with JStr _ => true | _ => false end.

(** [v === s] for a string [s]. *)
Definition equals_string (v : JsVal) (s : jsstring) : bool :=
  match v with JStr s' => bool_decide (s' = s) | _ => false end.

(** [a === b]; objects and arrays are compared by identity, and the two
    sides never are the same object where the model uses it. *)
Definition strict_equals (a b : JsVal) : bool :=
  match a, b with
  | JUndefined, JUndefined | JNull, JNull => true
  | JBool x, JBool y => Bool.eqb x y
  | JNum x, JNum y => PrimFloat.eqb x y
  | JStr x, JStr y => bool_decide (x = y)
  | _, _ => false
  end.

(** The elements of an array. *)
Definition elements (v : JsVal) : list JsVal :=
  match v with JArr xs => xs | _ => [] end.

(** What [JSON.parse(JSON.stringify(v))] gives back: properties holding
    [undefined] are left out, [undefined] inside an array and numbers that
    are not finite become [null], and [-0] becomes [0]. *)
Fixpoint json (v : JsVal) : JsVal :=
  match v with
  | JUndefined => JNull
  | JNull => JNull
  | JBool b => JBool b
  | JNum x =>
      if JsNumber.is_finite x
      then JNum (if PrimFloat.is_zero x then 0%float else x)
      else JNull
  | JStr s => JStr s
  | JArr xs => JArr (List.map json xs)
  | JObj fields =>
      JObj ((fix props (fs : list (string * JsVal)) :=
               match fs with
               | [] => []
               | (k, JUndefined) :: fs' => props fs'
               | (k, w) :: fs' => (k, json w) :: props fs'
               end) fields)
  end.

Definition json_object (o : JsObject) : JsObject :=
  match json (JObj o) with JObj o' => o' | _ => [] end.

End Js.

(** ** Browser storage adapter: [services/storageService.ts] *)

Module LocalStore.
Import JsString Js.

(** The two items the adapter keeps in [localStorage], each the parsed
    JSON text stored under its key ([None]: no such item), and the number
    of items other code keeps in the same storage. *)
Record Storage := {
  trips_item : option (list JsObject);       (* 'trippy_trips' *)
  expenses_item : option (list JsObject);    (* 'trippy_expenses' *)
  other_items : nat
}.

Inductive Key := TRIPS_KEY | EXPENSES_KEY.

(** What [localStorage.setItem] may throw. *)
Inductive Thrown :=
| QuotaError   (* a DOMException with code 22 or 1014, or one of the two
                  quota names *)
| OtherError.

Inductive Event :=
| Alert_trip_not_saved      (* storage full, the new trip is not created *)
| Alert_saved_without_image (* the expense is stored, its image is not *)
| Alert_not_saved           (* not even the record without image fits *)
| Alert_updated_without_image
| Alert_not_updated
| Console_error.

Definition present {A} (item : option A) : nat :=
  match item with Some _ => 1%nat | None => 0%nat end.

(** [localStorage.length] *)
Definition storage_length (ls : Storage) : nat :=
  (present (trips_item ls) + present (expenses_item ls)
   + other_items ls)%nat.

Definition put (k : Key) (v : list JsObject) (ls : Storage) : Storage :=
  match k with
  | TRIPS_KEY =>
      {| trips_item := Some v; expenses_item := expenses_item ls;
         other_items := other_items ls |}
  | EXPENSES_KEY =>
      {| trips_item := trips_item ls; expenses_item := Some v;
         other_items := other_items ls |}
  end.

(** [Array.isArray(v) && v.length > 0 && typeof v[0] === 'string'] *)
Definition legacy_items (v : JsVal) : bool :=
  match v with
  | JArr (x :: _) => is_string x
  | _ => false
  end.

Definition migrate (e : JsObject) : JsObject :=
  if legacy_items (get "items" e) then
    set_field "items"
      (JArr (List.map
               (fun itemStr =>
                  JObj [("name", itemStr); ("originalName", itemStr)])
               (elements (get "items" e))))
      e
  else if negb (truthy (get "items" e)) then set_field "items" (JArr []) e
  else e.

Definition migrateExpenses (expenses : list JsObject) : list JsObject :=
  List.map migrate expenses.

Definition isQuotaExceeded (e : Thrown) (ls : Storage) : bool :=
  match e with
  | QuotaError => negb (Nat.eqb (storage_length ls) 0)
  | OtherError => false
  end.

Definition getTrips (ls : Storage) : list JsObject :=
  from_option (fun x => x) [] (trips_item ls).

Definition getAllExpenses (ls : Storage) : list JsObject :=
  migrateExpenses (from_option (fun x => x) [] (expenses_item ls)).

Definition getExpensesForTrip (ls : Storage) (tripId : jsstring)
  : list JsObject :=
  List.filter (fun e => equals_string (get "tripId" e) tripId)
              (getAllExpenses ls).

(** The records in storage are what [JSON.parse] gives for a text that
    [JSON.stringify] wrote: serialising them again changes nothing. *)
Definition holds_json (ls : Storage) : Prop :=
  Forall (fun o => json_object o = o) (getTrips ls)
  /\ Forall (fun o => json_object o = o)
            (from_option (fun x => x) [] (expenses_item ls)).

Section Writes.
(** The browser decides whether a write is accepted: [setItem_throws ls k
    v] is what [localStorage.setItem(k, JSON.stringify(v))] throws in
    state [ls], if anything. *)
Variable setItem_throws : Storage -> Key -> list JsObject -> option Thrown.

Definition setItem (ls : Storage) (k : Key) (v : list JsObject)
  : Thrown + Storage :=
  match setItem_throws ls k v with
  | Some e => inl e
  | None => inr (put k (List.map json_object v) ls)
  end.

(** Each operation returns the storage it leaves and what the user is
    shown or, for [deleteTrip] and [deleteExpense], which have no handler,
    what it throws. *)
Definition saveTrip (ls : Storage) (trip : JsObject)
  : Storage * list Event :=
  let trips := getTrips ls ++ [trip] in
  match setItem ls TRIPS_KEY trips with
  | inr ls' => (ls', [])
  | inl e =>
      if isQuotaExceeded e ls then (ls, [Alert_trip_not_saved])
      else (ls, [Console_error])
  end.

Definition deleteTrip (ls : Storage) (id : jsstring)
  : Storage * option Thrown :=
  let trips :=
    List.filter (fun t => negb (equals_string (get "id" t) id))
                (getTrips ls) in
  match setItem ls TRIPS_KEY trips with
  | inl e => (ls, Some e)
  | inr ls1 =>
      let allExpenses := getAllExpenses ls1 in
      let remainingExpenses :=
        List.filter (fun e => negb (equals_string (get "tripId" e) id))
                    allExpenses in
      match setItem ls1 EXPENSES_KEY remainingExpenses with
      | inl e => (ls1, Some e)
      | inr ls2 => (ls2, None)
      end
  end.

Definition saveExpense (ls : Storage) (expense : JsObject)
  : Storage * list Event :=
  let expenses := getAllExpenses ls in
  match setItem ls EXPENSES_KEY (expenses ++ [expense]) with
  | inr ls' => (ls', [])
  | inl e =>
      if isQuotaExceeded e ls then
        let expenseNoImg := set_field "receiptImage" JUndefined expense in
        match setItem ls EXPENSES_KEY (expenses ++ [expenseNoImg]) with
        | inr ls' => (ls', [Alert_saved_without_image])
        | inl _ => (ls, [Alert_not_saved])
        end
      else (ls, [Console_error])
  end.

Definition replace_by_id (updated : JsObject) (es : list JsObject)
  : list JsObject :=
  List.map (fun e => if strict_equals (get "id" e) (get "id" updated)
                     then updated else e) es.

Definition updateExpense (ls : Storage) (updatedExpense : JsObject)
  : Storage * list Event :=
  let allExpenses := getAllExpenses ls in
  match setItem ls EXPENSES_KEY (replace_by_id updatedExpense allExpenses)
  with
  | inr ls' => (ls', [])
  | inl e =>
      if isQuotaExceeded e ls then
        if truthy (get "receiptImage" updatedExpense) then
          let expenseNoImg :=
            set_field "receiptImage" JUndefined updatedExpense in
          match setItem ls EXPENSES_KEY
                  (replace_by_id expenseNoImg allExpenses) with
          | inr ls' => (ls', [Alert_updated_without_image])
          | inl _ => (ls, [Alert_not_updated])
          end
        else (ls, [Alert_not_updated])
      else (ls, [Console_error])
  end.

Definition deleteExpense (ls : Storage) (id : jsstring)
  : Storage * option Thrown :=
  match setItem ls EXPENSES_KEY
          (List.filter (fun e => negb (equals_string (get "id" e) id))
                       (getAllExpenses ls)) with
  | inl e => (ls, Some e)
  | inr ls' => (ls', None)
  end.
End Writes.

End LocalStore.

(** ** The typed records as values

    An [Expense] of [types.ts] seen as the object it is at run time; an
    optional property that is not set holds [undefined]. *)

Module Encode.
Import JsString Types Js.

Definition item_to_js (i : ExpenseItem) : JsVal :=
  JObj [("name", JStr (name i)); ("originalName", JStr (originalName i))].

Definition expense_to_js (e : Expense) : JsObject :=
  [("id", JStr (id e));
   ("tripId", JStr (tripId e));
   ("storeName", JStr (storeName e));
   ("date", JStr (date e));
   ("items", JArr (List.map item_to_js (items e)));
   ("originalCurrency", JStr (originalCurrency e));
   ("originalAmount", JNum (originalAmount e));
   ("exchangeRate", JNum (exchangeRate e));
   ("totalTWD", JNum (totalTWD e));
   ("paidByMe", JBool (paidByMe e));
   ("splitCount", JNum (splitCount e));
   ("myShareTWD", JNum (myShareTWD e));
   ("debtAmountTWD", JNum (debtAmountTWD e));
   ("isRepaid", JBool (isRepaid e));
   ("receiptImage",
    match receiptImage e with Some img => JStr img | None => JUndefined end)].

(** The property names of an object. *)
Definition keys (o : JsObject) : list string := List.map fst o.

End Encode.

(** ** [Array.prototype.sort]

    The sort is stable; [later a b] says that the comparison function gives a
    positive number on [(a, b)], which puts [b] before [a]. *)

Module JsArray.

Fixpoint insert_by {A} (later : A -> A -> bool) (x : A) (l : list A)
  : list A :=
  match l with
  | [] => [x]
  | y :: l' => if later x y then y :: insert_by later x l' else x :: l
  end.

Definition sort {A} (later : A -> A -> bool) (l : list A) : list A :=
  foldr (insert_by later) [] l.

End JsArray.

(** ** Firestore adapter: the [storageService] that keeps trips and expenses
    in the remote collections *)

Module Firestore.
Import JsString Js.

Inductive Collection := TRIPS_COLLECTION | EXPENSES_COLLECTION.

(** The documents of the two collections, by document id. *)
Record Db := {
  trips : gmap jsstring JsObject;
  expenses : gmap jsstring JsObject
}.

Inductive Error :=
| NotAuthenticated       (* "User not authenticated" *)
| InvalidReference       (* [doc()] on an id that is no non-empty string *)
| DocumentTooLarge       (* the message holds "exceeds the maximum allowed
                            size" *)
| RemoteError.           (* any other failure of the store or network *)

Inductive Event :=
| Alert_image_too_large
| Console_error.

(** A call to the remote store. *)
Inductive Request :=
| GetDocs (c : Collection)
| SetDoc (c : Collection) (docId : jsstring) (data : JsObject)
| AddDoc (c : Collection) (data : JsObject)
| DeleteDoc (c : Collection) (docId : jsstring).

Record World := { db : Db; log : list Event }.

(** An operation runs in a world and ends with a value or a thrown error. *)
Definition M (A : Type) := World -> (Error + A) * World.

Definition ret {A} (a : A) : M A := fun w => (inr a, w).
Definition throw {A} (e : Error) : M A := fun w => (inl e, w).
Definition bind {A B} (m : M A) (k : A -> M B) : M B :=
  fun w => match m w with
           | (inr a, w') => k a w'
           | (inl e, w') => (inl e, w')
           end.
Definition try_catch {A} (m : M A) (handler : Error -> M A) : M A :=
  fun w => match m w with
           | (inr a, w') => (inr a, w')
           | (inl e, w') => handler e w'
           end.
Definition emit (ev : Event) : M unit :=
  fun w => (inr tt, {| db := db w; log := log w ++ [ev] |}).
Definition get_db : M Db := fun w => (inr (db w), w).
Definition set_db (d : Db) : M unit :=
  fun w => (inr tt, {| db := d; log := log w |}).

Declare Scope fs_scope.
Delimit Scope fs_scope with fs.
Notation "x <- m ;; k" := (bind m (fun x => k))
  (at level 100, m at next level, right associativity) : fs_scope.
Notation "m ;;; k" := (bind m (fun _ => k))
  (at level 100, right associativity) : fs_scope.
Local Open Scope fs_scope.

Definition docs_of (c : Collection) (d : Db) : gmap jsstring JsObject :=
  match c with
  | TRIPS_COLLECTION => trips d
  | EXPENSES_COLLECTION => expenses d
  end.

Definition with_docs (c : Collection) (m : gmap jsstring JsObject) (d : Db)
  : Db :=
  match c with
  | TRIPS_COLLECTION => {| trips := m; expenses := expenses d |}
  | EXPENSES_COLLECTION => {| trips := trips d; expenses := m |}
  end.

(** [removeUndefined] *)
Definition removeUndefined (obj : JsObject) : JsObject :=
  List.filter (fun kv => negb (is_undefined kv.2)) obj.

(** [doc(db, c, v)] needs a non-empty string. *)
Definition doc_ref (v : JsVal) : option jsstring :=
  match v with
  | JStr s => if is_empty s then None else Some s
  | _ => None
  end.

(** [{ ...expense, userId: uid, items: Array.isArray(expense.items) ?
    expense.items : [] }] *)
Definition safe_expense (uid : jsstring) (expense : JsObject) : JsObject :=
  set_field "items"
    (match get "items" expense with
     | JArr xs => JArr xs
     | _ => JArr []
     end)
    (set_field "userId" (JStr uid) expense).

(** [where("tripId", "==", tripId), where("userId", "==", uid)] *)
Definition expense_of (tripId uid : jsstring) (data : JsObject) : bool :=
  equals_string (get "tripId" data) tripId
  && equals_string (get "userId" data) uid.

Section Adapter.
(** [auth.currentUser], here its [uid]. *)
Variable currentUser : option jsstring.
(** The store's verdict on a call: the error it fails with, if any. *)
Variable fault : Request -> option Error.
(** The id [addDoc] gives a new document. *)
Variable auto_id : Db -> jsstring.
(** [new Date(v).getTime()], [None] for [NaN]. *)
Variable Date_getTime : JsVal -> option Z.

Definition getCurrentUserId : M jsstring :=
  match currentUser with
  | None => throw NotAuthenticated
  | Some uid => ret uid
  end.

Definition request (r : Request) : M unit :=
  match fault r with Some e => throw e | None => ret tt end.

Definition getDocs (c : Collection) (selects : JsObject -> bool)
  : M (list (jsstring * JsObject)) :=
  request (GetDocs c) ;;;
  d <- get_db ;;
  ret (List.filter (fun kd => selects kd.2) (map_to_list (docs_of c d))).

Definition setDoc (c : Collection) (docId : jsstring) (data : JsObject)
  : M unit :=
  request (SetDoc c docId data) ;;;
  d <- get_db ;;
  set_db (with_docs c (<[docId := data]> (docs_of c d)) d).

Definition addDoc (c : Collection) (data : JsObject) : M jsstring :=
  request (AddDoc c data) ;;;
  d <- get_db ;;
  set_db (with_docs c (<[auto_id d := data]> (docs_of c d)) d) ;;;
  ret (auto_id d).

Definition deleteDoc (c : Collection) (docId : jsstring) : M unit :=
  request (DeleteDoc c docId) ;;;
  d <- get_db ;;
  set_db (with_docs c (delete docId (docs_of c d)) d).

(** [{ id: doc.id, ...doc.data() }] *)
Definition with_id (kd : jsstring * JsObject) : JsObject :=
  assign [("id", JStr kd.1)] kd.2.

(** [new Date(e.date).getTime()] *)
Definition time_of (e : JsObject) : option Z :=
  Date_getTime (get "date" e).

(** [new Date(b.date).getTime() - new Date(a.date).getTime() > 0] *)
Definition newer_second (a b : JsObject) : bool :=
  match time_of b, time_of a with
  | Some tb, Some ta => (0 <? tb - ta)%Z
  | _, _ => false
  end.

(** [a] is dated no earlier than [b]. *)
Definition not_before (a b : JsObject) : Prop :=
  exists ta tb, time_of a = Some ta /\ time_of b = Some tb /\ (tb <= ta)%Z.

Definition fetchExpensesForTrip (tripId : jsstring) : M (list JsObject) :=
  try_catch
    (uid <- getCurrentUserId ;;
     docs <- getDocs EXPENSES_COLLECTION (expense_of tripId uid) ;;
     let expenses := List.map with_id docs in
     ret (JsArray.sort newer_second expenses))
    (fun error => emit Console_error ;;; throw error).

(** The deletions [expenses.map(e => deleteDoc(doc(..., e.id)))] starts
    and [Promise.all] awaits: a bad reference stops the [map] at once, a
    deletion the store refuses is reported when all have been tried. *)
Fixpoint delete_each (es : list JsObject) (failed : option Error)
  : M unit :=
  match es with
  | [] => match failed with Some e => throw e | None => ret tt end
  | e :: es' =>
      match doc_ref (get "id" e) with
      | None => throw InvalidReference
      | Some docId =>
          match fault (DeleteDoc EXPENSES_COLLECTION docId) with
          | Some err =>
              delete_each es' (Some (from_option (fun x => x) err failed))
          | None =>
              deleteDoc EXPENSES_COLLECTION docId ;;; delete_each es' failed
          end
      end
  end.

Definition deleteTrip (id : jsstring) : M unit :=
  try_catch
    (match doc_ref (JStr id) with
     | None => throw InvalidReference
     | Some docId => deleteDoc TRIPS_COLLECTION docId
     end ;;;
     expenses <- fetchExpensesForTrip id ;;
     delete_each expenses None)
    (fun error => emit Console_error ;;; throw error).

Definition saveExpense (expense : JsObject) : M jsstring :=
  try_catch
    (uid <- getCurrentUserId ;;
     let safeExpense := safe_expense uid expense in
     let data := removeUndefined safeExpense in
     if truthy (get "id" safeExpense) then
       match doc_ref (get "id" safeExpense) with
       | None => throw InvalidReference
       | Some docId =>
           setDoc EXPENSES_COLLECTION docId data ;;; ret docId
       end
     else addDoc EXPENSES_COLLECTION data)
    (fun error =>
       match error with
       | DocumentTooLarge => emit Alert_image_too_large
       | _ => ret tt
       end ;;;
       emit Console_error ;;; throw error).
End Adapter.

End Firestore.

(** ** Gemini gateway: [services/geminiService.ts] *)

Module Gemini.
Import JsString Js.

(** A function that makes at most one call to an outside service: it ends
    with a value and has written nothing, or it asks [q] and, resumed with
    the answer and the storage as it then is, ends with a value and the
    storage it leaves. *)
Inductive Call (Q R S A : Type) :=
| Done (a : A)
| Ask (q : Q) (k : R -> S -> A * S).
Arguments Done {Q R S A} a.
Arguments Ask {Q R S A} q k.

(** What [ai.models.generateContent] does: it throws (as does, for the
    handler, anything else in the [try] block before the text is read), or
    answers with a response whose [text] may be missing. *)
Inductive ModelOutcome :=
| ModelThrows
| ModelResponse (text : option jsstring).

(** One entry of the rate cache as JSON keeps it: a rate that is not a
    finite number is stored as [null]. *)
Record CacheEntry := {
  entry_rate : option float;
  entry_date : jsstring   (* YYYY-MM-DD *)
}.

Record ApiUsage := { usage_date : jsstring; usage_count : Z }.

(** The items of [localStorage] the gateway reads and writes. *)
Record Storage := {
  rate_cache : option (gmap jsstring CacheEntry);  (* 'trippy_rate_cache' *)
  api_usage : option ApiUsage;                     (* 'bamboo_api_usage' *)
  user_api_key : option jsstring                   (* 'bamboo_user_api_key' *)
}.

Inductive Write :=
| WriteRateCache (c : gmap jsstring CacheEntry)
| WriteApiUsage (u : ApiUsage).

Definition apply_write (w : Write) (st : Storage) : Storage :=
  match w with
  | WriteRateCache c =>
      {| rate_cache := Some c; api_usage := api_usage st;
         user_api_key := user_api_key st |}
  | WriteApiUsage u =>
      {| rate_cache := rate_cache st; api_usage := Some u;
         user_api_key := user_api_key st |}
  end.

Record RateResult := { rate : float; source : jsstring }.

Definition is_digit_or_dot (c : N) : bool :=
  ((48 <=? c) && (c <=? 57) || (c =? 46))%N.

(** The longest run of [[0-9.]] that starts [s]. *)
Fixpoint span_numeric (s : jsstring) : jsstring * jsstring :=
  match s with
  | c :: s' =>
      if is_digit_or_dot c
      then let (tok, rest) := span_numeric s' in (c :: tok, rest)
      else ([], s)
  | [] => ([], [])
  end.

(** [text.match(/[\d.]+/)]: the leftmost run. *)
Fixpoint first_numeric_token (text : jsstring) : option jsstring :=
  match text with
  | [] => None
  | c :: text' =>
      if is_digit_or_dot c then Some (fst (span_numeric text))
      else first_numeric_token text'
  end.

Definition head_digit (s : jsstring) : bool :=
  match s with c :: _ => is_digit_or_dot c | [] => false end.

(** Every run of [[0-9.]] in the text, left to right. *)
Fixpoint tokens_go (cur s : jsstring) : list jsstring :=
  match s with
  | [] => if is_empty cur then [] else [rev cur]
  | c :: s' =>
      if is_digit_or_dot c then tokens_go (c :: cur) s'
      else (if is_empty cur then [] else [rev cur]) ++ tokens_go [] s'
  end.

Definition numeric_tokens (text : jsstring) : list jsstring :=
  tokens_go [] text.

(** The call was made. *)
Definition asks {Q R S A} (c : Call Q R S A) : bool :=
  match c with Ask _ _ => true | Done _ => false end.

Definition DAILY_API_LIMIT : Z := 2.
Definition ADMIN_EMAILS : list jsstring := [js "zx4032410@gmail.com"].

Inductive Thrown := DAILY_LIMIT_REACHED.

Section Gateway.
(** [String.prototype.toUpperCase] and [parseFloat] of the runtime. *)
Variable toUpperCase : jsstring -> jsstring.
Variable parseFloat : jsstring -> float.
(** Whether the browser refuses a write to [localStorage]. *)
Variable setItem_throws : Storage -> Write -> bool.
(** [JSON.parse(text)], [None] when it throws; the value is returned
    under the cast [as GeminiAnalysisResult], which checks nothing. *)
Variable JSON_parse : jsstring -> option JsVal.
(** [auth.currentUser?.email] and [process.env.API_KEY]. *)
Variable currentUserEmail : option jsstring.
Variable env_API_KEY : jsstring.

(** A write inside [try { ... } catch (e) { console.error(...) }]. *)
Definition try_setItem (st : Storage) (w : Write) : Storage :=
  if setItem_throws st w then st else apply_write w st.

Definition getRateFromCache (st : Storage) (today currency : jsstring)
  : option float :=
  match rate_cache st with
  | None => None
  | Some cache =>
      match cache !! currency with
      | Some entry =>
          if bool_decide (entry_date entry = today)
          then entry_rate entry else None
      | None => None
      end
  end.

(** The cache with the new entry, as [saveRateToCache] writes it. *)
Definition cache_write (st : Storage) (today currency : jsstring)
    (r : float) : Write :=
  let cache := from_option (fun c => c) ∅ (rate_cache st) in
  WriteRateCache
    (<[currency := {| entry_rate :=
                        if JsNumber.is_finite r then Some r else None;
                      entry_date := today |}]> cache).

Definition saveRateToCache (st : Storage) (today currency : jsstring)
    (r : float) : Storage :=
  try_setItem st (cache_write st today currency r).

(** The lookup gave nothing to use: it threw, or its text is missing or
    has no run of digits and dots that [parseFloat] reads as a positive
    number. *)
Definition lookup_failed (o : ModelOutcome) : Prop :=
  match o with
  | ModelThrows | ModelResponse None => True
  | ModelResponse (Some text) =>
      Forall (fun tok => PrimFloat.ltb 0 (parseFloat tok) = false)
             (numeric_tokens text)
  end.

(** The analysis gave nothing to use: the call threw, or its text is
    missing, empty or not JSON. *)
Definition analysis_failed (o : ModelOutcome) : Prop :=
  match o with
  | ModelThrows | ModelResponse None => True
  | ModelResponse (Some text) => text = [] \/ JSON_parse text = None
  end.

Definition rate_prompt (currency : jsstring) : jsstring :=
  js "What is the current exchange rate for 1 " ++ currency
  ++ js " to New Taiwan Dollar (TWD)? Return ONLY the numeric rate (e.g. 0.21). Do not add any text.".

Definition fetchExchangeRate (st : Storage) (today currency : jsstring)
  : Call jsstring ModelOutcome Storage RateResult :=
  if bool_decide (toUpperCase currency = js "TWD") then
    Done {| rate := 1; source := js "Default" |}
  else
    match getRateFromCache st today (toUpperCase currency) with
    | Some cachedRate =>
        Done {| rate := cachedRate; source := js "Cache (Today)" |}
    | None =>
        Ask (rate_prompt currency)
          (fun outcome st =>
             match outcome with
             | ModelThrows => ({| rate := 1; source := js "Error" |}, st)
             | ModelResponse None =>
                 ({| rate := 1; source := js "Error" |}, st)
             | ModelResponse (Some text) =>
                 if is_empty text then
                   ({| rate := 1; source := js "Error" |}, st)
                 else
                   let r :=
                     match first_numeric_token text with
                     | Some tok => parseFloat tok
                     | None => 0%float
                     end in
                   if PrimFloat.ltb 0 r then
                     ({| rate := r; source := js "Google Search" |},
                      saveRateToCache st today (toUpperCase currency) r)
                   else ({| rate := 1; source := js "Failed" |}, st)
             end)
    end.

(** The usage counter and the user's own key, from the storage
    service the gateway imports. *)
Definition getApiUsageToday (st : Storage) (today : jsstring) : Z :=
  match api_usage st with
  | None => 0
  | Some usage =>
      if bool_decide (usage_date usage = today) then usage_count usage
      else 0
  end.

Definition incrementApiUsage (st : Storage) (today : jsstring) : Storage :=
  try_setItem st
    (WriteApiUsage {| usage_date := today;
                      usage_count := getApiUsageToday st today + 1 |}).

Definition hasReachedDailyLimit (st : Storage) (today : jsstring) : bool :=
  (DAILY_API_LIMIT <=? getApiUsageToday st today)%Z.

Definition getUserApiKey (st : Storage) : option jsstring :=
  user_api_key st.

Definition has_key (k : option jsstring) : bool :=
  match k with Some s => negb (is_empty s) | None => false end.

Definition isAdmin : bool :=
  match currentUserEmail with
  | Some email =>
      negb (is_empty email) && bool_decide (email ∈ ADMIN_EMAILS)
  | None => false
  end.

(** The record returned when the analysis fails; the two Chinese texts
    read "unnamed expense" and "item not recognised". *)
Definition fallback (today : jsstring) : JsObject :=
  [("storeName", JStr [26410; 21629; 21517; 28040; 36027]%N);
   ("date", JStr today);
   ("totalAmount", JNum 0);
   ("currency", JStr (js "TWD"));
   ("items",
    JArr [JObj [("name",
                 JStr [28961; 27861; 36776; 35672; 38917; 30446]%N);
                ("originalName", JStr (js "Unknown Item"))]]);
   ("exchangeRateToTWD", JNum 1)].

(** The request names the key it is sent with and the image. *)
Definition analyzeReceipt (st : Storage) (today base64Image : jsstring)
  : Call (jsstring * jsstring) ModelOutcome Storage (Thrown + JsVal) :=
  let userApiKey := getUserApiKey st in
  let shared := negb (has_key userApiKey) && negb isAdmin in
  if shared && hasReachedDailyLimit st today then
    Done (inl DAILY_LIMIT_REACHED)
  else
    let apiKey :=
      if has_key userApiKey then from_option (fun k => k) [] userApiKey
      else env_API_KEY in
    Ask (apiKey, base64Image)
      (fun outcome st =>
         match outcome with
         | ModelThrows => (inr (JObj (fallback today)), st)
         | ModelResponse None => (inr (JObj (fallback today)), st)
         | ModelResponse (Some text) =>
             if is_empty text then (inr (JObj (fallback today)), st)
             else
               let st' :=
                 if shared then incrementApiUsage st today else st in
               match JSON_parse text with
               | Some result => (inr result, st')
               | None => (inr (JObj (fallback today)), st')
               end
         end).
End Gateway.

End Gemini.


(** ** The gateway's storage: what its cache and counter keep *)

Module GeminiState.
Import JsString Js Gemini.

(** Every rate the cache holds is a positive number. *)
Definition cache_positive (st : Storage) : Prop :=
  forall cache c e r,
    rate_cache st = Some cache ->
    cache !! c = Some e ->
    entry_rate e = Some r ->
    PrimFloat.ltb 0 r = true.

(** A text with no digit and no dot. *)
Definition no_numeric (s : jsstring) : bool :=
  forallb (fun c => negb (is_digit_or_dot c)) s.

(** A text of digits and dots only. *)
Definition all_numeric (s : jsstring) : bool :=
  forallb is_digit_or_dot s.

(** *** The allowance shown to the user and the user's own key: the
    storage service the gateway imports *)

(** [Math.max(0, DAILY_API_LIMIT - used)] *)
Definition getRemainingApiCalls (st : Storage) (today : jsstring) : Z :=
  Z.max 0 (DAILY_API_LIMIT - getApiUsageToday st today).

(** [key !== null && key.length > 0] *)
Definition hasUserApiKey (st : Storage) : bool :=
  match getUserApiKey st with
  | Some key => negb (is_empty key)
  | None => false
  end.

Definition with_key (key : option jsstring) (st : Storage) : Storage :=
  {| rate_cache := rate_cache st; api_usage := api_usage st;
     user_api_key := key |}.

Section UserKey.
(** Whether the browser refuses to write the key, or to remove it. *)
Variable setKey_throws : Storage -> jsstring -> bool.
Variable removeKey_throws : Storage -> bool.

(** A key that is blank once trimmed is not written; a refused write is
    only logged. *)
Definition saveUserApiKey (st : Storage) (apiKey : jsstring) : Storage :=
  if is_empty (trim apiKey) then st
  else if setKey_throws st (trim apiKey) then st
  else with_key (Some (trim apiKey)) st.

Definition clearUserApiKey (st : Storage) : Storage :=
  if removeKey_throws st then st else with_key None st.
End UserKey.

End GeminiState.

(** ** Firestore adapter: trips, and the update and removal of one
    expense *)

Module FirestoreTrips.
Import JsString Js Firestore.
Local Open Scope fs_scope.

(** [where("userId", "==", uid)] *)
Definition owned_by (uid : jsstring) (data : JsObject) : bool :=
  equals_string (get "userId" data) uid.

Section Adapter.
Variable currentUser : option jsstring.
Variable fault : Request -> option Error.
Variable auto_id : Db -> jsstring.

Definition fetchTrips : M (list JsObject) :=
  try_catch
    (uid <- getCurrentUserId currentUser ;;
     docs <- getDocs fault TRIPS_COLLECTION (owned_by uid) ;;
     ret (List.map with_id docs))
    (fun error => emit Console_error ;;; throw error).

(** [{ ...trip, userId: uid }] without its [undefined] properties is
    written under [trip.id], or under a new id when [trip.id] is falsy. *)
Definition saveTrip (trip : JsObject) : M jsstring :=
  try_catch
    (uid <- getCurrentUserId currentUser ;;
     let tripWithUser := set_field "userId" (JStr uid) trip in
     let data := removeUndefined tripWithUser in
     if truthy (get "id" trip) then
       match doc_ref (get "id" trip) with
       | None => throw InvalidReference
       | Some docId =>
           setDoc fault TRIPS_COLLECTION docId data ;;; ret docId
       end
     else addDoc fault auto_id TRIPS_COLLECTION data)
    (fun error => emit Console_error ;;; throw error).

(** [deleteExpense] does not ask who is signed in. *)
Definition deleteExpense (id : jsstring) : M unit :=
  try_catch
    (match doc_ref (JStr id) with
     | None => throw InvalidReference
     | Some docId => deleteDoc fault EXPENSES_COLLECTION docId
     end)
    (fun error => emit Console_error ;;; throw error).
End Adapter.

(** *** Updating an expense

    [updateDoc] writes the properties it is given into the document and
    keeps the others; it fails when there is no document to update.  The
    property names of the records have no dot, so each names one
    property. *)

Inductive UpdateError :=
| Expense_ID_is_missing   (* "Expense ID is missing" *)
| Thrown (e : Error).

Inductive UpdateEvent :=
| Alert_image_too_large_to_update
| Console_error_updating.

Section Update.
Variable currentUser : option jsstring.
(** The store's verdict on [updateDoc(ref, data)]. *)
Variable updateDoc_fault : jsstring -> JsObject -> option Error.

(** The handler: an alert when the message says the document is too
    large, the console error, and the error thrown again. *)
Definition update_failed (e : UpdateError) (d : Db)
  : (UpdateError + unit) * Db * list UpdateEvent :=
  (inl e, d,
   match e with
   | Thrown DocumentTooLarge =>
       [Alert_image_too_large_to_update; Console_error_updating]
   | _ => [Console_error_updating]
   end).

Definition updateExpense (updatedExpense : JsObject) (d : Db)
  : (UpdateError + unit) * Db * list UpdateEvent :=
  if negb (truthy (get "id" updatedExpense)) then
    update_failed Expense_ID_is_missing d
  else
    match currentUser with
    | None => update_failed (Thrown NotAuthenticated) d
    | Some uid =>
        let data :=
          removeUndefined (set_field "userId" (JStr uid) updatedExpense) in
        match doc_ref (get "id" updatedExpense) with
        | None => update_failed (Thrown InvalidReference) d
        | Some docId =>
            match updateDoc_fault docId data with
            | Some e => update_failed (Thrown e) d
            | None =>
                match expenses d !! docId with
                | None => update_failed (Thrown RemoteError) d
                | Some old =>
                    (inr tt,
                     {| trips := trips d;
                        expenses :=
                          <[docId := assign old data]> (expenses d) |},
                     [])
                end
            end
        end
    end.
End Update.

End FirestoreTrips.

(** ** The add/edit form when it opens: the [useEffect] of
    [components/AddExpenseModal.tsx] that resets the form or loads the
    expense to edit *)

Module EditForm.
Import JsNumber JsString Types AddExpenseModal.

Section Open.
(** [toLocalDateTime(new Date(s))], [None] when it throws, and
    [getCurrentLocalDateTime()]. *)
Variable toLocalDateTime : jsstring -> option jsstring.
Variable getCurrentLocalDateTime : jsstring.

(** Create mode: [setImage(null)] and [resetForm()]. *)
Definition create_form : Form :=
  {| f_storeName := [];
     f_amount := AmountBlank;
     f_currency := js "TWD";
     f_date := getCurrentLocalDateTime;
     f_itemsText := [];
     f_rate := 1;
     f_isSplit := false;
     f_totalPeople := 1;
     f_image := None |}.

(** Edit mode. *)
Definition edit_form (initialData : Expense) : Form :=
  {| f_storeName := storeName initialData;
     f_amount := AmountNum (originalAmount initialData);
     f_currency := originalCurrency initialData;
     f_date :=
       match toLocalDateTime (date initialData) with
       | Some local => local
       | None => getCurrentLocalDateTime
       end;
     f_itemsText := formatItemsToString (items initialData);
     f_rate := exchangeRate initialData;
     f_isSplit := PrimFloat.ltb 1 (splitCount initialData);
     f_totalPeople :=
       if PrimFloat.ltb 1 (splitCount initialData)
       then splitCount initialData else 1%float;
     f_image :=
       match receiptImage initialData with
       | Some img => if is_empty img then None else Some img
       | None => None
       end |}.

Definition open_form (initialData : option Expense) : Form :=
  match initialData with
  | Some e => edit_form e
  | None => create_form
  end.
End Open.

(** An item that is written as a line: not both texts empty. *)
Definition has_text (i : ExpenseItem) : bool :=
  negb (is_empty (name i) && is_empty (originalName i)).

(** No occurrence of the separator starts inside [a] when [a] is followed
    by [s]. *)
Definition none_starts (sep a s : jsstring) : Prop :=
  forall b c, a = b ++ c -> c <> [] -> starts_with sep (c ++ s) = false.

(** A field as a parsed line has it: no white space at the ends, and
    neither a line break nor ["||"] inside. *)
Definition plain (s : jsstring) : Prop :=
  is_trimmed s = true /\ includes newline s = false
  /\ includes bars s = false.

(** A text without the code unit ["|"]. *)
Definition no_bar (s : jsstring) : bool :=
  forallb (fun c => negb (c =? 124)%N) s.

End EditForm.

(** ** The trip view: the totals of [App.tsx], and marking a debt repaid *)

Module TripDetailView.
Import JsString Types.

(** [expenses.reduce((sum, e) => sum + e.myShareTWD, 0)] *)
Definition totalSpent (expenses : list Expense) : float :=
  fold_left (fun sum e => (sum + myShareTWD e)%float) expenses 0%float.

(** [expenses.reduce((sum, e) => e.isRepaid ? sum : sum + e.debtAmountTWD,
    0)] *)
Definition totalOwedToMe (expenses : list Expense) : float :=
  fold_left (fun sum e => if isRepaid e then sum
                          else (sum + debtAmountTWD e)%float)
            expenses 0%float.

(** [{ ...expense, isRepaid: !expense.isRepaid }] *)
Definition toggled (e : Expense) : Expense :=
  {| id := id e; tripId := tripId e; storeName := storeName e;
     date := date e; items := items e;
     originalCurrency := originalCurrency e;
     originalAmount := originalAmount e; exchangeRate := exchangeRate e;
     totalTWD := totalTWD e; paidByMe := paidByMe e;
     splitCount := splitCount e; myShareTWD := myShareTWD e;
     debtAmountTWD := debtAmountTWD e; isRepaid := negb (isRepaid e);
     receiptImage := receiptImage e |}.

(** The list [toggleRepayment] shows:
    [expenses.map(e => e.id === updated.id ? updated : e)]. *)
Definition toggleRepayment (expense : Expense) (expenses : list Expense)
  : list Expense :=
  let updated := toggled expense in
  List.map (fun e => if bool_decide (id e = id updated) then updated else e)
           expenses.

End TripDetailView.

(** ** The theme preference: [getThemePreference], [saveThemePreference] *)

Module Theme.
Import JsString.

Inductive ThemeMode := light | dark | system.

Definition text_of (t : ThemeMode) : jsstring :=
  match t with
  | light => js "light"
  | dark => js "dark"
  | system => js "system"
  end.

(** The item ['trippy_theme'], if any. *)
Definition getThemePreference (item : option jsstring) : ThemeMode :=
  match item with
  | Some theme =>
      if bool_decide (theme = js "light") then light
      else if bool_decide (theme = js "dark") then dark
      else system
  | None => system
  end.

(** A refused write is only logged: [true] says the console shows the
    error. *)
Definition saveThemePreference (setItem_throws : jsstring -> bool)
    (item : option jsstring) (theme : ThemeMode)
  : option jsstring * bool :=
  if setItem_throws (text_of theme) then (item, true)
  else (Some (text_of theme), false).

End Theme.

(** ** Sample data

    Concrete forms, records and stores on which the developments below are
    run. *)

Module Samples.
Import JsNumber JsString Types AddExpenseModal.

(** [0.22] as JavaScript reads the literal. *)
Definition rate_022 : float := 0x1.c28f5c28f5c29p-3%float.

Definition iso_of_local (s : jsstring) : option jsstring :=
  if is_empty s then None else Some (s ++ js ":00.000Z").

Definition tokyo : jsstring := js "T1".
Definition fresh_id : jsstring := js "7d2c1f0e-0001".

(** 1000 JPY at 0.22, shared by four. *)
Definition form_lunch : Form :=
  {| f_storeName := js "Lawson";
     f_amount := AmountNum 1000;
     f_currency := js "JPY";
     f_date := js "2024-01-02T12:30";
     f_itemsText := js "Onigiri";
     f_rate := rate_022;
     f_isSplit := true;
     f_totalPeople := 4;
     f_image := None |}.

(** 1 JPY at 0.22, shared by five. *)
Definition form_fifth : Form :=
  {| f_storeName := js "Kiosk";
     f_amount := AmountNum 1;
     f_currency := js "JPY";
     f_date := js "2024-01-02T12:30";
     f_itemsText := [];
     f_rate := rate_022;
     f_isSplit := true;
     f_totalPeople := 5;
     f_image := None |}.

(** 350 TWD paid alone. *)
Definition form_alone : Form :=
  {| f_storeName := js "Night market";
     f_amount := AmountNum 350;
     f_currency := js "TWD";
     f_date := js "2024-01-03T19:00";
     f_itemsText := [];
     f_rate := 1;
     f_isSplit := false;
     f_totalPeople := 1;
     f_image := None |}.

(** The least positive number, shared by two. *)
Definition form_tiny : Form :=
  {| f_storeName := js "Kiosk";
     f_amount := AmountNum 0x1p-1074;
     f_currency := js "TWD";
     f_date := js "2024-01-02T12:30";
     f_itemsText := [];
     f_rate := 1;
     f_isSplit := true;
     f_totalPeople := 2;
     f_image := None |}.

(** An amount whose total overflows, shared by two. *)
Definition form_huge : Form :=
  {| f_storeName := js "Kiosk";
     f_amount := AmountNum 0x1p1023;
     f_currency := js "JPY";
     f_date := js "2024-01-02T12:30";
     f_itemsText := [];
     f_rate := 4;
     f_isSplit := true;
     f_totalPeople := 2;
     f_image := None |}.

(** The same amount, not shared. *)
Definition form_huge_alone : Form :=
  {| f_storeName := js "Kiosk";
     f_amount := AmountNum 0x1p1023;
     f_currency := js "JPY";
     f_date := js "2024-01-02T12:30";
     f_itemsText := [];
     f_rate := 4;
     f_isSplit := false;
     f_totalPeople := 1;
     f_image := None |}.

(** Items as the textarea shows them: one with a translation, one
    without. *)
Definition items_juice : list ExpenseItem :=
  [{| name := [34315; 26524; 27713]%N; originalName := js "Apple Juice" |};
   {| name := js "Sandwich"; originalName := js "Sandwich" |}].

(** An expense with a receipt image. *)
Definition expense_with_image : Expense :=
  {| id := js "e9"; tripId := tokyo; storeName := js "Lawson";
     date := js "2024-01-02T03:30:00.000Z"; items := items_juice;
     originalCurrency := js "JPY"; originalAmount := 1000;
     exchangeRate := rate_022; totalTWD := 220; paidByMe := true;
     splitCount := 4; myShareTWD := 55; debtAmountTWD := 165;
     isRepaid := false; receiptImage := Some (js "data:image/jpeg;base64,AAAA") |}.

(** *** Browser storage *)

Import Js LocalStore.

(** A record written before items had two fields. *)
Definition legacy_record : JsObject :=
  [("id", JStr (js "e1")); ("tripId", JStr tokyo);
   ("storeName", JStr (js "Cafe"));
   ("items", JArr [JStr (js "Coffee"); JStr (js "Tea")]);
   ("totalTWD", JNum 120)].

Definition kyoto_record : JsObject :=
  [("id", JStr (js "e2")); ("tripId", JStr (js "T2"));
   ("storeName", JStr (js "Temple"));
   ("items", JArr []);
   ("totalTWD", JNum 300)].

Definition legacy_storage : Storage :=
  {| trips_item := Some [[("id", JStr tokyo); ("name", JStr (js "Tokyo"))];
                         [("id", JStr (js "T2")); ("name", JStr (js "Kyoto"))]];
     expenses_item := Some [legacy_record; kyoto_record];
     other_items := 1 |}.

(** Two expenses of the Tokyo trip, the older one stored first. *)
Definition dated_record (i day : jsstring) : JsObject :=
  [("id", JStr i); ("tripId", JStr tokyo); ("date", JStr day);
   ("items", JArr [])].

Definition dated_storage : Storage :=
  {| trips_item := Some [[("id", JStr tokyo); ("name", JStr (js "Tokyo"))]];
     expenses_item :=
       Some [dated_record (js "e1") (js "2024-01-02T03:30:00.000Z");
             dated_record (js "e4") (js "2024-01-04T09:15:00.000Z")];
     other_items := 0 |}.

(** A browser that accepts every write. *)
Definition roomy : Storage -> Key -> list JsObject -> option Thrown :=
  fun _ _ _ => None.

(** A browser out of quota for any list that holds an image. *)
Definition has_image (o : JsObject) : bool :=
  truthy (get "receiptImage" o).

Definition no_room_for_images
  : Storage -> Key -> list JsObject -> option Thrown :=
  fun _ _ v => if existsb has_image v then Some QuotaError else None.

(** *** Firestore *)

Import Firestore.

Definition alice : jsstring := js "uid-alice".
Definition bob : jsstring := js "uid-bob".

Definition answering : Request -> option Error := fun _ => None.

(** A store that refuses documents holding an image as too large. *)
Definition image_too_large : Request -> option Error :=
  fun r => match r with
           | SetDoc _ _ data | AddDoc _ data =>
               if has_image data then Some DocumentTooLarge else None
           | _ => None
           end.

(** The security rules the README gives for both collections, [allow
    read, write: if request.auth.uid == resource.data.userId], as they
    answer the user [uid] on the store [snapshot]: a document of somebody
    else, or one that is not there, is not written or deleted; the two
    queries of the adapter select on [userId] and are answered. *)
Definition owner_rules (uid : jsstring) (snapshot : Db)
  : Request -> option Error :=
  fun r =>
    let own d := equals_string (get "userId" d) uid in
    let on_document c k :=
      match docs_of c snapshot !! k with
      | Some d => if own d then None else Some RemoteError
      | None => Some RemoteError
      end in
    match r with
    | GetDocs _ => None
    | AddDoc _ data => if own data then None else Some RemoteError
    | SetDoc c k _ => on_document c k
    | DeleteDoc c k => on_document c k
    end.

Definition next_id : Db -> jsstring := fun _ => js "auto-1".

(** The times of the dates used below, in milliseconds. *)
Definition sample_time (v : JsVal) : option Z :=
  match v with
  | JStr s =>
      if bool_decide (s = js "2024-01-02T03:30:00.000Z")
      then Some 1704166200000%Z
      else if bool_decide (s = js "2024-01-03T10:00:00.000Z")
      then Some 1704276000000%Z
      else if bool_decide (s = js "2024-01-04T09:15:00.000Z")
      then Some 1704359700000%Z
      else None
  | _ => None
  end.

Definition doc (i trip owner day : jsstring) (its : JsVal) : JsObject :=
  [("id", JStr i); ("tripId", JStr trip); ("userId", JStr owner);
   ("date", JStr day); ("items", its)].

Definition empty_world : World :=
  {| db := {| trips := ∅; expenses := ∅ |}; log := [] |}.

(** A legacy-shaped document in the remote collection. *)
Definition legacy_world : World :=
  {| db := {| trips := {[ tokyo := [("name", JStr (js "Tokyo"));
                                    ("userId", JStr alice)] ]};
              expenses :=
                {[ js "e1" := doc (js "e1") tokyo alice
                                (js "2024-01-02T03:30:00.000Z")
                                (JArr [JStr (js "Coffee"); JStr (js "Tea")]) ]} |};
     log := [] |}.

(** Two of Alice's expenses in Tokyo, one of hers in Kyoto, and one of
    Bob's that names the Tokyo trip. *)
Definition shared_world : World :=
  {| db := {| trips := {[ tokyo := [("name", JStr (js "Tokyo"));
                                    ("userId", JStr alice)] ]};
              expenses :=
                <[ js "e1" := doc (js "e1") tokyo alice
                                (js "2024-01-02T03:30:00.000Z") (JArr []) ]>
                (<[ js "e2" := doc (js "e2") tokyo bob
                                 (js "2024-01-03T10:00:00.000Z") (JArr []) ]>
                (<[ js "e3" := doc (js "e3") (js "T2") alice
                                 (js "2024-01-03T10:00:00.000Z") (JArr []) ]>
                (<[ js "e4" := doc (js "e4") tokyo alice
                                 (js "2024-01-04T09:15:00.000Z") (JArr []) ]>
                 ∅))) |};
     log := [] |}.

(** Alice's store with one expense of the Tokyo trip whose [id] field
    names another document, an expense of hers in Kyoto. *)
Definition mislabelled_world : World :=
  {| db := {| trips := {[ tokyo := [("name", JStr (js "Tokyo"));
                                    ("userId", JStr alice)] ]};
              expenses :=
                <[ js "k7" := doc (js "e3") tokyo alice
                                (js "2024-01-02T03:30:00.000Z") (JArr []) ]>
                (<[ js "e3" := doc (js "e3") (js "T2") alice
                                 (js "2024-01-03T10:00:00.000Z") (JArr []) ]>
                 ∅) |};
     log := [] |}.

(** Alice's trips and expenses only. *)
Definition alice_world : World :=
  {| db := {| trips :=
                <[ tokyo := [("name", JStr (js "Tokyo"));
                             ("userId", JStr alice)] ]>
                (<[ js "T2" := [("name", JStr (js "Kyoto"));
                                ("userId", JStr alice)] ]> ∅);
              expenses :=
                <[ js "e1" := doc (js "e1") tokyo alice
                                (js "2024-01-02T03:30:00.000Z") (JArr []) ]>
                (<[ js "e3" := doc (js "e3") (js "T2") alice
                                 (js "2024-01-03T10:00:00.000Z") (JArr []) ]>
                 ∅) |};
     log := [] |}.

(** *** Gateway *)

Import Gemini.

Definition upper_ascii (s : jsstring) : jsstring :=
  List.map (fun c => if ((97 <=? c) && (c <=? 122))%N then (c - 32)%N else c)
           s.

(** [parseFloat] on the texts used below. *)
Definition parse_sample (s : jsstring) : float :=
  if bool_decide (s = js "32.5") then 32.5%float
  else if bool_decide (s = js "0") then 0%float
  else nan.

Definition accepts_writes : Gemini.Storage -> Write -> bool :=
  fun _ _ => false.
Definition refuses_writes : Gemini.Storage -> Write -> bool :=
  fun _ _ => true.

Definition no_json : jsstring -> option JsVal :=
  fun _ => None.

Definition fresh_storage : Gemini.Storage :=
  {| rate_cache := None; api_usage := None; user_api_key := None |}.

Definition today : jsstring := js "2024-01-02".
Definition usd : jsstring := js "usd".

End Samples.

(** More sample data: caches, counters, keys and forms. *)

Module MoreSamples.
Import JsNumber JsString Types AddExpenseModal Js Samples.

(** *** Gateway *)

Import Gemini.

(** The rate of the dollar, cached on the sample day. *)
Definition cached_storage : Gemini.Storage :=
  {| rate_cache :=
       Some {[ js "USD" := {| entry_rate := Some 32.5%float;
                              entry_date := today |} ]};
     api_usage := None;
     user_api_key := None |}.

(** Two analyses counted on the sample day. *)
Definition spent_storage : Gemini.Storage :=
  {| rate_cache := None;
     api_usage := Some {| usage_date := today; usage_count := 2 |};
     user_api_key := Some (js "my-key") |}.

Definition tomorrow : jsstring := js "2024-01-03".

Definition receipt : jsstring := js "data:image/png;base64,AAAA".

(** [JSON.parse] on the one text used below, any other text being taken
    for malformed. *)
Definition parse_json_sample (s : jsstring) : option JsVal :=
  if bool_decide (s = js "{}") then Some (JObj []) else None.

Definition accepts_key : Gemini.Storage -> jsstring -> bool :=
  fun _ _ => false.
Definition removes_key : Gemini.Storage -> bool := fun _ => false.

(** *** Browser storage *)

Import LocalStore.

(** A browser that accepts the trips and refuses the expenses. *)
Definition no_room_for_expenses
  : LocalStore.Storage -> Key -> list JsObject -> option Thrown :=
  fun _ k _ => match k with
               | TRIPS_KEY => None
               | EXPENSES_KEY => Some QuotaError
               end.

(** A browser in which every write fails for another reason. *)
Definition broken
  : LocalStore.Storage -> Key -> list JsObject -> option Thrown :=
  fun _ _ _ => Some OtherError.

(** The Kyoto record, marked repaid. *)
Definition kyoto_repaid : Expense :=
  {| id := js "e2"; tripId := js "T2"; storeName := js "Temple";
     date := js "2024-01-03T10:00:00.000Z"; items := [];
     originalCurrency := js "JPY"; originalAmount := 1200;
     exchangeRate := 0.25; totalTWD := 300; paidByMe := true;
     splitCount := 1; myShareTWD := 300; debtAmountTWD := 0;
     isRepaid := true; receiptImage := None |}.

(** *** Firestore *)

Import Firestore.

(** A store that answers every call but the query for expenses. *)
Definition no_expense_query : Request -> option Error :=
  fun r => match r with
           | GetDocs EXPENSES_COLLECTION => Some RemoteError
           | _ => None
           end.

Definition kyoto_trip : JsObject :=
  [("id", JStr (js "T2")); ("name", JStr (js "Kyoto"));
   ("startDate", JStr (js "2024-02-01")); ("budgetTWD", JUndefined)].

(** A trip no record names yet. *)
Definition osaka_trip : JsObject :=
  [("id", JStr (js "T3")); ("name", JStr (js "Osaka"));
   ("startDate", JStr (js "2024-03-01")); ("budgetTWD", JUndefined)].

Definition accepts_update : jsstring -> JsObject -> option Error :=
  fun _ _ => None.

(** A change of the store name of the first expense of Alice. *)
Definition renamed : JsObject :=
  [("id", JStr (js "e1")); ("storeName", JStr (js "Lawson"));
   ("receiptImage", JUndefined)].

(** *** The form *)

(** The first sixteen code units of an ISO date: the local date and time
    of the sample dates, which are in the zone of the samples. *)
Definition local_of_iso (s : jsstring) : option jsstring :=
  if is_empty s then None else Some (take 16 s).

Definition now_local : jsstring := js "2024-01-05T08:00".

(** No amount entered, at 0.22, shared by three. *)
Definition form_no_amount : Form :=
  {| f_storeName := [];
     f_amount := AmountBlank;
     f_currency := js "JPY";
     f_date := js "2024-01-02T12:30";
     f_itemsText := [];
     f_rate := rate_022;
     f_isSplit := true;
     f_totalPeople := 3;
     f_image := None |}.

(** The textarea after an analysis, with an empty translation and a line
    of bars. *)
Definition receipt_text : jsstring :=
  js "Onigiri || " ++ [39151; 22296]%N ++ [10%N] ++ js " || "
  ++ [10%N] ++ js "Tea".

End MoreSamples.
(** * Properties *)

(** ** Binary64 facts used by the split computation *)

Section FloatFacts.

Lemma div_eucl_exact q b : 0 < b -> Z.div_eucl (q * b) b = (q, 0).
Proof.
  intros Hb.
  pose proof (Z.div_mul q b ltac:(lia)) as Hd.
  pose proof (Z.mod_mul q b ltac:(lia)) as Hm.
  unfold Z.div, Z.modulo in *.
  destruct (Z.div_eucl (q * b) b) as [q' r']. simpl in *. congruence.
Qed.

(** The specification is written with the kernel's integer operations;
    [zfold] restates them with the library's, which [lia] knows. *)
Ltac zfold :=
  change IntDef.Z.max with Z.max in *; change IntDef.Z.min with Z.min in *;
  change IntDef.Z.add with Z.add in *; change IntDef.Z.sub with Z.sub in *;
  change IntDef.Z.leb with Z.leb in *;
  change IntDef.Z.div_eucl with Z.div_eucl in *;
  change IntDef.Z.shiftl with Z.shiftl in *.

(** Dividing a representable number by [1] rounds to the number itself:
    the quotient is computed with one or no extra bit and is exact. *)
Lemma SFdiv_one s m e :
  bounded prec emax m e = true ->
  SF64div (S754_finite s m e) (S754_finite false 4503599627370496 (-52))
  = S754_finite s m e.
Proof.
  unfold bounded, canonical_mantissa, fexp, SpecFloat.emin, prec, emax.
  intros H. apply andb_prop in H as [Hc He].
  apply Z.eqb_eq in Hc. apply Z.leb_le in He.
  unfold SF64div, SFdiv, SFdiv_core_binary, fexp, SpecFloat.emin, prec, emax.
  change (Zdigits2 (Z.pos 4503599627370496)) with 53.
  change (Zdigits2 (Z.pos m)) with (Z.pos (digits2_pos m)).
  zfold.
  set (d := Z.pos (digits2_pos m)) in *.
  assert (Hd : 0 < d) by (subst d; lia).
  rewrite xorb_false_r.
  destruct (Z.eq_dec
              (Z.min (Z.max (d + e - (53 + -52) - 53) (3 - 1024 - 53))
                     (e - -52)) e) as [E|E].
  - (* subnormal, or the least normal exponent: no extra bit *)
    rewrite E. replace (e - -52 - e) with 52 by lia.
    rewrite Z.shiftl_mul_pow2 by lia.
    rewrite div_eucl_exact by reflexivity.
    change (new_location 4503599627370496 0) with loc_Exact.
    unfold binary_round_aux, shr_fexp, fexp, SpecFloat.emin, prec, emax.
    change (Zdigits2 (Z.pos m)) with d. zfold.
    rewrite Hc. rewrite Z.sub_diag.
    cbn [shr shr_record_of_loc shr_m loc_of_shr_record round_nearest_even].
    change (Zdigits2 (Z.pos m)) with d. rewrite Hc, Z.sub_diag.
    cbn [shr shr_m].
    destruct (Z.leb_spec e (1024 - 53)); [reflexivity|lia].
  - (* normal: one extra bit, shifted out again *)
    assert (E' : Z.min (Z.max (d + e - (53 + -52) - 53) (3 - 1024 - 53))
                       (e - -52) = e - 1) by lia.
    rewrite E'. replace (e - -52 - (e - 1)) with 53 by lia.
    rewrite Z.shiftl_mul_pow2 by lia.
    replace (Z.pos m * 2 ^ 53) with (Z.pos (m~0) * 4503599627370496)
      by (change (2 ^ 53) with (2 * 4503599627370496); lia).
    rewrite div_eucl_exact by reflexivity.
    change (new_location 4503599627370496 0) with loc_Exact.
    unfold binary_round_aux, shr_fexp, fexp, SpecFloat.emin, prec, emax.
    change (Zdigits2 (Z.pos m~0)) with (Z.pos (Pos.succ (digits2_pos m))).
    rewrite Pos2Z.inj_succ. fold d. zfold.
    replace (Z.max (Z.succ d + (e - 1) - 53) (3 - 1024 - 53) - (e - 1))
      with 1 by lia.
    cbn [shr shr_record_of_loc shr_m loc_of_shr_record round_nearest_even
         SpecFloat.iter_pos shr_1 orb].
    change (Zdigits2 (Z.pos m)) with d. zfold.
    replace (e - 1 + 1) with e by lia.
    rewrite Hc, Z.sub_diag. cbn [shr shr_m].
    destruct (Z.leb_spec e (1024 - 53)); [reflexivity|lia].
Qed.

Lemma float_div_one (x : float) : (x / 1)%float = x.
Proof.
  apply Prim2SF_inj. rewrite div_spec.
  change (Prim2SF 1) with (S754_finite false 4503599627370496 (-52)).
  pose proof (Prim2SF_valid x) as Hv.
  destruct (Prim2SF x) as [s|s| |s m e]; simpl in *.
  - now rewrite xorb_false_r.
  - now rewrite xorb_false_r.
  - reflexivity.
  - apply SFdiv_one. exact Hv.
Qed.

Lemma float_sub_diag (x : float) :
  JsNumber.is_finite x = true -> (x - x)%float = 0%float.
Proof.
  unfold JsNumber.is_finite. intros Hf.
  apply Prim2SF_inj. rewrite sub_spec.
  change (Prim2SF 0) with (S754_zero false).
  destruct (Prim2SF x) as [s|s| |s m e]; try discriminate.
  - now destruct s.
  - unfold SF64sub, SFsub. zfold. rewrite Z.sub_diag. reflexivity.
Qed.

Lemma float_ltb_leb (x y : float) :
  PrimFloat.ltb x y = true -> PrimFloat.leb x y = true.
Proof.
  rewrite ltb_spec, leb_spec. unfold SFltb, SFleb.
  destruct (SFcompare (Prim2SF x) (Prim2SF y)) as [[]|]; congruence.
Qed.

Lemma Math_max_1_ge (x : float) :
  PrimFloat.is_nan x = false ->
  PrimFloat.leb 1 (JsNumber.Math_max_1 x) = true.
Proof.
  intros Hn. unfold JsNumber.Math_max_1. rewrite Hn.
  destruct (PrimFloat.ltb 1 x) eqn:E.
  - now apply float_ltb_leb.
  - reflexivity.
Qed.

End FloatFacts.


(** ** Rounding to nearest: the error of the binary64 operations

    The operations on numbers are specified by the integer algorithms of
    [SpecFloat]; this section derives from them that a normal result of a
    division, subtraction, addition or multiplication is within
    [2 ^ -53] of itself of the exact result. *)

(** The specification is written with the kernel's integer operations;
    [zlib] restates them with the library's, which [lia] knows. *)
Ltac zlib :=
  change IntDef.Z.max with Z.max in *; change IntDef.Z.min with Z.min in *;
  change IntDef.Z.add with Z.add in *; change IntDef.Z.sub with Z.sub in *;
  change IntDef.Z.mul with Z.mul in *;
  change IntDef.Z.leb with Z.leb in *; change IntDef.Z.eqb with Z.eqb in *;
  change IntDef.Z.compare with Z.compare in *;
  change IntDef.Z.even with Z.even in *;
  change IntDef.Z.opp with Z.opp in *;
  change IntDef.Z.div_eucl with Z.div_eucl in *;
  change IntDef.Z.shiftl with Z.shiftl in *.

Ltac compare_to_order H :=
  match type of H with
  | Z.compare _ _ = Eq => rewrite Z.compare_eq_iff in H
  | Z.compare _ _ = Lt => rewrite Z.compare_lt_iff in H
  | Z.compare _ _ = Gt => rewrite Z.compare_gt_iff in H
  | _ => idtac
  end.

Section Rounding.
Import Binary64.

Lemma digits2_bounds p :
  2 ^ (Z.pos (digits2_pos p) - 1) <= Z.pos p < 2 ^ Z.pos (digits2_pos p).
Proof.
  induction p as [p IH|p IH|]; cbn [digits2_pos].
  - rewrite Pos2Z.inj_succ. change (Z.pos p~1) with (2 * Z.pos p + 1).
    replace (Z.succ (Z.pos (digits2_pos p)) - 1)
      with (Z.succ (Z.pos (digits2_pos p) - 1)) by lia.
    rewrite !Z.pow_succ_r by lia.
    revert IH. generalize (2 ^ (Z.pos (digits2_pos p) - 1)).
    generalize (2 ^ Z.pos (digits2_pos p)). lia.
  - rewrite Pos2Z.inj_succ. change (Z.pos p~0) with (2 * Z.pos p).
    replace (Z.succ (Z.pos (digits2_pos p)) - 1)
      with (Z.succ (Z.pos (digits2_pos p) - 1)) by lia.
    rewrite !Z.pow_succ_r by lia.
    revert IH. generalize (2 ^ (Z.pos (digits2_pos p) - 1)).
    generalize (2 ^ Z.pos (digits2_pos p)). lia.
  - cbn. lia.
Qed.

Lemma shr_1_located a b mrs :
  0 < b -> 0 <= shr_m mrs ->
  located a b (shr_m mrs) (loc_of_shr_record mrs) ->
  0 <= shr_m (shr_1 mrs)
  /\ located a (2 * b) (shr_m (shr_1 mrs)) (loc_of_shr_record (shr_1 mrs))
  /\ 2 * shr_m (shr_1 mrs) <= shr_m mrs.
Proof.
  intros Hb Hm. destruct mrs as [m r s]. cbn [shr_m] in *.
  destruct m as [|[p|p|]|]; [| | | |lia];
    destruct r, s; cbn -[Z.mul Z.compare]; unfold located;
    try change (Z.pos p~0) with (2 * Z.pos p) in *;
    try change (Z.pos p~1) with (2 * Z.pos p + 1) in *;
    intros H;
    repeat match type of H with
           | _ /\ _ => destruct H as [? H]
           end;
    compare_to_order H;
    (split; [lia|]); (split; [|lia]);
    try (split; [nia|]);
    rewrite ?Z.compare_eq_iff, ?Z.compare_lt_iff, ?Z.compare_gt_iff;
    nia.
Qed.

(** Iterating. *)
Lemma iter_pos_invariant {A} (f : A -> A) (Inv : Z -> A -> Prop) :
  (forall n x, 0 <= n -> Inv n x -> Inv (n + 1) (f x)) ->
  forall p n x,
    0 <= n -> Inv n x -> Inv (n + Z.pos p) (SpecFloat.iter_pos f p x).
Proof.
  intros Hstep. induction p as [p IH|p IH|]; intros n x Hn Hx; cbn.
  - replace (n + Z.pos p~1) with (n + 1 + Z.pos p + Z.pos p) by lia.
    apply IH; [lia|]. apply IH; [lia|]. now apply Hstep.
  - replace (n + Z.pos p~0) with (n + Z.pos p + Z.pos p) by lia.
    apply IH; [lia|]. now apply IH.
  - now apply Hstep.
Qed.

Lemma shr_located a b m l p :
  0 < b -> 0 <= m -> located a b m l ->
  let mrs := SpecFloat.iter_pos shr_1 p (shr_record_of_loc m l) in
  0 <= shr_m mrs
  /\ located a (2 ^ Z.pos p * b) (shr_m mrs) (loc_of_shr_record mrs)
  /\ shr_m mrs * 2 ^ Z.pos p <= m.
Proof.
  intros Hb Hm Hl.
  apply (iter_pos_invariant shr_1
           (fun n mrs =>
              0 <= shr_m mrs
              /\ located a (2 ^ n * b) (shr_m mrs) (loc_of_shr_record mrs)
              /\ shr_m mrs * 2 ^ n <= m) ) with (n := 0); [|lia|].
  - intros n x Hn (H0 & Hloc & Hle).
    assert (Hp : 0 < 2 ^ n * b)
      by (apply Z.mul_pos_pos; [apply Z.pow_pos_nonneg|]; lia).
    destruct (shr_1_located a (2 ^ n * b) x Hp H0 Hloc) as (H0' & Hloc' & Hle').
    split; [exact H0'|]. rewrite Z.pow_add_r, Z.pow_1_r by lia.
    split.
    + now replace (2 ^ n * 2 * b) with (2 * (2 ^ n * b)) by ring.
    + assert (0 < 2 ^ n) by (apply Z.pow_pos_nonneg; lia). nia.
  - assert (E1 : shr_m (shr_record_of_loc m l) = m)
      by (destruct l as [|[]]; reflexivity).
    assert (E2 : loc_of_shr_record (shr_record_of_loc m l) = l)
      by (destruct l as [|[]]; reflexivity).
    rewrite E1, E2, Z.pow_0_r, Z.mul_1_l, Z.mul_1_r.
    split; [exact Hm|]. split; [exact Hl|lia].
Qed.

Lemma round_nearest_even_bound a b m l :
  0 < b -> located a b m l ->
  let z := round_nearest_even m l in
  (z = m \/ z = m + 1) /\ 2 * Z.abs (z * b - a) <= b.
Proof.
  intros Hb. destruct l as [|[]]; cbn -[Z.mul Z.compare]; zlib.
  - intros ->. split; [now left|]. lia.
  - intros [H Hc]. compare_to_order Hc.
    destruct (Z.even m); (split; [auto|]); lia.
  - intros [H Hc]. compare_to_order Hc. split; [now left|]. lia.
  - intros [H Hc]. compare_to_order Hc. split; [now right|]. lia.
Qed.

Lemma fexp_eq x : fexp prec emax x = Z.max (x - 53) (-1074).
Proof. reflexivity. Qed.

Lemma Zdigits2_le z : 0 < z < 2 ^ 53 -> Zdigits2 z <= 53.
Proof.
  destruct z as [|p|]; try lia. intros [_ H]. cbn [Zdigits2].
  pose proof (digits2_bounds p) as [Hl _].
  assert (Hlt : 2 ^ (Z.pos (digits2_pos p) - 1) < 2 ^ 53) by lia.
  apply Z.pow_lt_mono_r_iff in Hlt; lia.
Qed.

(** The first shift of [binary_round_aux]: the mantissa comes down to at
    most 53 bits, and the location follows. *)
Lemma shr_fexp_located a b m e l mrs e' :
  0 < b -> 0 <= m -> located a b m l ->
  shr_fexp prec emax m e l = (mrs, e') ->
  exists k,
    0 <= k /\ e' = e + k /\ -1074 <= e'
    /\ 0 <= shr_m mrs < 2 ^ 53
    /\ located a (2 ^ k * b) (shr_m mrs) (loc_of_shr_record mrs).
Proof.
  intros Hb Hm Hl. unfold shr_fexp. rewrite fexp_eq. zlib.
  assert (Hd : 0 <= Zdigits2 m /\ m < 2 ^ Zdigits2 m).
  { destruct m as [|p|]; [cbn; lia| |lia]. cbn [Zdigits2].
    split; [lia|apply digits2_bounds]. }
  destruct Hd as [Hd0 Hd].
  set (d := Zdigits2 m) in *.
  assert (E1 : shr_m (shr_record_of_loc m l) = m)
    by (destruct l as [|[]]; reflexivity).
  assert (E2 : loc_of_shr_record (shr_record_of_loc m l) = l)
    by (destruct l as [|[]]; reflexivity).
  destruct (Z.max (d + e - 53) (-1074) - e) as [|n|n] eqn:En; cbn [shr].
  - intros [= <- <-]. exists 0. rewrite E1, E2, Z.pow_0_r, Z.mul_1_l.
    split; [lia|]. split; [lia|]. split; [lia|]. split; [|exact Hl].
    split; [lia|]. apply Z.lt_le_trans with (1 := Hd).
    apply Z.pow_le_mono_r; lia.
  - zlib. intros [= <- <-].
    destruct (shr_located a b m l n Hb Hm Hl) as (H0 & Hloc & Hle).
    exists (Z.pos n). split; [lia|]. split; [lia|]. split; [lia|].
    split; [|exact Hloc]. split; [exact H0|].
    assert (Hp : 0 < 2 ^ Z.pos n) by (apply Z.pow_pos_nonneg; lia).
    assert (Hdn : 2 ^ d <= 2 ^ 53 * 2 ^ Z.pos n).
    { rewrite <- Z.pow_add_r by lia. apply Z.pow_le_mono_r; lia. }
    nia.
  - intros [= <- <-]. exists 0. rewrite E1, E2, Z.pow_0_r, Z.mul_1_l.
    split; [lia|]. split; [lia|]. split; [lia|]. split; [|exact Hl].
    split; [lia|]. apply Z.lt_le_trans with (1 := Hd).
    apply Z.pow_le_mono_r; lia.
Qed.

(** The second shift: a carry to [2 ^ 53] is brought back to 53 bits, and
    nothing else moves. *)
Lemma shr_fexp_carry z e mrs e' mz :
  0 <= z <= 2 ^ 53 -> -1074 <= e ->
  shr_fexp prec emax z e loc_Exact = (mrs, e') ->
  shr_m mrs = Z.pos mz ->
  exists j, 0 <= j /\ e' = e + j /\ Z.pos mz * 2 ^ j = z.
Proof.
  intros Hz He. unfold shr_fexp. rewrite fexp_eq.
  destruct (Z.eq_dec z (2 ^ 53)) as [->|Hne].
  - change (Zdigits2 (2 ^ 53)) with 54. zlib.
    replace (Z.max (54 + e - 53) (-1074) - e) with 1 by lia.
    cbn. zlib. intros [= <- <-] [= <-]. exists 1. split; [lia|].
    split; reflexivity.
  - destruct (Z.eq_dec z 0) as [->|Hz0].
    + cbn [Zdigits2]. zlib.
      destruct (Z.max (0 + e - 53) (-1074) - e) as [|n|n] eqn:En;
        try lia; cbn; intros [= <- <-]; discriminate.
    + pose proof (Zdigits2_le z ltac:(lia)) as Hd. zlib.
      destruct (Z.max (Zdigits2 z + e - 53) (-1074) - e) as [|n|n] eqn:En;
        try lia; cbn [shr shr_record_of_loc]; intros [= <- <-]; cbn;
        intros ->; exists 0; rewrite Z.pow_0_r; lia.
Qed.

(** [binary_round_aux] rounds to nearest: a finite result is within half a
    unit of its last place of the number located at [(m, l)]. *)
Lemma binary_round_aux_finite s m e l a b s' mz ez :
  0 < b -> 0 <= m -> located a b m l ->
  binary_round_aux prec emax s m e l = S754_finite s' mz ez ->
  s' = s
  /\ exists k,
       0 <= k /\ ez = e + k
       /\ 2 * Z.abs (Z.pos mz * (2 ^ k * b) - a) <= 2 ^ k * b.
Proof.
  intros Hb Hm Hl. unfold binary_round_aux.
  destruct (shr_fexp prec emax m e l) as [mrs1 e1] eqn:E1.
  destruct (shr_fexp_located a b m e l mrs1 e1 Hb Hm Hl E1)
    as (k1 & Hk1 & -> & Hmin & Hm1 & Hloc).
  assert (Hb1 : 0 < 2 ^ k1 * b)
    by (apply Z.mul_pos_pos; [apply Z.pow_pos_nonneg|]; lia).
  destruct (round_nearest_even_bound a (2 ^ k1 * b) _ _ Hb1 Hloc)
    as (Hz & Hbound).
  set (z := round_nearest_even _ _) in *.
  destruct (shr_fexp prec emax z (e + k1) loc_Exact) as [mrs2 e2] eqn:E2.
  destruct (shr_m mrs2) as [|m2|m2] eqn:Em2; try discriminate.
  destruct (shr_fexp_carry z (e + k1) mrs2 e2 m2 ltac:(lia) Hmin E2 Em2)
    as (j & Hj & -> & Hzj).
  destruct (Z.leb _ _); [|discriminate].
  intros [= <- <- <-]. split; [reflexivity|].
  exists (k1 + j). split; [lia|]. split; [lia|].
  rewrite Z.pow_add_r by lia.
  assert (Hpj : 0 < 2 ^ j) by (apply Z.pow_pos_nonneg; lia).
  replace (Z.pos m2 * (2 ^ k1 * 2 ^ j * b) - a)
    with (z * (2 ^ k1 * b) - a) by (rewrite <- Hzj; ring).
  nia.
Qed.

(** *** The operations *)

Lemma new_location_located nb q r :
  0 < nb -> 0 <= r < nb -> located (nb * q + r) nb q (new_location nb r).
Proof.
  intros Hnb Hr. unfold new_location.
  destruct (Z.even nb) eqn:Ev;
    [unfold new_location_even|unfold new_location_odd]; zlib;
    (destruct (Z.eqb_spec r 0) as [->|Hr0]; [cbn; lia|]); unfold located.
  - split; [nia|].
    destruct (Z.compare_spec (2 * r) nb) as [H|H|H];
      [rewrite Z.compare_eq_iff|rewrite Z.compare_lt_iff
      |rewrite Z.compare_gt_iff]; nia.
  - assert (Hodd : 2 * r <> nb).
    { intros E. rewrite <- E, Z.even_mul in Ev. discriminate. }
    split; [nia|].
    destruct (Z.compare_spec (2 * r + 1) nb) as [H|H|H];
      [rewrite Z.compare_lt_iff|rewrite Z.compare_lt_iff
      |rewrite Z.compare_gt_iff]; nia.
Qed.

Lemma SFdiv_core_located mx ex my ey q e' l :
  SFdiv_core_binary prec emax (Z.pos mx) ex (Z.pos my) ey = (q, e', l) ->
  exists c,
    0 <= c /\ e' + c = ex - ey /\ 0 <= q
    /\ located (Z.pos mx * 2 ^ c) (Z.pos my) q l.
Proof.
  unfold SFdiv_core_binary. rewrite fexp_eq. zlib.
  set (e0 := Z.min _ _).
  set (c := ex - ey - e0).
  assert (Hc : 0 <= c) by (subst c e0; lia).
  set (m' := match c with Z.pos _ => Z.shiftl (Z.pos mx) c | 0 => Z.pos mx
             | Z.neg _ => 0 end).
  assert (Em : m' = Z.pos mx * 2 ^ c).
  { subst m'. destruct c as [|p|p] eqn:Ec; [rewrite Z.pow_0_r; lia| |lia].
    apply Z.shiftl_mul_pow2. lia. }
  pose proof (Z_div_mod m' (Z.pos my) ltac:(lia)) as Hdiv.
  destruct (Z.div_eucl m' (Z.pos my)) as [q0 r0].
  destruct Hdiv as [Hq Hr]. intros [= <- <- <-].
  exists c. split; [exact Hc|]. split; [subst c; lia|].
  split; [nia|]. rewrite <- Em, Hq. apply new_location_located; lia.
Qed.

Lemma SFdiv_rounds sx mx ex sy my ey sz mz ez :
  SFdiv prec emax (S754_finite sx mx ex) (S754_finite sy my ey)
  = S754_finite sz mz ez ->
  sz = xorb sx sy /\ rounds mz ez (Z.pos mx) (Z.pos my) (ex - ey).
Proof.
  cbn [SFdiv].
  destruct (SFdiv_core_binary prec emax (Z.pos mx) ex (Z.pos my) ey)
    as [[q e'] l] eqn:Ecore.
  destruct (SFdiv_core_located _ _ _ _ _ _ _ Ecore) as (c & Hc & He & Hq & Hl).
  intros H.
  destruct (binary_round_aux_finite _ q e' l (Z.pos mx * 2 ^ c) (Z.pos my)
              sz mz ez ltac:(lia) Hq Hl H) as (-> & k & Hk & -> & Hb).
  split; [reflexivity|]. exists k, c. repeat split; try lia.
Qed.

Lemma iter_xO m d : Z.pos (Pos.iter xO m d) = Z.pos m * 2 ^ Z.pos d.
Proof.
  induction d as [|d IH] using Pos.peano_ind.
  - cbn. lia.
  - rewrite Pos.iter_succ, Pos2Z.inj_succ, Z.pow_succ_r by lia.
    change (Z.pos (Pos.iter xO m d)~0) with (2 * Z.pos (Pos.iter xO m d)).
    rewrite IH. ring.
Qed.

Lemma shl_align_value mx ex ex' :
  snd (shl_align mx ex ex') = Z.min ex ex'
  /\ Z.pos (fst (shl_align mx ex ex'))
     = Z.pos mx * 2 ^ (ex - Z.min ex ex').
Proof.
  unfold shl_align. zlib.
  destruct (ex' - ex) as [|d|d] eqn:Ed; cbn [fst snd].
  - replace (Z.min ex ex') with ex by lia. rewrite Z.sub_diag, Z.pow_0_r. lia.
  - replace (Z.min ex ex') with ex by lia. rewrite Z.sub_diag, Z.pow_0_r. lia.
  - replace (Z.min ex ex') with ex' by lia. split; [reflexivity|].
    rewrite iter_xO. f_equal. f_equal. lia.
Qed.

Lemma binary_round_rounds s m e s' mz ez :
  binary_round prec emax s m e = S754_finite s' mz ez ->
  s' = s /\ rounds mz ez (Z.pos m) 1 e.
Proof.
  unfold binary_round.
  pose proof (shl_align_value m e
                (fexp prec emax (Z.pos (digits2_pos m) + e))) as [He Hm].
  zlib.
  destruct (shl_align m e _) as [m' e']. cbn [fst snd] in He, Hm.
  intros H.
  destruct (binary_round_aux_finite s (Z.pos m') e' loc_Exact
              (Z.pos m') 1 s' mz ez ltac:(lia) ltac:(lia)
              ltac:(cbn; lia) H) as (-> & k & Hk & -> & Hb).
  split; [reflexivity|]. exists k, (e - e').
  split; [lia|]. split; [lia|]. split; [lia|].
  rewrite <- He in Hm. now rewrite <- Hm.
Qed.

Lemma binary_normalize_rounds M e sz0 s' mz ez :
  binary_normalize prec emax M e sz0 = S754_finite s' mz ez ->
  M = cond_Zopp s' (Z.abs M) /\ rounds mz ez (Z.abs M) 1 e.
Proof.
  destruct M as [|m|m]; cbn [binary_normalize]; [discriminate| |];
    intros H; apply binary_round_rounds in H as [-> H]; cbn; auto.
Qed.

Lemma SFmul_rounds sx mx ex sy my ey sz mz ez :
  SFmul prec emax (S754_finite sx mx ex) (S754_finite sy my ey)
  = S754_finite sz mz ez ->
  sz = xorb sx sy /\ rounds mz ez (Z.pos mx * Z.pos my) 1 (ex + ey).
Proof.
  cbn [SFmul]. zlib. intros H.
  destruct (binary_round_aux_finite _ (Z.pos (mx * my)) (ex + ey) loc_Exact
              (Z.pos (mx * my)) 1 sz mz ez ltac:(lia) ltac:(lia)
              ltac:(cbn; lia) H) as (-> & k & Hk & -> & Hb).
  split; [reflexivity|]. exists k, 0. rewrite Z.pow_0_r.
  split; [lia|]. split; [lia|]. split; [lia|].
  now replace (Z.pos mx * Z.pos my * 1) with (Z.pos (mx * my)) by lia.
Qed.

End Rounding.

Section RoundingQ.
Import Binary64.
Local Open Scope Q_scope.

Lemma pow2_pos e : 0 < 2 ^ e.
Proof. apply Qpower_0_lt. reflexivity. Qed.

Lemma pow2_split e k : (0 <= k)%Z -> 2 ^ (e + k) == 2 ^ e * inject_Z (2 ^ k).
Proof.
  intros Hk. rewrite Qpower_plus by discriminate.
  now rewrite (Zpower_Qpower 2 k Hk).
Qed.

Lemma rounds_Q mz ez A B E :
  (0 < B)%Z -> rounds mz ez A B E ->
  Qabs (inject_Z (Z.pos mz) * 2 ^ ez * inject_Z B - inject_Z A * 2 ^ E)
  <= (1 # 2) * 2 ^ ez * inject_Z B.
Proof.
  intros HB (k & c & Hk & Hc & He & Hb).
  replace ez with (E - c + k)%Z by lia.
  replace E with (E - c + c)%Z at 2 by lia.
  rewrite !pow2_split by assumption.
  pose proof (pow2_pos (E - c)) as HP. set (P := 2 ^ (E - c)) in *.
  assert (Eq1 : inject_Z (Z.pos mz) * (P * inject_Z (2 ^ k)) * inject_Z B
                - inject_Z A * (P * inject_Z (2 ^ c))
                == P * inject_Z (Z.pos mz * (2 ^ k * B) - A * 2 ^ c)).
  { unfold Zminus. rewrite inject_Z_plus, inject_Z_opp, !inject_Z_mult. ring. }
  rewrite Eq1, Qabs_Qmult, (Qabs_pos P) by lra.
  change (Qabs (inject_Z ?z)) with (inject_Z (Z.abs z)).
  assert (Hb' : 2 * inject_Z (Z.abs (Z.pos mz * (2 ^ k * B) - A * 2 ^ c))
                <= inject_Z (2 ^ k) * inject_Z B).
  { rewrite <- inject_Z_mult. change 2 with (inject_Z 2).
    rewrite <- inject_Z_mult. rewrite <- Zle_Qle. exact Hb. }
  set (I := inject_Z (Z.abs _)) in *.
  set (K := inject_Z (2 ^ k)) in *. set (B' := inject_Z B) in *.
  assert (Eq2 : (1 # 2) * (P * K) * B' == P * ((1 # 2) * (K * B')))
    by ring.
  rewrite Eq2.
  apply Qmult_le_l; [exact HP|].
  set (KB := K * B') in *. lra.
Qed.

(** Half a unit in the last place of a normal number is at most
    [2 ^ -53] of the number. *)
Lemma normal_half_ulp m e :
  Z.pos (digits2_pos m) = 53%Z ->
  (1 # 2) * 2 ^ e <= half_epsilon * (inject_Z (Z.pos m) * 2 ^ e).
Proof.
  intros Hd. pose proof (digits2_bounds m) as [Hm _]. rewrite Hd in Hm.
  change (2 ^ (53 - 1))%Z with 4503599627370496%Z in Hm.
  rewrite Zle_Qle in Hm.
  pose proof (pow2_pos e) as HP. set (P := 2 ^ e) in *.
  set (M := inject_Z (Z.pos m)) in *.
  assert (E1 : (1 # 2) * P == P * (1 # 2)) by ring.
  assert (E2 : half_epsilon * (M * P) == P * (half_epsilon * M)) by ring.
  rewrite E1, E2. apply Qmult_le_l; [exact HP|].
  unfold half_epsilon.
  change (inject_Z 4503599627370496) with (4503599627370496 # 1) in Hm.
  lra.
Qed.

Lemma inject_cond_Zopp s m :
  inject_Z (cond_Zopp s m) == (if s then - inject_Z m else inject_Z m).
Proof.
  destruct s; cbn [cond_Zopp]; [rewrite inject_Z_opp|]; reflexivity.
Qed.

Lemma SF2Q_abs s m e :
  Qabs (SF2Q (S754_finite s m e)) == inject_Z (Z.pos m) * 2 ^ e.
Proof.
  cbn [SF2Q]. rewrite Qabs_Qmult, (Qabs_pos (2 ^ e))
    by (apply Qlt_le_weak, pow2_pos).
  destruct s; reflexivity.
Qed.

(** The error of a normal result relative to the result. *)
Lemma rounds_normal s mz ez A B E :
  (0 < B)%Z -> rounds mz ez A B E ->
  SFnormal (S754_finite s mz ez) = true ->
  Qabs (inject_Z (Z.pos mz) * 2 ^ ez * inject_Z B - inject_Z A * 2 ^ E)
  <= half_epsilon * (inject_Z (Z.pos mz) * 2 ^ ez) * inject_Z B.
Proof.
  intros HB Hr Hn. cbn [SFnormal] in Hn. apply Z.eqb_eq in Hn.
  eapply Qle_trans; [now apply rounds_Q|].
  apply Qmult_le_compat_r; [now apply normal_half_ulp|].
  change 0 with (inject_Z 0). rewrite <- Zle_Qle. lia.
Qed.

Lemma SF2Q_finite s m e :
  SF2Q (S754_finite s m e)
  == (if s then - (inject_Z (Z.pos m) * 2 ^ e)
      else inject_Z (Z.pos m) * 2 ^ e).
Proof. cbn [SF2Q]. rewrite inject_cond_Zopp. destruct s; ring. Qed.

(** A result of sign [s] that rounds the magnitude [A]. *)
Lemma signed_error (s : bool) mz ez (A X : Q) :
  Qabs (inject_Z (Z.pos mz) * 2 ^ ez * inject_Z 1 - A)
  <= half_epsilon * (inject_Z (Z.pos mz) * 2 ^ ez) * inject_Z 1 ->
  X == (if s then - A else A) ->
  Qabs (SF2Q (S754_finite s mz ez) - X)
  <= half_epsilon * Qabs (SF2Q (S754_finite s mz ez)).
Proof.
  intros H EX. rewrite SF2Q_abs, EX, SF2Q_finite.
  set (V := inject_Z (Z.pos mz) * 2 ^ ez) in *.
  assert (E1 : V * inject_Z 1 - A == V - A)
    by (change (inject_Z 1) with 1; ring).
  assert (E2 : half_epsilon * V * inject_Z 1 == half_epsilon * V)
    by (change (inject_Z 1) with 1; ring).
  rewrite E1, E2 in H.
  destruct s; [|exact H].
  assert (E3 : - V - - A == - (V - A)) by ring.
  now rewrite E3, Qabs_opp.
Qed.

Lemma align_Q s m e e0 :
  (e0 <= e)%Z ->
  inject_Z (cond_Zopp s (Z.pos m * 2 ^ (e - e0))) * 2 ^ e0
  == SF2Q (S754_finite s m e).
Proof.
  intros He. cbn [SF2Q].
  replace e with (e0 + (e - e0))%Z at 2 by lia.
  rewrite pow2_split by lia. rewrite !inject_cond_Zopp, inject_Z_mult.
  destruct s; ring.
Qed.

Lemma cond_Zopp_abs (s : bool) M :
  M = cond_Zopp s (Z.abs M) ->
  inject_Z M == (if s then - inject_Z (Z.abs M) else inject_Z (Z.abs M)).
Proof. intros E. rewrite E at 1. apply inject_cond_Zopp. Qed.

Lemma SFsub_error x y :
  SFnormal (SFsub prec emax x y) = true ->
  Qabs (SF2Q (SFsub prec emax x y) - (SF2Q x - SF2Q y))
  <= half_epsilon * Qabs (SF2Q (SFsub prec emax x y)).
Proof.
  destruct x as [sx|sx| |sx mx ex], y as [sy|sy| |sy my ey];
    cbn [SFsub]; try discriminate;
    try (destruct sx, sy; discriminate); try (destruct sx; discriminate).
  - (* 0 - y *)
    intros _.
    assert (E : SF2Q (S754_finite (negb sy) my ey)
                - (SF2Q (S754_zero sx) - SF2Q (S754_finite sy my ey)) == 0).
    { rewrite !SF2Q_finite. cbn [SF2Q]. destruct sy; cbn [negb]; ring. }
    rewrite E. cbn [Qabs Z.abs Qnum Qden].
    apply Qmult_le_0_compat; [discriminate|apply Qabs_nonneg].
  - (* x - 0 *)
    intros _.
    assert (E : SF2Q (S754_finite sx mx ex)
                - (SF2Q (S754_finite sx mx ex) - SF2Q (S754_zero sy)) == 0)
      by (cbn [SF2Q]; ring).
    rewrite E. apply Qmult_le_0_compat; [discriminate|apply Qabs_nonneg].
  - zlib. set (e0 := Z.min ex ey).
    pose proof (shl_align_value mx ex e0) as [_ Hx].
    pose proof (shl_align_value my ey e0) as [_ Hy].
    replace (Z.min ex e0) with e0 in Hx by (subst e0; lia).
    replace (Z.min ey e0) with e0 in Hy by (subst e0; lia).
    rewrite Hx, Hy.
    set (M := (cond_Zopp sx (Z.pos mx * 2 ^ (ex - e0))
               - cond_Zopp sy (Z.pos my * 2 ^ (ey - e0)))%Z).
    destruct (binary_normalize prec emax M e0 false)
      as [| | |sz mz ez] eqn:Ez; try discriminate.
    intros Hn.
    destruct (binary_normalize_rounds _ _ _ _ _ _ Ez) as [Hs Hr].
    apply (signed_error sz mz ez (inject_Z (Z.abs M) * 2 ^ e0)).
    + now apply (rounds_normal sz).
    + rewrite <- (align_Q sx mx ex e0), <- (align_Q sy my ey e0)
        by (subst e0; lia).
      assert (E : inject_Z (cond_Zopp sx (Z.pos mx * 2 ^ (ex - e0))) * 2 ^ e0
                  - inject_Z (cond_Zopp sy (Z.pos my * 2 ^ (ey - e0)))
                    * 2 ^ e0
                  == inject_Z M * 2 ^ e0).
      { subst M. unfold Zminus. rewrite inject_Z_plus, inject_Z_opp. ring. }
      rewrite E, (cond_Zopp_abs sz M Hs). destruct sz; ring.
Qed.

Lemma SFadd_error x y :
  SFnormal (SFadd prec emax x y) = true ->
  Qabs (SF2Q (SFadd prec emax x y) - (SF2Q x + SF2Q y))
  <= half_epsilon * Qabs (SF2Q (SFadd prec emax x y)).
Proof.
  destruct x as [sx|sx| |sx mx ex], y as [sy|sy| |sy my ey];
    cbn [SFadd]; try discriminate;
    try (destruct sx, sy; discriminate); try (destruct sx; discriminate).
  - intros _.
    assert (E : SF2Q (S754_finite sy my ey)
                - (SF2Q (S754_zero sx) + SF2Q (S754_finite sy my ey)) == 0)
      by (cbn [SF2Q]; ring).
    rewrite E. apply Qmult_le_0_compat; [discriminate|apply Qabs_nonneg].
  - intros _.
    assert (E : SF2Q (S754_finite sx mx ex)
                - (SF2Q (S754_finite sx mx ex) + SF2Q (S754_zero sy)) == 0)
      by (cbn [SF2Q]; ring).
    rewrite E. apply Qmult_le_0_compat; [discriminate|apply Qabs_nonneg].
  - zlib. set (e0 := Z.min ex ey).
    pose proof (shl_align_value mx ex e0) as [_ Hx].
    pose proof (shl_align_value my ey e0) as [_ Hy].
    replace (Z.min ex e0) with e0 in Hx by (subst e0; lia).
    replace (Z.min ey e0) with e0 in Hy by (subst e0; lia).
    rewrite Hx, Hy.
    set (M := (cond_Zopp sx (Z.pos mx * 2 ^ (ex - e0))
               + cond_Zopp sy (Z.pos my * 2 ^ (ey - e0)))%Z).
    destruct (binary_normalize prec emax M e0 false)
      as [| | |sz mz ez] eqn:Ez; try discriminate.
    intros Hn.
    destruct (binary_normalize_rounds _ _ _ _ _ _ Ez) as [Hs Hr].
    apply (signed_error sz mz ez (inject_Z (Z.abs M) * 2 ^ e0)).
    + now apply (rounds_normal sz).
    + rewrite <- (align_Q sx mx ex e0), <- (align_Q sy my ey e0)
        by (subst e0; lia).
      assert (E : inject_Z (cond_Zopp sx (Z.pos mx * 2 ^ (ex - e0))) * 2 ^ e0
                  + inject_Z (cond_Zopp sy (Z.pos my * 2 ^ (ey - e0)))
                    * 2 ^ e0
                  == inject_Z M * 2 ^ e0).
      { subst M. rewrite inject_Z_plus. ring. }
      rewrite E, (cond_Zopp_abs sz M Hs). destruct sz; ring.
Qed.

Lemma SFmul_error x y :
  SFnormal (SFmul prec emax x y) = true ->
  Qabs (SF2Q (SFmul prec emax x y) - SF2Q x * SF2Q y)
  <= half_epsilon * Qabs (SF2Q (SFmul prec emax x y)).
Proof.
  destruct x as [sx|sx| |sx mx ex], y as [sy|sy| |sy my ey];
    cbn [SFmul]; try discriminate.
  destruct (SFmul prec emax (S754_finite sx mx ex) (S754_finite sy my ey))
    as [| | |sz mz ez] eqn:Ez; cbn [SFmul] in Ez; rewrite Ez;
    try discriminate.
  intros Hn. destruct (SFmul_rounds _ _ _ _ _ _ _ _ _ Ez) as [-> Hr].
  pose proof (rounds_normal (xorb sx sy) mz ez (Z.pos mx * Z.pos my) 1
                (ex + ey) ltac:(lia) Hr Hn) as H.
  rewrite Qpower_plus, inject_Z_mult in H by discriminate.
  apply (signed_error _ mz ez _ _ H).
  rewrite !SF2Q_finite. destruct sx, sy; cbn [xorb]; ring.
Qed.

Lemma SFdiv_error x y :
  SFnormal (SFdiv prec emax x y) = true ->
  Qabs (SF2Q (SFdiv prec emax x y) * SF2Q y - SF2Q x)
  <= half_epsilon * Qabs (SF2Q (SFdiv prec emax x y) * SF2Q y).
Proof.
  destruct x as [sx|sx| |sx mx ex], y as [sy|sy| |sy my ey];
    try discriminate.
  destruct (SFdiv prec emax (S754_finite sx mx ex) (S754_finite sy my ey))
    as [| | |sz mz ez] eqn:Ez; try discriminate.
  intros Hn. destruct (SFdiv_rounds _ _ _ _ _ _ _ _ _ Ez) as [-> Hr].
  pose proof (rounds_normal (xorb sx sy) mz ez (Z.pos mx) (Z.pos my)
                (ex - ey) ltac:(lia) Hr Hn) as H.
  pose proof (pow2_pos ey) as HP.
  assert (EP : 2 ^ ex == 2 ^ (ex - ey) * 2 ^ ey).
  { rewrite <- Qpower_plus by discriminate.
    now replace (ex - ey + ey)%Z with ex by lia. }
  rewrite Qabs_Qmult, !SF2Q_abs.
  assert (E1 : SF2Q (S754_finite (xorb sx sy) mz ez)
               * SF2Q (S754_finite sy my ey)
               - SF2Q (S754_finite sx mx ex)
               == (if sx then -1 else 1)
                  * (2 ^ ey
                     * (inject_Z (Z.pos mz) * 2 ^ ez * inject_Z (Z.pos my)
                        - inject_Z (Z.pos mx) * 2 ^ (ex - ey)))).
  { rewrite !SF2Q_finite. destruct sx, sy; cbn [xorb]; rewrite EP; ring. }
  rewrite E1, Qabs_Qmult, Qabs_Qmult, (Qabs_pos (2 ^ ey)) by lra.
  assert (E2 : Qabs (if sx then -1 else 1) == 1) by (now destruct sx).
  rewrite E2, Qmult_1_l.
  assert (E3 : half_epsilon * (inject_Z (Z.pos mz) * 2 ^ ez
                    * (inject_Z (Z.pos my) * 2 ^ ey))
               == 2 ^ ey
                  * (half_epsilon * (inject_Z (Z.pos mz) * 2 ^ ez)
                     * inject_Z (Z.pos my))) by ring.
  rewrite E3. now apply Qmult_le_l.
Qed.

End RoundingQ.

(** *** The operations on numbers *)

Section NumberErrors.
Import Binary64 JsNumber.
Local Open Scope Q_scope.

Lemma is_normal_SF x : is_normal x = SFnormal (Prim2SF x).
Proof.
  unfold is_normal. rewrite classify_spec.
  unfold SF64classify, SFclassify, SFnormal, prec.
  destruct (Prim2SF x) as [[]|[]| |[] m e]; try reflexivity;
    zlib; now destruct (Z.pos (digits2_pos m) =? 53)%Z.
Qed.

Lemma div_error x y :
  is_normal (x / y) = true ->
  Qabs (value (x / y) * value y - value x)
  <= half_epsilon * Qabs (value (x / y) * value y).
Proof.
  rewrite is_normal_SF. unfold value. rewrite div_spec. apply SFdiv_error.
Qed.

Lemma sub_error x y :
  is_normal (x - y) = true ->
  Qabs (value (x - y) - (value x - value y))
  <= half_epsilon * Qabs (value (x - y)).
Proof.
  rewrite is_normal_SF. unfold value. rewrite sub_spec. apply SFsub_error.
Qed.

Lemma add_error x y :
  is_normal (x + y) = true ->
  Qabs (value (x + y) - (value x + value y))
  <= half_epsilon * Qabs (value (x + y)).
Proof.
  rewrite is_normal_SF. unfold value. rewrite add_spec. apply SFadd_error.
Qed.

Lemma mul_error x y :
  is_normal (x * y) = true ->
  Qabs (value (x * y) - value x * value y)
  <= half_epsilon * Qabs (value (x * y)).
Proof.
  rewrite is_normal_SF. unfold value. rewrite mul_spec. apply SFmul_error.
Qed.

(** A normal quotient has finite operands. *)
Lemma div_normal_finite x y :
  is_normal (x / y) = true ->
  is_finite x = true /\ is_finite y = true.
Proof.
  rewrite is_normal_SF, div_spec. unfold is_finite.
  destruct (Prim2SF x) as [sx|sx| |sx mx ex],
           (Prim2SF y) as [sy|sy| |sy my ey]; cbn; auto; discriminate.
Qed.

(** A normal number is finite. *)
Lemma normal_finite x : is_normal x = true -> is_finite x = true.
Proof.
  rewrite is_normal_SF. unfold is_finite.
  now destruct (Prim2SF x).
Qed.

Lemma value_one : value 1 == 1.
Proof. reflexivity. Qed.

Lemma value_zero : value 0 == 0.
Proof. reflexivity. Qed.

(** A finite number above [1] denotes a rational above [1]. *)
Lemma ltb_1_value x :
  PrimFloat.ltb 1 x = true -> is_finite x = true -> 1 <= value x.
Proof.
  rewrite ltb_spec. unfold is_finite, value.
  pose proof (Prim2SF_valid x) as Hv.
  change (Prim2SF 1) with (S754_finite false 4503599627370496 (-52)).
  destruct (Prim2SF x) as [sx|sx| |sx m e]; try discriminate.
  unfold SFltb, SFcompare. destruct sx; [discriminate|]. zlib.
  intros Hlt _. cbn [SF2Q cond_Zopp].
  assert (Hme : (-52 <= e)%Z /\ (4503599627370496 <= Z.pos m)%Z).
  { cbn [valid_binary] in Hv. unfold bounded, canonical_mantissa in Hv.
    apply andb_prop in Hv as [Hc _]. rewrite fexp_eq in Hc. zlib.
    apply Z.eqb_eq in Hc.
    pose proof (digits2_bounds m) as [Hd _].
    destruct (Z.compare_spec (-52) e) as [<-|He|He]; try discriminate.
    - split; [lia|].
      destruct (Pos.compare_cont Eq 4503599627370496 m) eqn:Ec;
        try discriminate.
      change ((4503599627370496 ?= m)%positive = Lt) in Ec.
      rewrite Pos.compare_lt_iff in Ec. lia.
    - split; [lia|].
      replace (Z.pos (digits2_pos m)) with 53%Z in Hd by lia.
      exact Hd. }
  destruct Hme as [He Hm].
  replace e with (-52 + (e + 52))%Z by lia.
  rewrite pow2_split by lia.
  assert (Hp : (1 <= 2 ^ (e + 52))%Z)
    by (apply (Z.pow_le_mono_r 2 0); lia).
  assert (H : (4503599627370496 <= Z.pos m * 2 ^ (e + 52))%Z) by nia.
  rewrite Zle_Qle, inject_Z_mult in H.
  assert (E : inject_Z (Z.pos m) * (2 ^ (-52) * inject_Z (2 ^ (e + 52)))
              == (1 # 4503599627370496)
                 * (inject_Z (Z.pos m) * inject_Z (2 ^ (e + 52)))).
  { change (2 ^ (-52)) with (1 # 4503599627370496). ring. }
  rewrite E.
  set (W := inject_Z (Z.pos m) * inject_Z (2 ^ (e + 52))) in *.
  change (inject_Z 4503599627370496) with (4503599627370496 # 1) in H.
  lra.
Qed.

Lemma Math_max_1_value x :
  is_finite (Math_max_1 x) = true -> 1 <= value (Math_max_1 x).
Proof.
  unfold Math_max_1. destruct (PrimFloat.is_nan x); [discriminate|].
  destruct (PrimFloat.ltb 1 x) eqn:E.
  - now apply ltb_1_value.
  - intros _. now rewrite value_one.
Qed.

(** *** Putting errors together *)

Lemma Qabs_cases X : (X < 0 /\ Qabs X == - X) \/ (0 <= X /\ Qabs X == X).
Proof.
  destruct (Qlt_le_dec X 0) as [H|H]; [left|right]; split; try assumption.
  - apply Qabs_neg. now apply Qlt_le_weak.
  - now apply Qabs_pos.
Qed.

Ltac qabs X :=
  let H := fresh "H" in
  let E := fresh "E" in
  destruct (Qabs_cases X) as [[H E]|[H E]];
  rewrite ?E in *; clear E.

(** A quantity within [2 ^ -53] of itself of a target is within
    [2 ^ -52] of the target. *)
Lemma error_to_target P T :
  Qabs (P - T) <= half_epsilon * Qabs P ->
  Qabs (P - T) <= EPSILON * Qabs T /\ Qabs P <= (1 + EPSILON) * Qabs T.
Proof.
  unfold half_epsilon, EPSILON.
  destruct (Qabs_cases (P - T)) as [[H1 ->]|[H1 ->]];
    destruct (Qabs_cases P) as [[H2 ->]|[H2 ->]];
    destruct (Qabs_cases T) as [[H3 ->]|[H3 ->]];
    intros H; split; lra.
Qed.

Lemma scale_by_count S N :
  1 <= N -> (0 <= S -> 0 <= S <= S * N) /\ (S <= 0 -> S * N <= S <= 0).
Proof.
  intros HN. split; intros HS; (split; [|try assumption]); try assumption;
    nra.
Qed.

(** A number computed within [2 ^ -53] of itself of a quantity that is
    within [2 ^ -52] of a target is within [2 ^ -51] of the target. *)
Lemma computed_to_target Vf V T :
  Qabs (Vf - V) <= half_epsilon * Qabs Vf ->
  Qabs (V - T) <= EPSILON * Qabs T ->
  Qabs (Vf - T) <= 2 * EPSILON * Qabs T.
Proof.
  unfold half_epsilon, EPSILON.
  destruct (Qabs_cases (Vf - V)) as [[H1 ->]|[H1 ->]];
    destruct (Qabs_cases Vf) as [[H2 ->]|[H2 ->]];
    destruct (Qabs_cases (V - T)) as [[H3 ->]|[H3 ->]];
    destruct (Qabs_cases T) as [[H4 ->]|[H4 ->]];
    destruct (Qabs_cases (Vf - T)) as [[H5 ->]|[H5 ->]];
    intros Ha Hb; lra.
Qed.

(** The share [S] of a total [T] among [N >= 1], and the rest [D]: when
    [S * N] is within [2 ^ -53] of itself of [T] and [D] within
    [2 ^ -53] of itself of [T - S], the two add up to [T] within
    [2 ^ -52] of [T]. *)
Lemma share_and_rest S N T D :
  1 <= N ->
  Qabs (S * N - T) <= half_epsilon * Qabs (S * N) ->
  Qabs (D - (T - S)) <= half_epsilon * Qabs D ->
  Qabs (S + D - T) <= EPSILON * Qabs T.
Proof.
  intros HN. destruct (scale_by_count S N HN) as [Hpos Hneg].
  set (P := S * N) in *. clearbody P.
  unfold half_epsilon, EPSILON.
  destruct (Qabs_cases (P - T)) as [[H1 ->]|[H1 ->]];
    destruct (Qabs_cases P) as [[H2 ->]|[H2 ->]];
    destruct (Qabs_cases (D - (T - S))) as [[H3 ->]|[H3 ->]];
    destruct (Qabs_cases D) as [[H4 ->]|[H4 ->]];
    destruct (Qabs_cases T) as [[H5 ->]|[H5 ->]];
    destruct (Qabs_cases (S + D - T)) as [[H6 ->]|[H6 ->]];
    intros Ha Hb;
    (destruct (Qlt_le_dec S 0) as [HS|HS];
     [apply Qlt_le_weak in HS; specialize (Hneg HS); clear Hpos
     |specialize (Hpos HS); clear Hneg]);
    lra.
Qed.

End NumberErrors.
(** ** The amounts [handleSave] stores *)

Section HandleSaveFacts.
Import Binary64 JsNumber JsString Types AddExpenseModal.

Variable prop_tripId : jsstring.
Variable initialData : option Expense.
Variable uuidv4 : jsstring.
Variable toISOString : jsstring -> option jsstring.

Local Abbreviation save := (handleSave prop_tripId initialData uuidv4 toISOString).

Lemma handleSave_fields f e :
  save f = Some e ->
  originalAmount e = or_zero (Number_of (f_amount f))
  /\ exchangeRate e = f_rate f
  /\ splitCount e
     = (if f_isSplit f then Math_max_1 (f_totalPeople f) else 1%float)
  /\ totalTWD e = (originalAmount e * exchangeRate e)%float
  /\ myShareTWD e = (totalTWD e / splitCount e)%float
  /\ debtAmountTWD e = (totalTWD e - myShareTWD e)%float.
Proof.
  unfold handleSave. destruct (toISOString (f_date f)); [|discriminate].
  intros [= <-]. cbn. repeat split; reflexivity.
Qed.



(** C2, as the code has it.  A split count of [1] leaves the whole total
    with the payer, [myShareTWD = totalTWD], and when the total is finite
    nothing is owed, [debtAmountTWD = 0].  For every split count, when the
    share is a normal number (no overflow, no underflow), the share times
    the split count is the total within [Number.EPSILON] of the total, as
    real numbers, and within twice that when the product is computed in
    binary64 and is normal; when the debt is a normal number too, the
    share and the debt add up to the total within the same tolerances.
    Equality of the sum is not claimed. *)
Theorem handleSave_split_tolerance f e :
  handleSave prop_tripId initialData uuidv4 toISOString f = Some e ->
  (splitCount e = 1%float ->
   myShareTWD e = totalTWD e
   /\ (is_finite (totalTWD e) = true -> debtAmountTWD e = 0%float))
  /\ (is_normal (myShareTWD e) = true ->
      (Qabs (value (myShareTWD e) * value (splitCount e)
             - value (totalTWD e))
       <= EPSILON * Qabs (value (totalTWD e)))%Q
      /\ (is_normal (myShareTWD e * splitCount e) = true ->
          (Qabs (value (myShareTWD e * splitCount e) - value (totalTWD e))
           <= 2 * EPSILON * Qabs (value (totalTWD e)))%Q)
      /\ (is_normal (debtAmountTWD e) = true \/ splitCount e = 1%float ->
          (Qabs (value (myShareTWD e) + value (debtAmountTWD e)
                 - value (totalTWD e))
           <= EPSILON * Qabs (value (totalTWD e)))%Q
          /\ (is_normal (myShareTWD e + debtAmountTWD e) = true ->
              (Qabs (value (myShareTWD e + debtAmountTWD e)
                     - value (totalTWD e))
               <= 2 * EPSILON * Qabs (value (totalTWD e)))%Q))).
Proof.
  intros Hs.
  destruct (handleSave_fields f e Hs) as (_ & _ & Hn & _ & Hm & Hd).
  assert (Hone : splitCount e = 1%float ->
                 myShareTWD e = totalTWD e
                 /\ (is_finite (totalTWD e) = true ->
                     debtAmountTWD e = 0%float)).
  { intros H1. rewrite H1, float_div_one in Hm. split; [assumption|].
    intros Hfin. rewrite Hd, Hm. now apply float_sub_diag. }
  split; [exact Hone|].
  intros Hnormal.
  assert (Hdiv : (Qabs (value (myShareTWD e) * value (splitCount e)
                        - value (totalTWD e))
                  <= half_epsilon
                     * Qabs (value (myShareTWD e) * value (splitCount e)))%Q).
  { rewrite Hm in Hnormal |- *. now apply div_error. }
  destruct (error_to_target _ _ Hdiv) as [Hprod _].
  assert (Hcount : (1 <= value (splitCount e))%Q).
  { rewrite Hm in Hnormal.
    apply div_normal_finite in Hnormal as [_ Hfin]. rewrite Hn in Hfin |- *.
    destruct (f_isSplit f); [now apply Math_max_1_value|].
    now rewrite value_one. }
  split; [exact Hprod|]. split.
  { intros Hcomputed.
    apply (computed_to_target _ _ _ (mul_error _ _ Hcomputed) Hprod). }
  intros Hdebt.
  assert (Hsum : (Qabs (value (myShareTWD e) + value (debtAmountTWD e)
                        - value (totalTWD e))
                  <= EPSILON * Qabs (value (totalTWD e)))%Q).
  { destruct Hdebt as [Hdebt|H1].
    - apply (share_and_rest _ (value (splitCount e))); try assumption.
      rewrite Hd in Hdebt |- *. now apply sub_error.
    - destruct (Hone H1) as [Eshare Edebt].
      rewrite Eshare in Hnormal. rewrite Eshare.
      rewrite (Edebt (normal_finite _ Hnormal)), value_zero.
      assert (E : (value (totalTWD e) + 0 - value (totalTWD e) == 0)%Q)
        by ring.
      rewrite E. apply Qmult_le_0_compat; [discriminate|apply Qabs_nonneg]. }
  split; [exact Hsum|].
  intros Hcomputed.
  apply (computed_to_target _ (value (myShareTWD e)
                                 + value (debtAmountTWD e))%Q).
  - now apply add_error.
  - exact Hsum.
Qed.

End HandleSaveFacts.

Section HandleSaveExamples.
Import Binary64 JsNumber JsString Types AddExpenseModal Samples.


(** C2 as stated fails on binary64 numbers: one unit at rate 0.22 shared by
    five gives a share of 0.044 and a debt of 0.176, whose sum is
    0.21999999999999997 and not the total 0.22. *)
Lemma split_sum_not_exact :
  ~ (forall tripId init uuid iso f e,
        handleSave tripId init uuid iso f = Some e ->
        PrimFloat.leb 0 (originalAmount e) = true ->
        PrimFloat.ltb 0 (exchangeRate e) = true ->
        PrimFloat.leb 1 (splitCount e) = true ->
        (myShareTWD e + debtAmountTWD e)%float = totalTWD e).
Proof.
  intros H.
  specialize (H tokyo None fresh_id iso_of_local form_fifth _ eq_refl
                eq_refl eq_refl eq_refl).
  apply (f_equal (fun x => PrimFloat.eqb x rate_022)) in H.
  vm_compute in H. discriminate H.
Qed.

Lemma handleSave_split_tolerance_witness :
  (exists e,
      handleSave tokyo None fresh_id iso_of_local form_alone = Some e
      /\ myShareTWD e = 350%float
      /\ debtAmountTWD e = 0%float)
  /\ (exists e,
        handleSave tokyo None fresh_id iso_of_local form_fifth = Some e
        /\ (Qabs (value (myShareTWD e) * value (splitCount e)
                  - value (totalTWD e))
            <= EPSILON * Qabs (value (totalTWD e)))%Q
        /\ (Qabs (value (myShareTWD e) + value (debtAmountTWD e)
                  - value (totalTWD e))
            <= EPSILON * Qabs (value (totalTWD e)))%Q
        /\ (Qabs (value (myShareTWD e + debtAmountTWD e)
                  - value (totalTWD e))
            <= 2 * EPSILON * Qabs (value (totalTWD e)))%Q).
Proof.
  split.
  - eexists. split; [reflexivity|].
    destruct (handleSave_split_tolerance tokyo None fresh_id iso_of_local
                form_alone _ eq_refl) as [H1 _].
    destruct (H1 eq_refl) as [Hm Hd].
    split; [exact Hm | exact (Hd eq_refl)].
  - eexists. split; [reflexivity|].
    destruct (handleSave_split_tolerance tokyo None fresh_id iso_of_local
                form_fifth _ eq_refl) as [_ H].
    destruct (H eq_refl) as (Hprod & _ & Hsum).
    destruct (Hsum (or_introl eq_refl)) as [Hreal Hcomputed].
    split; [exact Hprod|]. split; [exact Hreal|exact (Hcomputed eq_refl)].
Defined.

(** The tolerance needs the normal range.  The least positive number
    shared by two gives a share of [0], which times two is not within
    [Number.EPSILON] of the total; an amount whose total overflows gives
    an infinite share and a debt that is not a number, also when the bill
    is not split. *)
Lemma split_outside_normal_range :
  (exists e,
      handleSave tokyo None fresh_id iso_of_local form_tiny = Some e
      /\ totalTWD e = 0x1p-1074%float
      /\ myShareTWD e = 0%float
      /\ ~ (Qabs (value (myShareTWD e) * value (splitCount e)
                  - value (totalTWD e))
            <= EPSILON * Qabs (value (totalTWD e)))%Q)
  /\ (exists e,
        handleSave tokyo None fresh_id iso_of_local form_huge = Some e
        /\ totalTWD e = infinity
        /\ myShareTWD e = infinity
        /\ PrimFloat.is_nan (debtAmountTWD e) = true)
  /\ (exists e,
        handleSave tokyo None fresh_id iso_of_local form_huge_alone = Some e
        /\ splitCount e = 1%float
        /\ totalTWD e = infinity
        /\ PrimFloat.is_nan (debtAmountTWD e) = true).
Proof.
  split; [|split]; eexists; (split; [reflexivity|]).
  - split; [reflexivity|]. split; [reflexivity|].
    intros H. apply Qle_bool_iff in H. vm_compute in H. discriminate H.
  - repeat split; reflexivity.
  - repeat split; reflexivity.
Qed.

End HandleSaveExamples.

(** ** Items text: formatting and parsing *)

Section ItemsText.
Import JsString Types AddExpenseModal.

Lemma includes_cons sep c s :
  includes sep (c :: s) = starts_with sep (c :: s) || includes sep s.
Proof. reflexivity. Qed.

Lemma includes_false_cons sep c s :
  includes sep (c :: s) = false ->
  starts_with sep (c :: s) = false /\ includes sep s = false.
Proof. rewrite includes_cons. apply orb_false_elim. Qed.

(** A text without the separator is a single piece. *)
Lemma split_go_no_sep sep cur s :
  includes sep s = false -> split_go sep 0 cur s = [rev cur ++ s].
Proof.
  revert cur. induction s as [|c s IH]; intros cur H.
  - cbn. now rewrite app_nil_r.
  - apply includes_false_cons in H as [H1 H2].
    cbn [split_go]. rewrite H1, (IH (c :: cur) H2).
    cbn [rev]. now rewrite <- app_assoc.
Qed.

Lemma includes_newline_app a b :
  includes newline (a ++ b) = includes newline a || includes newline b.
Proof.
  induction a as [|c a IH].
  - cbn [app includes starts_with newline]. destruct b; reflexivity.
  - cbn [app]. rewrite !includes_cons, IH.
    cbn [starts_with newline]. now rewrite orb_assoc.
Qed.

(** Up to the first line break. *)
Lemma split_go_line cur l rest :
  includes newline l = false ->
  split_go newline 0 cur (l ++ newline ++ rest)
  = (rev cur ++ l) :: split_go newline 0 [] rest.
Proof.
  revert cur. induction l as [|c l IH]; intros cur H.
  - cbn. now rewrite app_nil_r.
  - apply includes_false_cons in H as [H1 H2].
    cbn [app split_go]. cbn [starts_with newline] in *. rewrite H1.
    rewrite (IH (c :: cur) H2). cbn [rev]. now rewrite <- app_assoc.
Qed.

Lemma split_join_lines lines :
  lines <> [] ->
  Forall (fun l => includes newline l = false) lines ->
  split newline (join newline lines) = lines.
Proof.
  intros Hne H. unfold split.
  induction H as [|l ls Hl Hls IH]; [congruence|].
  destruct ls as [|l2 ls].
  - cbn [join]. now rewrite split_go_no_sep.
  - change (join newline (l :: l2 :: ls))
      with (l ++ newline ++ join newline (l2 :: ls)).
    rewrite split_go_line by assumption. cbn [rev app].
    f_equal. apply IH. discriminate.
Qed.

(** Trimming. *)
Lemma trim_start_id s : head_white s = false -> trim_start s = s.
Proof. destruct s as [|c s]; cbn; [reflexivity|]. now intros ->. Qed.

Lemma trim_id s : is_trimmed s = true -> trim s = s.
Proof.
  unfold is_trimmed, trim, trim_end. intros H.
  apply andb_prop in H as [H1 H2].
  apply negb_true_iff in H1, H2.
  rewrite (trim_start_id s H1), (trim_start_id _ H2). apply rev_involutive.
Qed.

Lemma head_white_app s t : s <> [] -> head_white (s ++ t) = head_white s.
Proof. destruct s; [congruence|reflexivity]. Qed.

Lemma trim_space_after s :
  s <> [] -> is_trimmed s = true -> trim (s ++ [32%N]) = s.
Proof.
  unfold is_trimmed, trim, trim_end. intros Hne H.
  apply andb_prop in H as [H1 H2].
  apply negb_true_iff in H1, H2.
  rewrite (trim_start_id (s ++ [32%N])) by (now rewrite head_white_app).
  rewrite rev_app_distr. cbn [rev app trim_start].
  change (is_white 32) with true. cbn iota.
  rewrite (trim_start_id _ H2). apply rev_involutive.
Qed.

Lemma trim_space_before s :
  is_trimmed s = true -> trim (32%N :: s) = s.
Proof.
  intros H. unfold trim. cbn [trim_start].
  change (is_white 32) with true. cbn iota. now apply trim_id.
Qed.

(** The two fields of a spaced line. *)
Lemma starts_with_bars_tail c o rest :
  starts_with bars (c :: o) = false ->
  starts_with bars (c :: (o ++ 32%N :: rest)) = false.
Proof.
  destruct o as [|c2 o]; cbn [app starts_with bars].
  - intros _. change (124 =? 32)%N with false. cbn. apply andb_false_r.
  - rewrite !andb_true_r. auto.
Qed.

Lemma split_go_spaced cur o n :
  includes bars o = false ->
  includes bars n = false ->
  split_go bars 0 cur (o ++ spaced_bars ++ n)
  = [rev cur ++ o ++ [32%N]; 32%N :: n].
Proof.
  intros Ho Hn. revert cur. induction o as [|c o IH]; intros cur.
  - cbn [app spaced_bars split_go starts_with bars length Nat.sub].
    change (124 =? 32)%N with false. change (124 =? 124)%N with true.
    cbn [andb]. rewrite split_go_no_sep.
    + reflexivity.
    + assumption.
  - apply includes_false_cons in Ho as [H1 H2].
    change ((c :: o) ++ spaced_bars ++ n)
      with (c :: (o ++ 32%N :: (bars ++ 32%N :: n))).
    cbn [split_go]. rewrite (starts_with_bars_tail c o _ H1).
    change (32%N :: bars ++ 32%N :: n) with (spaced_bars ++ n).
    rewrite (IH H2 (c :: cur)). cbn [rev]. now rewrite <- !app_assoc.
Qed.

Lemma clean_text_elim s :
  clean_text s = true ->
  s <> [] /\ includes newline s = false /\ includes bars s = false
  /\ is_trimmed s = true.
Proof.
  unfold clean_text. intros H.
  repeat (apply andb_prop in H as [H ?]).
  repeat match goal with
         | H : negb _ = true |- _ => apply negb_true_iff in H
         end.
  repeat split; try assumption. destruct s; [discriminate|discriminate].
Qed.

Lemma parse_format_line i :
  clean_item i = true -> parse_line (format_line i) = i.
Proof.
  unfold clean_item. intros H. apply andb_prop in H as [Hn Ho].
  apply clean_text_elim in Hn as (Hn0 & Hn1 & Hn2 & Hn3).
  apply clean_text_elim in Ho as (Ho0 & Ho1 & Ho2 & Ho3).
  destruct i as [n o]. cbn [name originalName] in *.
  unfold format_line, parse_line, jsstring_eqb, split.
  cbn [name originalName]. case_bool_decide as E.
  - subst o. rewrite split_go_no_sep by assumption. cbn [rev app].
    now rewrite trim_id.
  - rewrite split_go_spaced by assumption. cbn [rev app].
    now rewrite trim_space_after, trim_space_before.
Qed.

Lemma format_line_one_line i :
  clean_item i = true -> includes newline (format_line i) = false.
Proof.
  unfold clean_item. intros H. apply andb_prop in H as [Hn Ho].
  apply clean_text_elim in Hn as (_ & Hn1 & _).
  apply clean_text_elim in Ho as (_ & Ho1 & _).
  unfold format_line. destruct (jsstring_eqb _ _); [assumption|].
  rewrite !includes_newline_app, Hn1, Ho1. reflexivity.
Qed.

Lemma trim_start_keeps c t :
  In c t -> is_white c = false -> trim_start t <> [].
Proof.
  induction t as [|x t IH]; intros Hin Hc; [destruct Hin|].
  cbn [trim_start]. destruct (is_white x) eqn:Ex; [|discriminate].
  destruct Hin as [->|Hin]; [congruence|]. now apply IH.
Qed.

Lemma trim_not_blank s :
  s <> [] -> head_white s = false -> is_empty (trim s) = false.
Proof.
  intros Hne Hh. unfold trim, trim_end. rewrite (trim_start_id s Hh).
  destruct s as [|c s]; [congruence|]. cbn [head_white] in Hh.
  assert (Hk : trim_start (rev (c :: s)) <> []).
  { apply (trim_start_keeps c); [|assumption].
    apply List.in_rev. rewrite rev_involutive. now left. }
  destruct (trim_start (rev (c :: s))) as [|y t] eqn:E; [congruence|].
  destruct (rev (y :: t)) eqn:E2; [|reflexivity].
  apply (f_equal (@rev N)) in E2. rewrite rev_involutive in E2.
  discriminate E2.
Qed.

Lemma format_line_not_blank i :
  clean_item i = true -> is_empty (trim (format_line i)) = false.
Proof.
  unfold clean_item. intros H. apply andb_prop in H as [Hn Ho].
  apply clean_text_elim in Hn as (Hn0 & _ & _ & Hn3).
  apply clean_text_elim in Ho as (Ho0 & _ & _ & Ho3).
  unfold is_trimmed in Hn3, Ho3.
  apply andb_prop in Hn3 as [Hn3 _]. apply andb_prop in Ho3 as [Ho3 _].
  apply negb_true_iff in Hn3, Ho3.
  unfold format_line. destruct (jsstring_eqb _ _).
  - now apply trim_not_blank.
  - apply trim_not_blank.
    + destruct (originalName i); [congruence|discriminate].
    + now rewrite head_white_app.
Qed.

(** C10. Items whose two texts are not empty, hold no line break and no
    ["||"], and have no white space at their ends come back unchanged from
    the textarea text: parsing the formatted list gives the list, and an
    item whose two fields are equal is written as the one field alone. *)
Theorem parse_format_items its :
  Forall (fun i => clean_item i = true) its ->
  parseStringToItems (formatItemsToString its) = its
  /\ Forall (fun i => originalName i = name i -> format_line i = name i)
            its.
Proof.
  intros H. split.
  - unfold parseStringToItems, formatItemsToString.
    destruct its as [|i its]; [reflexivity|].
    rewrite split_join_lines.
    + rewrite forallb_filter_id.
      * rewrite List.map_map.
        rewrite <- (List.map_id (i :: its)) at 2.
        apply List.map_ext_in. intros a Ha.
        apply parse_format_line.
        rewrite Forall_forall in H. now apply H, list_elem_of_In.
      * rewrite List.forallb_forall. intros l Hl.
        apply List.in_map_iff in Hl as (a & <- & Ha).
        rewrite format_line_not_blank; [reflexivity|].
        rewrite Forall_forall in H. now apply H, list_elem_of_In.
    + discriminate.
    + rewrite Forall_forall. intros l Hl.
      apply list_elem_of_In, List.in_map_iff in Hl as (a & <- & Ha).
      apply format_line_one_line.
      rewrite Forall_forall in H. now apply H, list_elem_of_In.
  - apply Forall_forall. intros i _ E.
    unfold format_line, jsstring_eqb. now rewrite bool_decide_eq_true_2.
Qed.

End ItemsText.

(** ** Objects *)

Section ObjectFacts.
Import JsString Js Encode.

Lemma get_set_field_eq k v o : get k (set_field k v o) = v.
Proof.
  induction o as [|[k' v'] o IH]; cbn.
  - now rewrite bool_decide_eq_true_2.
  - case_bool_decide as E; cbn.
    + now rewrite bool_decide_eq_true_2.
    + now rewrite bool_decide_eq_false_2.
Qed.

Lemma get_set_field_ne k k' v o :
  k <> k' -> get k' (set_field k v o) = get k' o.
Proof.
  intros Hne. induction o as [|[k0 v0] o IH]; cbn.
  - rewrite bool_decide_eq_false_2; [reflexivity|congruence].
  - case_bool_decide as E; cbn.
    + subst k0. rewrite !bool_decide_eq_false_2; congruence.
    + case_bool_decide; [reflexivity|exact IH].
Qed.

Lemma get_in_keys k o : get k o <> JUndefined -> In k (keys o).
Proof.
  induction o as [|[k' v'] o IH]; cbn; [congruence|].
  case_bool_decide as E; [subst; auto|]. intros H. right. now apply IH.
Qed.

(** Replacing a property the object has keeps its property names. *)
Lemma keys_set_field_present k v o :
  In k (keys o) -> keys (set_field k v o) = keys o.
Proof.
  induction o as [|[k' v'] o IH]; cbn; [tauto|].
  intros [->|Hin].
  - now rewrite bool_decide_eq_true_2.
  - case_bool_decide as E; cbn; [now subst|]. f_equal. now apply IH.
Qed.

(** *** Values as JSON keeps them *)

Lemma json_object_cons k v o :
  json_object ((k, v) :: o)
  = if is_undefined v then json_object o else (k, json v) :: json_object o.
Proof. unfold json_object. destruct v; reflexivity. Qed.

Lemma json_object_length o : (length (json_object o) <= length o)%nat.
Proof.
  induction o as [|[k v] o IH]; [reflexivity|].
  rewrite json_object_cons. destruct (is_undefined v); cbn [length]; lia.
Qed.

(** An object that equals its own serialisation has no property holding
    [undefined], and each of its values is such a value. *)
Lemma json_fixed_cons k v o :
  json_object ((k, v) :: o) = (k, v) :: o ->
  is_undefined v = false /\ json v = v /\ json_object o = o.
Proof.
  rewrite json_object_cons. destruct (is_undefined v) eqn:E.
  - intros H. pose proof (json_object_length o) as Hl.
    rewrite H in Hl. cbn in Hl. lia.
  - intros [= Hv Ho]. auto.
Qed.

Lemma json_fixed_set_field k v o :
  json_object o = o -> is_undefined v = false -> json v = v ->
  json_object (set_field k v o) = set_field k v o.
Proof.
  intros Ho Hu Hv. induction o as [|[k' v'] o IH]; cbn [set_field].
  - now rewrite json_object_cons, Hu, Hv.
  - apply json_fixed_cons in Ho as (Hu' & Hv' & Ho').
    case_bool_decide as E.
    + now rewrite json_object_cons, Hu, Hv, Ho'.
    + now rewrite json_object_cons, Hu', Hv', (IH Ho').
Qed.

Lemma json_fixed_get k o :
  json_object o = o -> get k o = JUndefined \/ json (get k o) = get k o.
Proof.
  induction o as [|[k' v'] o IH]; cbn [get]; [auto|].
  intros Ho. apply json_fixed_cons in Ho as (Hu' & Hv' & Ho').
  case_bool_decide; auto.
Qed.

End ObjectFacts.

(** ** Browser storage: reading legacy records, saving without the image *)

Section LocalStoreFacts.
Import JsString Types Js Encode LocalStore.

(** The two-field item a legacy string becomes. *)
Local Abbreviation upgraded s :=
  (JObj [("name", JStr s); ("originalName", JStr s)]).

Lemma migrate_legacy e strs :
  get "items" e = JArr (List.map JStr strs) ->
  strs <> [] ->
  migrate e
  = set_field "items" (JArr (List.map (fun s => upgraded s) strs)) e.
Proof.
  intros Hi Hne. unfold migrate. rewrite Hi.
  destruct strs as [|s0 strs]; [congruence|].
  cbn [List.map legacy_items is_string elements].
  now rewrite !List.map_map.
Qed.

Lemma migrate_get_other e k : k <> "items" -> get k (migrate e) = get k e.
Proof.
  intros Hne. unfold migrate.
  destruct (legacy_items _); [now apply get_set_field_ne|].
  destruct (negb _); [now apply get_set_field_ne|reflexivity].
Qed.

Lemma getAllExpenses_lookup ls raw i e :
  expenses_item ls = Some raw ->
  raw !! i = Some e ->
  getAllExpenses ls !! i = Some (migrate e).
Proof.
  intros Hraw Hi. unfold getAllExpenses, migrateExpenses.
  rewrite Hraw. cbn [from_option].
  change (List.map migrate raw) with (migrate <$> raw).
  now rewrite list_lookup_fmap, Hi.
Qed.

(** C3, for the store that holds legacy records.  A record kept in browser
    storage whose [items] is a non-empty list of strings is read back, by
    [getAllExpenses] and so by [getExpensesForTrip] for its trip, with each
    string [s] replaced by [{name: s, originalName: s}]; its other
    properties, and the names and order of all of them, are as stored.
    Reading is a function of the storage and writes nothing. *)
Theorem getExpensesForTrip_upgrades_legacy ls raw i e strs :
  expenses_item ls = Some raw ->
  raw !! i = Some e ->
  get "items" e = JArr (List.map JStr strs) ->
  strs <> [] ->
  exists e',
    getAllExpenses ls !! i = Some e'
    /\ get "items" e' = JArr (List.map (fun s => upgraded s) strs)
    /\ (forall k, k <> "items" -> get k e' = get k e)
    /\ keys e' = keys e
    /\ (forall tripId,
           get "tripId" e = JStr tripId ->
           In e' (getExpensesForTrip ls tripId)).
Proof.
  intros Hraw Hi Hitems Hne. exists (migrate e).
  split; [now apply (getAllExpenses_lookup ls raw)|].
  rewrite (migrate_legacy e strs Hitems Hne).
  split; [apply get_set_field_eq|].
  split; [intros k Hk; apply get_set_field_ne; congruence|].
  split.
  - apply keys_set_field_present, get_in_keys.
    rewrite Hitems. discriminate.
  - intros tripId Ht. unfold getExpensesForTrip.
    apply List.filter_In. split.
    + rewrite <- (migrate_legacy e strs Hitems Hne).
      apply list_elem_of_In, list_elem_of_lookup. exists i.
      now apply (getAllExpenses_lookup ls raw).
    + rewrite get_set_field_ne by discriminate. rewrite Ht.
      cbn. now rewrite bool_decide_eq_true_2.
Qed.

(** [getExpensesForTrip] returns the stored records that name the trip,
    each as [migrateExpenses] reads it, in the order they are stored. *)
Lemma getExpensesForTrip_stored_order ls T :
  getExpensesForTrip ls T
  = List.map migrate
      (List.filter (fun e => equals_string (get "tripId" e) T)
                   (from_option (fun x => x) [] (expenses_item ls))).
Proof.
  unfold getExpensesForTrip, getAllExpenses, migrateExpenses.
  induction (from_option (fun x => x) [] (expenses_item ls)) as [|e es IH];
    [reflexivity|].
  cbn [List.map List.filter].
  rewrite (migrate_get_other e "tripId") by discriminate.
  destruct (equals_string (get "tripId" e) T); cbn [List.map]; now rewrite IH.
Qed.

(** *** Records that are parsed JSON *)

Lemma json_fixed_upgraded xs :
  List.map json xs = xs ->
  List.map json
    (List.map (fun i => JObj [("name", i); ("originalName", i)]) xs)
  = List.map (fun i => JObj [("name", i); ("originalName", i)]) xs.
Proof.
  induction xs as [|x xs IH]; [reflexivity|].
  cbn [List.map]. intros [= Hx Hxs]. rewrite (IH Hxs). f_equal.
  destruct x; cbn in Hx |- *; try discriminate Hx; now rewrite ?Hx.
Qed.

Lemma migrate_json_fixed e :
  json_object e = e -> json_object (migrate e) = migrate e.
Proof.
  intros He. unfold migrate.
  destruct (legacy_items (get "items" e)) eqn:El.
  - apply json_fixed_set_field; [assumption|reflexivity|].
    destruct (json_fixed_get "items" e He) as [Hu|Hj].
    + rewrite Hu in El. discriminate El.
    + destruct (get "items" e) as [| | | | |xs|]; try discriminate El.
      cbn [elements]. cbn [json] in Hj |- *. injection Hj as Hj.
      now rewrite json_fixed_upgraded.
  - destruct (negb _); [|assumption].
    now apply json_fixed_set_field.
Qed.

Lemma migrate_idempotent e : migrate (migrate e) = migrate e.
Proof.
  assert (Hfix : forall e', legacy_items (get "items" e') = false ->
                            truthy (get "items" e') = true ->
                            migrate e' = e').
  { intros e' Hl Ht. unfold migrate. now rewrite Hl, Ht. }
  destruct (legacy_items (get "items" e)) eqn:El.
  - assert (Hm : migrate e
                 = set_field "items"
                     (JArr (List.map
                              (fun i => JObj [("name", i); ("originalName", i)])
                              (elements (get "items" e)))) e).
    { unfold migrate. now rewrite El. }
    rewrite Hm. apply Hfix; rewrite get_set_field_eq; [|reflexivity].
    destruct (get "items" e) as [| | | | |[|x xs]|]; try discriminate El.
    reflexivity.
  - destruct (truthy (get "items" e)) eqn:Et.
    + rewrite (Hfix e El Et). now apply Hfix.
    + assert (Hm : migrate e = set_field "items" (JArr []) e).
      { unfold migrate. now rewrite El, Et. }
      rewrite Hm. apply Hfix; now rewrite get_set_field_eq.
Qed.

Lemma stored_without_image e :
  ~ In "receiptImage"
       (keys (json_object
                (set_field "receiptImage" JUndefined (expense_to_js e)))).
Proof.
  unfold expense_to_js, json_object. cbn.
  intros H. repeat (destruct H as [H|H]; [discriminate H|]). exact H.
Qed.

Section SaveExpense.
Variable setItem_throws : Storage -> Key -> list JsObject -> option Thrown.

(** When the browser refuses the list with the new expense for lack of
    quota, the list is written once more with the image left out. *)
Lemma saveExpense_quota_retry ls e :
  let stored := getAllExpenses ls in
  let full := expense_to_js e in
  let bare := set_field "receiptImage" JUndefined full in
  setItem_throws ls EXPENSES_KEY (stored ++ [full]) = Some QuotaError ->
  storage_length ls <> 0%nat ->
  match setItem_throws ls EXPENSES_KEY (stored ++ [bare]) with
  | None =>
      exists ls',
        saveExpense setItem_throws ls full
        = (ls', [Alert_saved_without_image])
        /\ expenses_item ls'
           = Some (List.map json_object stored ++ [json_object bare])
        /\ ~ In "receiptImage" (keys (json_object bare))
        /\ trips_item ls' = trips_item ls
  | Some _ =>
      saveExpense setItem_throws ls full = (ls, [Alert_not_saved])
  end.
Proof.
  intros stored full bare H1 Hlen.
  unfold saveExpense, setItem. fold stored. fold full. rewrite H1.
  unfold isQuotaExceeded.
  destruct (Nat.eqb_spec (storage_length ls) 0) as [E|_]; [congruence|].
  cbn [negb]. fold bare.
  destruct (setItem_throws ls EXPENSES_KEY (stored ++ [bare])) as [err|].
  - reflexivity.
  - eexists. split; [reflexivity|]. cbn [put expenses_item trips_item].
    rewrite List.map_app. cbn [List.map].
    repeat split. apply stored_without_image.
Qed.
End SaveExpense.

(** *** Deleting a trip from browser storage *)

Lemma map_json_fixed (l : list JsObject) :
  Forall (fun o => json_object o = o) l -> List.map json_object l = l.
Proof.
  induction 1 as [|o l Ho _ IH]; [reflexivity|].
  cbn [List.map]. now rewrite Ho, IH.
Qed.

Lemma filter_filter_not (T : jsstring) (l : list JsObject) :
  List.filter (fun e => equals_string (get "tripId" e) T)
    (List.filter (fun e => negb (equals_string (get "tripId" e) T)) l)
  = [].
Proof.
  induction l as [|e l IH]; [reflexivity|]. cbn [List.filter].
  destruct (equals_string (get "tripId" e) T) eqn:E; cbn [negb];
    [exact IH|]. cbn [List.filter]. now rewrite E.
Qed.

Lemma filter_filter_other (T T' : jsstring) (l : list JsObject) :
  T' <> T ->
  List.filter (fun e => equals_string (get "tripId" e) T')
    (List.filter (fun e => negb (equals_string (get "tripId" e) T)) l)
  = List.filter (fun e => equals_string (get "tripId" e) T') l.
Proof.
  intros Hne. induction l as [|e l IH]; [reflexivity|]. cbn [List.filter].
  destruct (equals_string (get "tripId" e) T) eqn:E; cbn [negb].
  - rewrite IH. unfold equals_string in *.
    destruct (get "tripId" e); try discriminate E.
    apply bool_decide_eq_true in E. subst.
    rewrite bool_decide_eq_false_2; [reflexivity|congruence].
  - cbn [List.filter]. now rewrite IH.
Qed.

Section DeleteTrip.
Variable setItem_throws : Storage -> Key -> list JsObject -> option Thrown.

(** When [deleteTrip] ends without throwing, the expenses read back are
    those read before whose [tripId] is not the trip: none is left for
    the trip and the other trips keep theirs, in order; no trip record
    carries the id. *)
Lemma deleteTrip_local ls T ls' :
  holds_json ls ->
  deleteTrip setItem_throws ls T = (ls', None) ->
  getAllExpenses ls'
  = List.filter (fun e => negb (equals_string (get "tripId" e) T))
                (getAllExpenses ls)
  /\ getExpensesForTrip ls' T = []
  /\ (forall T', T' <> T ->
                 getExpensesForTrip ls' T' = getExpensesForTrip ls T')
  /\ getTrips ls'
     = List.filter (fun t => negb (equals_string (get "id" t) T))
                   (getTrips ls).
Proof.
  intros [Htrips Hexp]. unfold deleteTrip, setItem.
  destruct (setItem_throws ls TRIPS_KEY _); [discriminate|].
  set (ls1 := put TRIPS_KEY _ ls).
  assert (H1 : getAllExpenses ls1 = getAllExpenses ls) by reflexivity.
  rewrite H1.
  destruct (setItem_throws ls1 EXPENSES_KEY _); [discriminate|].
  set (keep := fun e : JsObject =>
                 negb (equals_string (get "tripId" e) T)).
  intros Heq.
  assert (He' : expenses_item ls'
                = Some (List.map json_object
                          (List.filter keep (getAllExpenses ls))))
    by (now injection Heq as <-).
  assert (Ht' : trips_item ls'
                = Some (List.map json_object
                          (List.filter
                             (fun t => negb (equals_string (get "id" t) T))
                             (getTrips ls))))
    by (now injection Heq as <-).
  clear Heq.
  assert (Hall : getAllExpenses ls' = List.filter keep (getAllExpenses ls)).
  { unfold getAllExpenses at 1. rewrite He'. cbn [from_option].
    assert (Hfix : Forall (fun o => json_object o = o
                                    /\ migrate o = o)
                     (List.filter keep (getAllExpenses ls))).
    { rewrite Forall_forall. intros o Ho.
      apply list_elem_of_In, List.filter_In in Ho as [Ho _].
      unfold getAllExpenses, migrateExpenses in Ho.
      apply List.in_map_iff in Ho as (o0 & <- & Ho0).
      split; [|apply migrate_idempotent].
      apply migrate_json_fixed.
      rewrite Forall_forall in Hexp. now apply Hexp, list_elem_of_In. }
    rewrite map_json_fixed
      by (eapply Forall_impl; [exact Hfix|]; now intros ? []).
    unfold migrateExpenses.
    rewrite <- (List.map_id (List.filter keep (getAllExpenses ls))) at 2.
    apply List.map_ext_in. intros o Ho.
    rewrite Forall_forall in Hfix.
    now apply Hfix, list_elem_of_In. }
  split; [exact Hall|]. unfold getExpensesForTrip. rewrite Hall.
  split; [apply filter_filter_not|].
  split; [intros T' Hne; now apply filter_filter_other|].
  unfold getTrips at 1. rewrite Ht'. cbn [from_option].
  apply map_json_fixed. rewrite Forall_forall. intros o Ho.
  apply list_elem_of_In, List.filter_In in Ho as [Ho _].
  rewrite Forall_forall in Htrips. now apply Htrips, list_elem_of_In.
Qed.
End DeleteTrip.

End LocalStoreFacts.

(** ** Sorting newest first *)

Section SortFacts.
Import Js Firestore.
Variable Date_getTime : JsVal -> option Z.

Local Abbreviation time := (time_of Date_getTime).
Local Abbreviation newer := (newer_second Date_getTime).
Local Abbreviation not_before := (Firestore.not_before Date_getTime).

Lemma insert_by_perm {A} later (x : A) l :
  Permutation (JsArray.insert_by later x l) (x :: l).
Proof.
  induction l as [|y l IH]; cbn; [reflexivity|].
  destruct (later x y); [|reflexivity].
  rewrite IH. apply perm_swap.
Qed.

Lemma sort_perm {A} later (l : list A) : Permutation (JsArray.sort later l) l.
Proof.
  induction l as [|x l IH]; cbn; [reflexivity|].
  change (foldr (JsArray.insert_by later) [] l) with (JsArray.sort later l).
  rewrite insert_by_perm. now constructor.
Qed.

Lemma insert_by_hd y x l :
  not_before y x -> HdRel not_before y l ->
  HdRel not_before y (JsArray.insert_by newer x l).
Proof.
  intros Hyx Hl. destruct l as [|z l]; cbn.
  - now constructor.
  - destruct (newer x z); constructor; [now inversion Hl|assumption].
Qed.

Lemma insert_by_sorted x l :
  is_Some (time x) -> Forall (fun y => is_Some (time y)) l ->
  Sorted not_before l ->
  Sorted not_before (JsArray.insert_by newer x l).
Proof.
  intros [tx Hx] Hv Hs. induction l as [|y l IH]; cbn.
  - repeat constructor.
  - apply Forall_cons in Hv as [[ty Hy] Hv].
    apply Sorted_inv in Hs as [Hs Hhd].
    unfold newer_second at 1. rewrite Hx, Hy.
    destruct (Z.ltb_spec 0 (ty - tx)).
    + constructor; [now apply IH|].
      apply insert_by_hd; [|assumption].
      exists ty, tx. repeat split; try assumption. lia.
    + constructor; [now constructor|]. constructor.
      exists tx, ty. repeat split; try assumption. lia.
Qed.

Lemma sort_sorted (l : list JsObject) :
  Forall (fun y => is_Some (time y)) l ->
  Sorted not_before (JsArray.sort newer l).
Proof.
  induction l as [|x l IH]; intros Hv; cbn; [constructor|].
  apply Forall_cons in Hv as [Hx Hv].
  change (foldr (JsArray.insert_by newer) [] l) with (JsArray.sort newer l).
  apply insert_by_sorted; [assumption| |now apply IH].
  eapply Permutation_Forall; [symmetry; apply sort_perm|assumption].
Qed.

End SortFacts.

(** ** The Firestore adapter *)

Section FirestoreFacts.
Import JsString Js Firestore.

Variable uid : jsstring.
Variable fault : Request -> option Error.
Variable auto_id : Db -> jsstring.
Variable Date_getTime : JsVal -> option Z.

Local Abbreviation fetch :=
  (fetchExpensesForTrip (Some uid) fault Date_getTime).
Local Abbreviation not_before := (Firestore.not_before Date_getTime).

(** The documents the query of [fetchExpensesForTrip] selects. *)
Local Abbreviation selected tripId w :=
  (List.filter (fun kd => expense_of tripId uid kd.2)
               (map_to_list (expenses (db w)))).

Lemma fetch_answer tripId w :
  fault (GetDocs EXPENSES_COLLECTION) = None ->
  fetch tripId w
  = (inr (JsArray.sort (newer_second Date_getTime)
                       (List.map with_id (selected tripId w))), w).
Proof.
  intros Hf. unfold fetchExpensesForTrip, try_catch, bind, getCurrentUserId,
    getDocs, request, ret, get_db, bind.
  rewrite Hf. reflexivity.
Qed.

Lemma fetch_refused tripId w err :
  fault (GetDocs EXPENSES_COLLECTION) = Some err ->
  fetch tripId w
  = (inl err, {| db := db w; log := log w ++ [Console_error] |}).
Proof.
  intros Hf. unfold fetchExpensesForTrip, try_catch, bind, getCurrentUserId,
    getDocs, request, ret, get_db, bind, emit, throw.
  rewrite Hf. reflexivity.
Qed.

Lemma selected_spec tripId w k d :
  In (k, d) (selected tripId w)
  <-> expenses (db w) !! k = Some d /\ expense_of tripId uid d = true.
Proof.
  rewrite List.filter_In. cbn [snd].
  rewrite <- list_elem_of_In, elem_of_map_to_list. reflexivity.
Qed.

(** Signed in, and with the store answering, [fetchExpensesForTrip]
    returns the records of exactly the expense documents whose [tripId] is
    the trip and whose [userId] is the caller, each once, and, the dates of
    these documents being dates, newest first.  The world is left as it
    was. *)
Lemma fetch_newest_first tripId w :
  fault (GetDocs EXPENSES_COLLECTION) = None ->
  (forall k d,
      expenses (db w) !! k = Some d ->
      expense_of tripId uid d = true ->
      is_Some (Date_getTime (get "date" (with_id (k, d))))) ->
  exists l,
    fetch tripId w = (inr l, w)
    /\ Permutation l (List.map with_id (selected tripId w))
    /\ (forall e,
           In e l <->
           exists k d,
             expenses (db w) !! k = Some d
             /\ get "tripId" d = JStr tripId
             /\ get "userId" d = JStr uid
             /\ e = with_id (k, d))
    /\ Sorted (fun a b =>
                 exists ta tb,
                   Date_getTime (get "date" a) = Some ta
                   /\ Date_getTime (get "date" b) = Some tb
                   /\ (tb <= ta)%Z) l.
Proof.
  intros Hf Hdates. eexists. split; [now apply fetch_answer|].
  split; [apply sort_perm|]. split.
  - intros e. rewrite (Permutation_in' (eq_refl e) (sort_perm _ _)).
    rewrite List.in_map_iff. split.
    + intros ([k d] & <- & Hin). apply selected_spec in Hin as [Hk Hsel].
      exists k, d. split; [assumption|].
      unfold expense_of, equals_string in Hsel.
      apply andb_prop in Hsel as [Ht Hu].
      destruct (get "tripId" d); try discriminate.
      destruct (get "userId" d); try discriminate.
      apply bool_decide_eq_true in Ht, Hu. now subst.
    + intros (k & d & Hk & Ht & Hu & ->). exists (k, d).
      split; [reflexivity|]. apply selected_spec. split; [assumption|].
      unfold expense_of, equals_string. rewrite Ht, Hu.
      now rewrite !bool_decide_eq_true_2.
  - apply (sort_sorted Date_getTime). rewrite Forall_forall. intros e He.
    apply list_elem_of_In, List.in_map_iff in He as ([k d] & <- & Hin).
    apply selected_spec in Hin as [Hk Hsel]. now apply (Hdates k d).
Qed.

(** *** Deleting a trip *)

(** A deletion the store refused is reported when all have been tried. *)
Lemma delete_each_refused es err w w' :
  delete_each fault es (Some err) w <> (inr tt, w').
Proof.
  revert err w. induction es as [|e es IH]; intros err w; cbn.
  - discriminate.
  - destruct (doc_ref (get "id" e)) as [i|]; [|discriminate].
    destruct (fault (DeleteDoc EXPENSES_COLLECTION i)) eqn:Ef.
    + apply IH.
    + unfold bind at 1. unfold deleteDoc, bind, request. rewrite Ef.
      cbn. apply IH.
Qed.

(** A run of [delete_each] that ends well has deleted the document each
    record names, and nothing else. *)
Lemma delete_each_done es failed w w' :
  delete_each fault es failed w = (inr tt, w') ->
  exists ids,
    Forall2 (fun e i => doc_ref (get "id" e) = Some i) es ids
    /\ (forall k,
           expenses (db w') !! k
           = if bool_decide (k ∈ ids) then None else expenses (db w) !! k)
    /\ trips (db w') = trips (db w)
    /\ log w' = log w.
Proof.
  revert failed w. induction es as [|e es IH]; intros failed w; cbn.
  - destruct failed; [discriminate|]. intros [= <-].
    exists []. split; [constructor|]. split; [|split; reflexivity].
    intros k. now rewrite bool_decide_eq_false_2 by apply not_elem_of_nil.
  - destruct (doc_ref (get "id" e)) as [i|] eqn:Ei; [|discriminate].
    destruct (fault (DeleteDoc EXPENSES_COLLECTION i)) eqn:Ef.
    + intros H. now apply delete_each_refused in H.
    + unfold bind at 1. unfold deleteDoc, bind, request. rewrite Ef.
      cbn. intros H. apply IH in H as (ids & Hids & He & Ht & Hl).
      exists (i :: ids). cbn in *.
      split; [now constructor|]. split; [|split; assumption].
      intros k. rewrite He. destruct (decide (k = i)) as [->|Hne].
      * rewrite (bool_decide_eq_true_2 (i ∈ i :: ids))
          by apply list_elem_of_here.
        rewrite lookup_delete_eq. now destruct (bool_decide _).
      * rewrite lookup_delete_ne by congruence.
        apply (f_equal (fun b : bool =>
                          if b then None else expenses (db w) !! k)).
        apply bool_decide_ext. rewrite elem_of_cons. intuition congruence.
Qed.

Lemma doc_ref_string k i : doc_ref (JStr k) = Some i -> i = k.
Proof. cbn. destruct (is_empty k); congruence. Qed.

Lemma filter_none {A} (f : A -> bool) l :
  (forall x, In x l -> f x = false) -> List.filter f l = [].
Proof.
  induction l as [|x l IH]; intros H; cbn; [reflexivity|].
  rewrite (H x) by now left. apply IH. intros y Hy. apply H. now right.
Qed.

(** What a successful [deleteTrip] leaves: the trip document is gone, of
    the expense documents exactly those of the trip that the caller owns
    are gone, and the caller's next fetch for the trip is empty. *)
Lemma deleteTrip_done T w w' :
  (forall k d,
      expenses (db w) !! k = Some d ->
      expense_of T uid d = true ->
      get "id" (with_id (k, d)) = JStr k) ->
  deleteTrip (Some uid) fault Date_getTime T w = (inr tt, w') ->
  trips (db w') = delete T (trips (db w))
  /\ (forall k,
         expenses (db w') !! k
         = match expenses (db w) !! k with
           | Some d => if expense_of T uid d then None else Some d
           | None => None
           end)
  /\ fetch T w' = (inr [], w')
  /\ log w' = log w.
Proof.
  intros Hkeyed. unfold deleteTrip, try_catch.
  destruct (bind _ _ w) as [[err|[]] w0] eqn:Hrun;
    [unfold bind, emit, throw; discriminate|].
  intros [= ->]. revert Hrun. unfold bind at 1.
  destruct (doc_ref (JStr T)) as [T'|] eqn:ET; [|discriminate].
  apply doc_ref_string in ET as ->.
  unfold deleteDoc at 1. unfold bind at 1. unfold request at 1.
  destruct (fault (DeleteDoc TRIPS_COLLECTION T)); [discriminate|].
  cbn [ret bind get_db set_db with_docs docs_of db log].
  set (w1 := {| db := _; log := log w |}).
  unfold bind at 1.
  destruct (fault (GetDocs EXPENSES_COLLECTION)) as [err|] eqn:Eg.
  { rewrite (fetch_refused T w1 err Eg). discriminate. }
  rewrite (fetch_answer T w1 Eg).
  intros Hdel. apply delete_each_done in Hdel as (ids & Hids & He & Ht & Hl).
  assert (Hin : forall k, k ∈ ids <->
                  exists d, expenses (db w) !! k = Some d
                            /\ expense_of T uid d = true).
  { intros k. split.
    - intros Hk. apply list_elem_of_lookup in Hk as [n Hn].
      destruct (Forall2_lookup_r _ _ _ _ _ Hids Hn) as (e & Hen & Href).
      apply list_elem_of_lookup_2, list_elem_of_In in Hen.
      apply (Permutation_in _ (sort_perm _ _)) in Hen.
      apply List.in_map_iff in Hen as ([k0 d] & <- & Hsel).
      apply selected_spec in Hsel as [Hk0 Hsel].
      rewrite (Hkeyed k0 d Hk0 Hsel) in Href.
      apply doc_ref_string in Href as ->. eauto.
    - intros (d & Hk & Hsel).
      assert (Hen : In (with_id (k, d))
                       (JsArray.sort (newer_second Date_getTime)
                          (List.map with_id (selected T w1)))).
      { apply (Permutation_in _ (Permutation_sym (sort_perm _ _))).
        apply List.in_map. apply selected_spec. now split. }
      apply list_elem_of_In, list_elem_of_lookup in Hen as [n Hn].
      destruct (Forall2_lookup_l _ _ _ _ _ Hids Hn) as (i & Hi & Href).
      rewrite (Hkeyed k d Hk Hsel) in Href.
      apply doc_ref_string in Href as ->.
      now apply list_elem_of_lookup_2 in Hi. }
  assert (Hlook : forall k,
             expenses (db w') !! k
             = match expenses (db w) !! k with
               | Some d => if expense_of T uid d then None else Some d
               | None => None
               end).
  { intros k. rewrite He. cbn [w1 db expenses].
    destruct (bool_decide_reflect (k ∈ ids)) as [Hk|Hk].
    - apply Hin in Hk as (d & -> & ->). reflexivity.
    - destruct (expenses (db w) !! k) as [d|] eqn:Ek; [|reflexivity].
      destruct (expense_of T uid d) eqn:Es; [|reflexivity].
      exfalso. apply Hk, Hin. eauto. }
  split; [exact Ht|]. split; [exact Hlook|]. split; [|exact Hl].
  rewrite (fetch_answer T w' Eg). f_equal. f_equal.
  rewrite filter_none; [reflexivity|].
  intros [k d] Hkd. cbn [snd].
  apply list_elem_of_In, elem_of_map_to_list in Hkd.
  rewrite Hlook in Hkd.
  destruct (expenses (db w) !! k) as [d0|]; [|discriminate].
  destruct (expense_of T uid d0) eqn:Es; [discriminate|].
  now injection Hkd as <-.
Qed.

(** *** Saving an expense *)

(** The document [saveExpense] sends for a record. *)
Local Abbreviation document_of expense :=
  (removeUndefined (safe_expense uid expense)).

Lemma saveExpense_refused expense docId err w :
  get "id" expense = JStr docId ->
  docId <> [] ->
  fault (SetDoc EXPENSES_COLLECTION docId (document_of expense)) = Some err ->
  saveExpense (Some uid) fault auto_id expense w
  = (inl err,
     {| db := db w;
        log := log w ++ match err with
                        | DocumentTooLarge =>
                            [Alert_image_too_large; Console_error]
                        | _ => [Console_error]
                        end |}).
Proof.
  intros Hid Hne Hf.
  unfold saveExpense, try_catch, getCurrentUserId, bind, ret.
  cbv beta iota zeta. unfold safe_expense at 1 2.
  rewrite !get_set_field_ne by discriminate. rewrite Hid.
  destruct docId as [|c docId]; [congruence|].
  cbn [truthy is_empty negb doc_ref].
  unfold setDoc, bind, request. rewrite Hf.
  unfold throw, emit, ret.
  destruct err; cbn; rewrite <- ?app_assoc; reflexivity.
Qed.

Lemma saveExpense_stored expense docId w :
  get "id" expense = JStr docId ->
  docId <> [] ->
  fault (SetDoc EXPENSES_COLLECTION docId (document_of expense)) = None ->
  saveExpense (Some uid) fault auto_id expense w
  = (inr docId,
     {| db := {| trips := trips (db w);
                 expenses := <[docId := document_of expense]>
                               (expenses (db w)) |};
        log := log w |}).
Proof.
  intros Hid Hne Hf.
  unfold saveExpense, try_catch, getCurrentUserId, bind, ret.
  cbv beta iota zeta. unfold safe_expense at 1 2.
  rewrite !get_set_field_ne by discriminate. rewrite Hid.
  destruct docId as [|c docId]; [congruence|].
  cbn [truthy is_empty negb doc_ref].
  unfold setDoc, bind, request. rewrite Hf.
  reflexivity.
Qed.

End FirestoreFacts.

(** ** The Gemini gateway *)

Section TokenFacts.
Import JsString Gemini.

Lemma tokens_go_span cur s :
  (cur <> [] \/ head_digit s = true) ->
  tokens_go cur s
  = (rev cur ++ fst (span_numeric s)) :: tokens_go [] (snd (span_numeric s)).
Proof.
  revert cur. induction s as [|c s IH]; intros cur H.
  - destruct H as [H|H]; [|discriminate]. cbn.
    destruct cur; [congruence|]. cbn. now rewrite app_nil_r.
  - cbn [tokens_go span_numeric]. destruct (is_digit_or_dot c) eqn:Ec.
    + rewrite (IH (c :: cur)) by (left; discriminate).
      destruct (span_numeric s) as [tok rest]. cbn [fst snd rev].
      now rewrite <- app_assoc.
    + destruct H as [H|H]; [|cbn in H; congruence].
      destruct cur as [|x cur]; [congruence|].
      cbn [is_empty fst snd tokens_go]. rewrite Ec.
      cbn. now rewrite app_nil_r.
Qed.

(** The match of the regular expression is the first of the runs. *)
Lemma first_numeric_token_head text :
  first_numeric_token text = head (numeric_tokens text).
Proof.
  unfold numeric_tokens. induction text as [|c text IH]; [reflexivity|].
  cbn [first_numeric_token]. destruct (is_digit_or_dot c) eqn:Ec.
  - rewrite tokens_go_span by (right; cbn; exact Ec). reflexivity.
  - cbn [tokens_go]. rewrite Ec. exact IH.
Qed.

End TokenFacts.

Section GatewayFacts.
Import JsString Js Gemini.

Variable toUpperCase : jsstring -> jsstring.
Variable parseFloat : jsstring -> float.
Variable setItem_throws : Storage -> Write -> bool.
Variable JSON_parse : jsstring -> option JsVal.
Variable currentUserEmail : option jsstring.
Variable env_API_KEY : jsstring.

Local Abbreviation fetchRate :=
  (fetchExchangeRate toUpperCase parseFloat setItem_throws).
Local Abbreviation analyze :=
  (analyzeReceipt setItem_throws JSON_parse currentUserEmail env_API_KEY).

(** The lookup is made exactly when the currency is foreign and the cache
    has no rate of today for it. *)
Lemma fetchExchangeRate_asks st today c q k :
  fetchRate st today c = Ask q k ->
  toUpperCase c <> js "TWD"
  /\ getRateFromCache st today (toUpperCase c) = None.
Proof.
  unfold fetchExchangeRate. case_bool_decide as E; [discriminate|].
  destruct (getRateFromCache _ _ _); [discriminate|]. auto.
Qed.

(** C9. When the lookup is made and throws, answers without text, or
    answers a text with no run of digits and dots that reads as a positive
    number, [fetchExchangeRate] returns rate [1] marked ["Failed"] or
    ["Error"] and leaves the storage, the rate cache with it, as it was; a
    second call on that day makes the lookup again. *)
Theorem fetchExchangeRate_failure_not_cached st today c q k o :
  fetchRate st today c = Ask q k ->
  lookup_failed parseFloat o ->
  (forall st1,
      rate (fst (k o st1)) = 1%float
      /\ (source (fst (k o st1)) = js "Failed"
          \/ source (fst (k o st1)) = js "Error")
      /\ snd (k o st1) = st1)
  /\ fetchRate (snd (k o st)) today c = Ask q k.
Proof.
  intros Hask Hfail.
  assert (Hres : forall st1,
             (fst (k o st1) = {| rate := 1; source := js "Failed" |}
              \/ fst (k o st1) = {| rate := 1; source := js "Error" |})
             /\ snd (k o st1) = st1).
  { revert Hask. unfold fetchExchangeRate.
    case_bool_decide as E; [discriminate|].
    destruct (getRateFromCache _ _ _); [discriminate|].
    intros [= _ <-] st1.
    destruct o as [|[text|]]; cbn; auto.
    destruct (is_empty text); [auto|].
    cbn in Hfail. rewrite first_numeric_token_head.
    destruct (numeric_tokens text) as [|tok toks]; cbn [head].
    - change (PrimFloat.ltb 0 0) with false. auto.
    - apply Forall_cons in Hfail as [-> _]. auto. }
  split.
  - intros st1. destruct (Hres st1) as [Hr Hs]. rewrite Hs.
    destruct Hr as [-> | ->]; cbn; auto.
  - destruct (Hres st) as [_ ->]. exact Hask.
Qed.

(** C5, with the condition the code adds.  When the first call makes the
    lookup and obtains a positive rate, the browser accepts the write of
    the cache and the rate is a finite number, a second call on that day
    does not make the lookup: it returns the same rate, marked
    ["Cache (Today)"].  [st1] is the storage when the first call resumes,
    [st'] the one it leaves. *)
Theorem fetchExchangeRate_second_call_cached st today c q k o st1 r st' :
  fetchRate st today c = Ask q k ->
  k o st1 = ({| rate := r; source := js "Google Search" |}, st') ->
  setItem_throws st1 (cache_write st1 today (toUpperCase c) r) = false ->
  JsNumber.is_finite r = true ->
  PrimFloat.ltb 0 r = true
  /\ fetchRate st' today c
     = Done {| rate := r; source := js "Cache (Today)" |}.
Proof.
  intros Hask Hk Hw Hfin.
  pose proof (fetchExchangeRate_asks _ _ _ _ _ Hask) as [Hc _].
  revert Hask. unfold fetchExchangeRate at 1.
  rewrite bool_decide_eq_false_2 by assumption.
  destruct (getRateFromCache _ _ _); [discriminate|].
  intros [= _ <-].
  assert (Hst : PrimFloat.ltb 0 r = true
                /\ st' = saveRateToCache setItem_throws st1 today
                           (toUpperCase c) r).
  { destruct o as [|[text|]]; try discriminate Hk.
    destruct (is_empty text); [discriminate Hk|].
    destruct (PrimFloat.ltb 0 _) eqn:Epos; [|discriminate Hk].
    injection Hk as Hr Hs. subst. auto. }
  destruct Hst as [Hpos ->]. split; [assumption|].
  unfold fetchExchangeRate.
  rewrite bool_decide_eq_false_2 by assumption.
  unfold saveRateToCache, try_setItem. rewrite Hw.
  unfold cache_write, getRateFromCache. cbn [apply_write rate_cache].
  rewrite lookup_insert_eq. cbn [entry_date entry_rate].
  rewrite bool_decide_eq_true_2 by reflexivity. now rewrite Hfin.
Qed.

(** The call to the model is made unless the shared key is used and the
    day's allowance is spent. *)
Lemma analyzeReceipt_asks st today image :
  negb (has_key (getUserApiKey st)) && negb (isAdmin currentUserEmail)
  && hasReachedDailyLimit st today = false ->
  asks (analyze st today image) = true.
Proof. unfold analyzeReceipt. now intros ->. Qed.

(** C4. Whatever the image, when the call to the model is made and fails
    (it throws, its text is missing or empty, or the text is not JSON),
    [analyzeReceipt] returns the fallback record, with the placeholder
    store and item, the day's date, amount [0], currency ["TWD"] and rate
    [1], and throws nothing. *)
Theorem analyzeReceipt_fallback st today image q k o :
  analyze st today image = Ask q k ->
  analysis_failed JSON_parse o ->
  (forall st1, fst (k o st1) = inr (JObj (fallback today)))
  /\ get "totalAmount" (fallback today) = JNum 0
  /\ get "currency" (fallback today) = JStr (js "TWD")
  /\ get "exchangeRateToTWD" (fallback today) = JNum 1
  /\ get "date" (fallback today) = JStr today
  /\ (exists item, get "items" (fallback today) = JArr [item])
  /\ get "storeName" (fallback today)
     = JStr [26410; 21629; 21517; 28040; 36027]%N.
Proof.
  intros Hask Hfail.
  split; [|repeat split; try reflexivity; eexists; reflexivity].
  revert Hask. unfold analyzeReceipt.
  destruct (_ && hasReachedDailyLimit st today); [discriminate|].
  intros [= _ <-] st1.
  destruct o as [|[text|]]; cbn; try reflexivity.
  destruct Hfail as [-> | Hp]; [reflexivity|].
  destruct (is_empty text); [reflexivity|]. now rewrite Hp.
Qed.

End GatewayFacts.

(** ** Fetching, saving an oversized expense, deleting a trip: the two
    adapters *)

Section TwoAdapters.
Import JsString Types Js Encode.

(** C6, as the code has it.  The Firestore adapter does not retry: when
    the store refuses the document as too large, [saveExpense] alerts the
    user, logs and rethrows, and nothing is stored.  The browser-storage
    adapter retries once: when the list with the new expense is refused
    for lack of quota and the storage is not empty, the list is written
    again with the image of the new expense left out; accepted, the stored
    record has no [receiptImage] property and the user is told the image
    was not saved; refused again, nothing is stored and the user is told
    so.  The browser-storage [saveExpense] throws in neither case. *)
Theorem saveExpense_oversized :
  (forall uid fault auto_id expense docId w,
      get "id" expense = JStr docId ->
      docId <> [] ->
      fault (Firestore.SetDoc Firestore.EXPENSES_COLLECTION docId
               (Firestore.removeUndefined
                  (Firestore.safe_expense uid expense)))
      = Some Firestore.DocumentTooLarge ->
      Firestore.saveExpense (Some uid) fault auto_id expense w
      = (inl Firestore.DocumentTooLarge,
         {| Firestore.db := Firestore.db w;
            Firestore.log :=
              Firestore.log w
              ++ [Firestore.Alert_image_too_large;
                  Firestore.Console_error] |}))
  /\ (forall setItem_throws ls e,
         let stored := LocalStore.getAllExpenses ls in
         let full := expense_to_js e in
         let bare := set_field "receiptImage" JUndefined full in
         setItem_throws ls LocalStore.EXPENSES_KEY (stored ++ [full])
         = Some LocalStore.QuotaError ->
         LocalStore.storage_length ls <> 0%nat ->
         match setItem_throws ls LocalStore.EXPENSES_KEY (stored ++ [bare])
         with
         | None =>
             exists ls',
               LocalStore.saveExpense setItem_throws ls full
               = (ls', [LocalStore.Alert_saved_without_image])
               /\ LocalStore.expenses_item ls'
                  = Some (List.map json_object stored ++ [json_object bare])
               /\ ~ In "receiptImage" (keys (json_object bare))
               /\ LocalStore.trips_item ls' = LocalStore.trips_item ls
         | Some _ =>
             LocalStore.saveExpense setItem_throws ls full
             = (ls, [LocalStore.Alert_not_saved])
         end).
Proof.
  split.
  - intros uid fault auto_id expense docId w Hid Hne Hf.
    now rewrite (saveExpense_refused uid fault auto_id expense docId _ w
                   Hid Hne Hf).
  - intros setItem_throws ls e. apply saveExpense_quota_retry.
Qed.

(** C7, as the code has it.  Signed in, and with the store answering, the
    Firestore [fetchExpensesForTrip] returns the records of exactly the
    expense documents whose [tripId] is the trip and whose [userId] is the
    caller, each once, and, the dates of these documents being dates,
    newest first: each record is dated no earlier than the one after it.
    The world is left as it was.  The browser-storage [getExpensesForTrip]
    does not sort: it returns exactly the stored records whose [tripId] is
    the trip, whoever saved them, each as [migrateExpenses] reads it, in
    the order they are stored. *)
Theorem fetchExpensesForTrip_newest_first :
  (forall uid fault Date_getTime tripId w,
      fault (Firestore.GetDocs Firestore.EXPENSES_COLLECTION) = None ->
      (forall k d,
          Firestore.expenses (Firestore.db w) !! k = Some d ->
          Firestore.expense_of tripId uid d = true ->
          is_Some (Date_getTime (get "date" (Firestore.with_id (k, d))))) ->
      exists l,
        Firestore.fetchExpensesForTrip (Some uid) fault Date_getTime tripId w
        = (inr l, w)
        /\ Permutation l
             (List.map Firestore.with_id
                (List.filter (fun kd => Firestore.expense_of tripId uid kd.2)
                   (map_to_list (Firestore.expenses (Firestore.db w)))))
        /\ (forall e,
               In e l <->
               exists k d,
                 Firestore.expenses (Firestore.db w) !! k = Some d
                 /\ get "tripId" d = JStr tripId
                 /\ get "userId" d = JStr uid
                 /\ e = Firestore.with_id (k, d))
        /\ Sorted (fun a b =>
                     exists ta tb,
                       Date_getTime (get "date" a) = Some ta
                       /\ Date_getTime (get "date" b) = Some tb
                       /\ (tb <= ta)%Z) l)
  /\ (forall ls tripId,
         LocalStore.getExpensesForTrip ls tripId
         = List.map LocalStore.migrate
             (List.filter (fun e => equals_string (get "tripId" e) tripId)
                (from_option (fun x => x) [] (LocalStore.expenses_item ls)))
         /\ (forall e,
                In e (LocalStore.getExpensesForTrip ls tripId) <->
                In e (LocalStore.getAllExpenses ls)
                /\ get "tripId" e = JStr tripId)).
Proof.
  split.
  - intros uid fault Date_getTime tripId w.
    apply fetch_newest_first.
  - intros ls tripId. split; [apply getExpensesForTrip_stored_order|].
    intros e. unfold LocalStore.getExpensesForTrip.
    rewrite List.filter_In. unfold equals_string.
    split; intros [Hin Ht]; (split; [exact Hin|]).
    + destruct (get "tripId" e); try discriminate.
      apply bool_decide_eq_true in Ht. now subst.
    + rewrite Ht. now apply bool_decide_eq_true_2.
Qed.

(** C8, as the code has it.  When the Firestore [deleteTrip] ends without
    error for a signed-in user, on a store whose expense records carry
    their document id as [id], the trip document is gone, the other trip
    documents are as before, every expense document of the trip that the
    user owns is gone, every other expense document, of another trip or of
    another user, is as before, and the user's next fetch for the trip
    returns the empty list; when every expense document that names the
    trip is the user's, no document that names the trip is left.  When the
    browser-storage [deleteTrip] ends
    without throwing, on a storage that holds parsed JSON, no expense of
    the trip is read back, the expenses of every other trip are read back
    as before, and no trip record with the id is left. *)
Theorem deleteTrip_cascade :
  (forall uid fault Date_getTime T w w',
      (forall k d,
          Firestore.expenses (Firestore.db w) !! k = Some d ->
          Firestore.expense_of T uid d = true ->
          get "id" (Firestore.with_id (k, d)) = JStr k) ->
      Firestore.deleteTrip (Some uid) fault Date_getTime T w
      = (inr tt, w') ->
      Firestore.trips (Firestore.db w') !! T = None
      /\ (forall k, k <> T ->
                    Firestore.trips (Firestore.db w') !! k
                    = Firestore.trips (Firestore.db w) !! k)
      /\ (forall k d,
             Firestore.expenses (Firestore.db w) !! k = Some d ->
             Firestore.expense_of T uid d = true ->
             Firestore.expenses (Firestore.db w') !! k = None)
      /\ (forall k d,
             Firestore.expenses (Firestore.db w) !! k = Some d ->
             Firestore.expense_of T uid d = false ->
             Firestore.expenses (Firestore.db w') !! k = Some d)
      /\ (forall k,
             Firestore.expenses (Firestore.db w) !! k = None ->
             Firestore.expenses (Firestore.db w') !! k = None)
      /\ Firestore.fetchExpensesForTrip (Some uid) fault Date_getTime T w'
         = (inr [], w')
      /\ ((forall k d,
              Firestore.expenses (Firestore.db w) !! k = Some d ->
              get "tripId" d = JStr T -> get "userId" d = JStr uid) ->
          forall k d,
            Firestore.expenses (Firestore.db w') !! k = Some d ->
            get "tripId" d <> JStr T))
  /\ (forall setItem_throws ls T ls',
         LocalStore.holds_json ls ->
         LocalStore.deleteTrip setItem_throws ls T = (ls', None) ->
         LocalStore.getExpensesForTrip ls' T = []
         /\ (forall T', T' <> T ->
                        LocalStore.getExpensesForTrip ls' T'
                        = LocalStore.getExpensesForTrip ls T')
         /\ Forall (fun t => get "id" t <> JStr T) (LocalStore.getTrips ls')).
Proof.
  split.
  - intros uid fault Date_getTime T w w' Hkeyed Hdel.
    destruct (deleteTrip_done uid fault Date_getTime T w w' Hkeyed Hdel)
      as (Ht & He & Hf & _).
    split; [rewrite Ht; apply lookup_delete_eq|].
    split; [intros k Hk; rewrite Ht; apply lookup_delete_ne; congruence|].
    split; [intros k d Hk Hs; now rewrite He, Hk, Hs|].
    split; [intros k d Hk Hs; now rewrite He, Hk, Hs|].
    split; [intros k Hk; now rewrite He, Hk|].
    split; [exact Hf|].
    intros Hown k d Hk Etrip. rewrite He in Hk.
    destruct (Firestore.expenses (Firestore.db w) !! k) as [d0|] eqn:E0;
      [|discriminate].
    destruct (Firestore.expense_of T uid d0) eqn:Es; [discriminate|].
    injection Hk as ->.
    unfold Firestore.expense_of in Es.
    rewrite Etrip, (Hown k d E0 Etrip) in Es. cbn in Es.
    rewrite !bool_decide_eq_true_2 in Es by reflexivity. discriminate.
  - intros setItem_throws ls T ls' Hj Hdel.
    destruct (deleteTrip_local setItem_throws ls T ls' Hj Hdel)
      as (_ & H0 & Hother & Htrips).
    split; [exact H0|]. split; [exact Hother|].
    rewrite Htrips, Forall_forall. intros t Ht.
    apply list_elem_of_In, List.filter_In in Ht as [_ Ht].
    intros E. rewrite E in Ht. cbn in Ht.
    now rewrite bool_decide_eq_true_2 in Ht.
Qed.

End TwoAdapters.

(** ** The developments on sample data *)

Section StorageExamples.
Import JsString Types Js Encode Samples.

Lemma getExpensesForTrip_upgrades_legacy_witness :
  exists e',
    LocalStore.getAllExpenses legacy_storage !! 0%nat = Some e'
    /\ get "items" e'
       = JArr [JObj [("name", JStr (js "Coffee"));
                     ("originalName", JStr (js "Coffee"))];
               JObj [("name", JStr (js "Tea"));
                     ("originalName", JStr (js "Tea"))]]
    /\ get "storeName" e' = JStr (js "Cafe")
    /\ In e' (LocalStore.getExpensesForTrip legacy_storage tokyo).
Proof.
  destruct (getExpensesForTrip_upgrades_legacy legacy_storage
              [legacy_record; kyoto_record] 0 legacy_record
              [js "Coffee"; js "Tea"] eq_refl eq_refl eq_refl
              ltac:(discriminate))
    as (e' & H0 & Hitems & Hother & _ & Htrip).
  exists e'. split; [exact H0|]. split; [exact Hitems|].
  split; [exact (Hother "storeName" ltac:(discriminate))|].
  exact (Htrip tokyo eq_refl).
Defined.

(** C3 as stated fails on the Firestore adapter: a document whose
    [items] is [["Coffee", "Tea"]] is fetched with these two strings, not
    with two-field items. *)
Lemma fetch_remote_keeps_legacy_items :
  exists r,
    fst (Firestore.fetchExpensesForTrip (Some alice) answering sample_time
           tokyo legacy_world) = inr [r]
    /\ get "items" r = JArr [JStr (js "Coffee"); JStr (js "Tea")]
    /\ get "items" r
       <> JArr [JObj [("name", JStr (js "Coffee"));
                      ("originalName", JStr (js "Coffee"))];
                JObj [("name", JStr (js "Tea"));
                      ("originalName", JStr (js "Tea"))]].
Proof.
  eexists. split; [vm_compute; reflexivity|].
  split; [reflexivity|]. vm_compute. discriminate.
Qed.

Lemma saveExpense_oversized_witness :
  (exists w,
      Firestore.saveExpense (Some alice) image_too_large next_id
        (expense_to_js expense_with_image) empty_world
      = (inl Firestore.DocumentTooLarge, w)
      /\ Firestore.db w = Firestore.db empty_world)
  /\ (exists ls',
        LocalStore.saveExpense no_room_for_images legacy_storage
          (expense_to_js expense_with_image)
        = (ls', [LocalStore.Alert_saved_without_image])
        /\ ~ In "receiptImage"
               (keys (json_object
                        (set_field "receiptImage" JUndefined
                           (expense_to_js expense_with_image))))).
Proof.
  split.
  - eexists. split.
    + apply (proj1 saveExpense_oversized alice image_too_large next_id
               (expense_to_js expense_with_image) (js "e9") empty_world);
        [reflexivity|discriminate|reflexivity].
    + reflexivity.
  - destruct (proj2 saveExpense_oversized no_room_for_images legacy_storage
                expense_with_image eq_refl ltac:(discriminate))
      as (ls' & Hs & _ & Hk & _).
    exists ls'. split; [exact Hs|exact Hk].
Defined.

(** C6 as stated fails on the Firestore adapter: an expense whose document
    is over the limit because of its image is not written without the
    image, though that document would be accepted; the error is thrown to
    the caller and nothing is stored. *)
Lemma saveExpense_remote_no_retry :
  image_too_large
    (Firestore.SetDoc Firestore.EXPENSES_COLLECTION (js "e9")
       (Firestore.removeUndefined
          (Firestore.safe_expense alice
             (expense_to_js expense_with_image))))
  = Some Firestore.DocumentTooLarge
  /\ image_too_large
       (Firestore.SetDoc Firestore.EXPENSES_COLLECTION (js "e9")
          (Firestore.removeUndefined
             (Firestore.safe_expense alice
                (set_field "receiptImage" JUndefined
                   (expense_to_js expense_with_image)))))
     = None
  /\ Firestore.saveExpense (Some alice) image_too_large next_id
       (expense_to_js expense_with_image) empty_world
     = (inl Firestore.DocumentTooLarge,
        {| Firestore.db := Firestore.db empty_world;
           Firestore.log := [Firestore.Alert_image_too_large;
                             Firestore.Console_error] |}).
Proof. repeat split; vm_compute; reflexivity. Qed.

(** The documents of [shared_world], one by one. *)
Lemma shared_world_documents k d :
  Firestore.expenses (Firestore.db shared_world) !! k = Some d ->
  (k, d) ∈ map_to_list (Firestore.expenses (Firestore.db shared_world)).
Proof. apply elem_of_map_to_list. Qed.

Ltac each_document H :=
  apply shared_world_documents in H; vm_compute in H;
  repeat (apply elem_of_cons in H as [H|H]);
  [injection H as -> ->.. | now apply not_elem_of_nil in H].

Lemma fetchExpensesForTrip_newest_first_witness :
  (exists l,
      Firestore.fetchExpensesForTrip (Some alice) answering sample_time tokyo
        shared_world = (inr l, shared_world)
      /\ List.map (get "id") l = [JStr (js "e4"); JStr (js "e1")]
      /\ Sorted (fun a b =>
                   exists ta tb,
                     sample_time (get "date" a) = Some ta
                     /\ sample_time (get "date" b) = Some tb
                     /\ (tb <= ta)%Z) l)
  /\ List.map (get "id") (LocalStore.getExpensesForTrip dated_storage tokyo)
     = [JStr (js "e1"); JStr (js "e4")].
Proof.
  split.
  - destruct (proj1 fetchExpensesForTrip_newest_first alice answering
                sample_time tokyo shared_world eq_refl)
      as (l & Hl & _ & _ & Hs).
    + intros k d Hk Hsel. each_document Hk;
        first [discriminate Hsel | vm_compute; eauto].
    + exists l. split; [exact Hl|]. split; [|exact Hs].
      apply (f_equal fst) in Hl. vm_compute in Hl. injection Hl as <-.
      reflexivity.
  - rewrite (proj1 (proj2 fetchExpensesForTrip_newest_first dated_storage
                      tokyo)).
    reflexivity.
Defined.

(** C7 as stated fails on the browser-storage adapter: of two expenses of
    the Tokyo trip, [getExpensesForTrip] returns the one of 2 January,
    stored first, before the one of 4 January. *)
Lemma getExpensesForTrip_not_sorted :
  List.map (fun e => (get "id" e, sample_time (get "date" e)))
           (LocalStore.getExpensesForTrip dated_storage tokyo)
  = [(JStr (js "e1"), Some 1704166200000%Z);
     (JStr (js "e4"), Some 1704359700000%Z)]
  /\ ~ Sorted (fun a b =>
                 exists ta tb,
                   sample_time (get "date" a) = Some ta
                   /\ sample_time (get "date" b) = Some tb
                   /\ (tb <= ta)%Z)
              (LocalStore.getExpensesForTrip dated_storage tokyo).
Proof.
  split; [vm_compute; reflexivity|].
  intros Hs. apply Sorted_inv in Hs as [_ Hhd].
  apply HdRel_inv in Hhd as (ta & tb & Ha & Hb & Hle).
  vm_compute in Ha, Hb. injection Ha as <-. injection Hb as <-.
  now apply Hle.
Qed.

Lemma deleteTrip_cascade_witness :
  (let w' := snd (Firestore.deleteTrip (Some alice) answering sample_time
                    tokyo shared_world) in
   Firestore.trips (Firestore.db w') !! tokyo = None
   /\ Firestore.expenses (Firestore.db w') !! js "e1" = None
   /\ Firestore.fetchExpensesForTrip (Some alice) answering sample_time
        tokyo w' = (inr [], w'))
  /\ (exists ls',
        LocalStore.deleteTrip roomy legacy_storage tokyo = (ls', None)
        /\ LocalStore.getExpensesForTrip ls' tokyo = []
        /\ LocalStore.getExpensesForTrip ls' (js "T2")
           = LocalStore.getExpensesForTrip legacy_storage (js "T2")).
Proof.
  split.
  - intros w'.
    destruct (proj1 deleteTrip_cascade alice answering sample_time tokyo
                shared_world w') as (Ht & _ & He & _ & _ & Hf & _).
    + intros k d Hk Hsel. each_document Hk;
        first [discriminate Hsel | reflexivity].
    + vm_compute. reflexivity.
    + split; [exact Ht|]. split; [|exact Hf].
      apply (He (js "e1") (doc (js "e1") tokyo alice
                             (js "2024-01-02T03:30:00.000Z") (JArr [])));
        reflexivity.
  - assert (E : exists ls',
               LocalStore.deleteTrip roomy legacy_storage tokyo = (ls', None))
      by (eexists; reflexivity).
    destruct E as [ls' E]. exists ls'. split; [exact E|].
    destruct (proj2 deleteTrip_cascade roomy legacy_storage tokyo ls')
      as (H0 & Hother & _).
    + split; repeat constructor.
    + exact E.
    + split; [exact H0|]. apply Hother. discriminate.
Defined.

(** C8 as stated fails on the Firestore adapter, also under the rules of
    the README.  Alice deletes her Tokyo trip in a store where an expense
    of Bob names that trip: the call ends without error, the trip document
    and her own expenses of the trip are gone and her next fetch is empty,
    but the expense of Bob, whose [tripId] is the trip, is still stored. *)
Lemma deleteTrip_spares_other_owner :
  let rules := owner_rules alice (Firestore.db shared_world) in
  let w' := snd (Firestore.deleteTrip (Some alice) rules sample_time tokyo
                   shared_world) in
  fst (Firestore.deleteTrip (Some alice) rules sample_time tokyo
         shared_world) = inr tt
  /\ Firestore.trips (Firestore.db w') !! tokyo = None
  /\ Firestore.expenses (Firestore.db w') !! js "e1" = None
  /\ Firestore.expenses (Firestore.db w') !! js "e4" = None
  /\ fst (Firestore.fetchExpensesForTrip (Some alice) rules sample_time
            tokyo w') = inr []
  /\ (fun d => (get "tripId" d, get "userId" d))
       <$> Firestore.expenses (Firestore.db w') !! js "e2"
     = Some (JStr tokyo, JStr bob).
Proof. repeat split; vm_compute; reflexivity. Qed.

(** Under these rules the store refuses a user who deletes a trip of
    somebody else, and nothing is deleted. *)
Lemma deleteTrip_refused_by_rules :
  Firestore.deleteTrip (Some bob)
    (owner_rules bob (Firestore.db alice_world)) sample_time tokyo
    alice_world
  = (inl Firestore.RemoteError,
     {| Firestore.db := Firestore.db alice_world;
        Firestore.log := [Firestore.Console_error] |}).
Proof. vm_compute. reflexivity. Qed.

(** The records must carry their document id.  In a store of Alice alone
    where the expense document [k7] of the Tokyo trip holds the [id] of
    her Kyoto expense [e3], deleting the Tokyo trip ends without error,
    deletes the Kyoto expense and leaves the Tokyo one, which the next
    fetch for the trip returns. *)
Lemma deleteTrip_needs_document_ids :
  let rules := owner_rules alice (Firestore.db mislabelled_world) in
  let w' := snd (Firestore.deleteTrip (Some alice) rules sample_time tokyo
                   mislabelled_world) in
  fst (Firestore.deleteTrip (Some alice) rules sample_time tokyo
         mislabelled_world) = inr tt
  /\ get "tripId" <$> Firestore.expenses (Firestore.db mislabelled_world)
                        !! js "e3"
     = Some (JStr (js "T2"))
  /\ Firestore.expenses (Firestore.db w') !! js "e3" = None
  /\ get "tripId" <$> Firestore.expenses (Firestore.db w') !! js "k7"
     = Some (JStr tokyo)
  /\ fst (Firestore.fetchExpensesForTrip (Some alice) rules sample_time
            tokyo w')
     = inr [Firestore.with_id
              (js "k7", doc (js "e3") tokyo alice
                          (js "2024-01-02T03:30:00.000Z") (JArr []))].
Proof. repeat split; vm_compute; reflexivity. Qed.

End StorageExamples.

Section GatewayExamples.
Import JsString Js Gemini Samples.

Lemma analyzeReceipt_fallback_witness :
  exists q k,
    analyzeReceipt accepts_writes no_json None (js "shared-key")
      fresh_storage today (js "data:image/png;base64,AAAA") = Ask q k
    /\ fst (k ModelThrows fresh_storage) = inr (JObj (fallback today))
    /\ fst (k (ModelResponse None) fresh_storage)
       = inr (JObj (fallback today))
    /\ fst (k (ModelResponse (Some (js "<html>"))) fresh_storage)
       = inr (JObj (fallback today)).
Proof.
  do 2 eexists. split; [reflexivity|].
  pose proof (fun o =>
                analyzeReceipt_fallback accepts_writes no_json None
                  (js "shared-key") fresh_storage today
                  (js "data:image/png;base64,AAAA") _ _ o eq_refl) as H.
  split; [exact (proj1 (H ModelThrows I) fresh_storage)|].
  split; [exact (proj1 (H (ModelResponse None) I) fresh_storage)|].
  exact (proj1 (H (ModelResponse (Some (js "<html>")))
                  (or_intror eq_refl)) fresh_storage).
Defined.

Lemma fetchExchangeRate_failure_not_cached_witness :
  exists q k,
    fetchExchangeRate upper_ascii parse_sample accepts_writes fresh_storage
      today usd = Ask q k
    /\ fst (k (ModelResponse (Some (js "about 0 today"))) fresh_storage)
       = {| rate := 1; source := js "Failed" |}
    /\ snd (k (ModelResponse (Some (js "about 0 today"))) fresh_storage)
       = fresh_storage
    /\ asks (fetchExchangeRate upper_ascii parse_sample accepts_writes
               (snd (k (ModelResponse (Some (js "about 0 today")))
                       fresh_storage))
               today usd) = true.
Proof.
  do 2 eexists. split; [reflexivity|].
  destruct (fetchExchangeRate_failure_not_cached upper_ascii parse_sample
              accepts_writes fresh_storage today usd _ _
              (ModelResponse (Some (js "about 0 today"))) eq_refl)
    as (Hres & Hagain).
  - cbn. repeat constructor.
  - split; [reflexivity|].
    split; [exact (proj2 (proj2 (Hres fresh_storage)))|].
    now rewrite Hagain.
Defined.

Lemma fetchExchangeRate_second_call_cached_witness :
  exists q k st',
    fetchExchangeRate upper_ascii parse_sample accepts_writes fresh_storage
      today usd = Ask q k
    /\ k (ModelResponse (Some (js "32.5"))) fresh_storage
       = ({| rate := 32.5; source := js "Google Search" |}, st')
    /\ fetchExchangeRate upper_ascii parse_sample accepts_writes st' today
         usd
       = Done {| rate := 32.5; source := js "Cache (Today)" |}.
Proof.
  do 3 eexists. split; [reflexivity|]. split; [reflexivity|].
  refine (proj2 (fetchExchangeRate_second_call_cached upper_ascii
                   parse_sample accepts_writes fresh_storage today usd _ _
                   (ModelResponse (Some (js "32.5"))) fresh_storage 32.5 _
                   eq_refl eq_refl eq_refl eq_refl)).
Defined.

(** C5 as stated fails when the browser refuses the write of the cache: the
    first call obtains 32.5 from the lookup, and the second call on the same
    day makes the lookup again. *)
Lemma fetchExchangeRate_refused_write_not_cached :
  exists q k st',
    fetchExchangeRate upper_ascii parse_sample refuses_writes fresh_storage
      today usd = Ask q k
    /\ k (ModelResponse (Some (js "32.5"))) fresh_storage
       = ({| rate := 32.5; source := js "Google Search" |}, st')
    /\ asks (fetchExchangeRate upper_ascii parse_sample refuses_writes st'
               today usd) = true.
Proof.
  do 3 eexists. split; [reflexivity|]. split; reflexivity.
Qed.

End GatewayExamples.

Section ItemsExamples.
Import JsString Types AddExpenseModal Samples.

Lemma parse_format_items_witness :
  formatItemsToString items_juice
  = js "Apple Juice || " ++ [34315; 26524; 27713]%N
    ++ [10%N] ++ js "Sandwich"
  /\ parseStringToItems (formatItemsToString items_juice) = items_juice.
Proof.
  split; [reflexivity|].
  apply (proj1 (parse_format_items items_juice
                  ltac:(repeat constructor))).
Defined.

End ItemsExamples.

(** ** Browser storage: what the writes keep, lose and report *)

Section JsonFacts.
Import JsString Js.

(** Induction on values, through the elements of arrays and the property
    values of objects. *)
Lemma JsVal_nested_ind (P : JsVal -> Prop) :
  P JUndefined -> P JNull -> (forall b, P (JBool b)) ->
  (forall x, P (JNum x)) -> (forall s, P (JStr s)) ->
  (forall xs, Forall P xs -> P (JArr xs)) ->
  (forall fields, Forall (fun kv => P kv.2) fields -> P (JObj fields)) ->
  forall v, P v.
Proof.
  intros Hu Hn Hb Hx Hs Ha Ho.
  fix IH 1. intros [| |b|x|s|xs|fields].
  - exact Hu.
  - exact Hn.
  - apply Hb.
  - apply Hx.
  - apply Hs.
  - apply Ha. induction xs as [|y ys IHys]; constructor;
      [apply IH|exact IHys].
  - apply Ho. induction fields as [|[k y] fs IHfs]; constructor;
      [apply IH|exact IHfs].
Qed.

Lemma json_obj o : json (JObj o) = JObj (json_object o).
Proof. reflexivity. Qed.

Lemma json_defined v : is_undefined (json v) = false.
Proof.
  destruct v; cbn; try reflexivity. now destruct (JsNumber.is_finite x).
Qed.

Lemma json_num_idempotent x : json (json (JNum x)) = json (JNum x).
Proof.
  cbn [json]. destruct (JsNumber.is_finite x) eqn:Ef; [|reflexivity].
  destruct (PrimFloat.is_zero x) eqn:Ez; cbn [json].
  - reflexivity.
  - now rewrite Ef, Ez.
Qed.

(** Serialising what was read from JSON gives it back: writing a list and
    reading it again is idempotent. *)
Lemma json_idempotent v : json (json v) = json v.
Proof.
  induction v as [| |b|x|s|xs IH|fields IH] using JsVal_nested_ind;
    try reflexivity.
  - apply json_num_idempotent.
  - cbn [json]. f_equal. rewrite List.map_map.
    induction IH as [|y ys Hy _ IHys]; [reflexivity|].
    cbn [List.map]. now rewrite Hy, IHys.
  - rewrite !json_obj. f_equal.
    induction IH as [|[k y] fs Hy _ IHfs]; [reflexivity|].
    rewrite json_object_cons. destruct (is_undefined y) eqn:Eu; [exact IHfs|].
    rewrite json_object_cons, json_defined. cbn in Hy. now rewrite Hy, IHfs.
Qed.

Lemma json_object_idempotent o : json_object (json_object o) = json_object o.
Proof.
  pose proof (json_idempotent (JObj o)) as H. rewrite !json_obj in H.
  now injection H.
Qed.

End JsonFacts.

Section LocalStoreMore.
Import JsString Types Js Encode LocalStore.

Variable setItem_throws : Storage -> Key -> list JsObject -> option Thrown.

Local Abbreviation saveExpenseL := (LocalStore.saveExpense setItem_throws).
Local Abbreviation updateExpenseL := (LocalStore.updateExpense setItem_throws).
Local Abbreviation deleteExpenseL := (LocalStore.deleteExpense setItem_throws).
Local Abbreviation deleteTripL := (LocalStore.deleteTrip setItem_throws).
Local Abbreviation saveTripL := (LocalStore.saveTrip setItem_throws).

(** Reading, serialising and reading again gives what was read. *)
Lemma reread_stored ls :
  holds_json ls ->
  List.map migrate (List.map json_object (getAllExpenses ls))
  = getAllExpenses ls.
Proof.
  intros [_ Hexp]. unfold getAllExpenses, migrateExpenses.
  induction Hexp as [|o raw Ho _ IH]; [reflexivity|].
  cbn [List.map]. rewrite IH.
  now rewrite (migrate_json_fixed o Ho), migrate_idempotent.
Qed.

Lemma getAllExpenses_put ls v :
  getAllExpenses (put EXPENSES_KEY (List.map json_object v) ls)
  = List.map migrate (List.map json_object v).
Proof. reflexivity. Qed.

Lemma getAllExpenses_written ls v :
  holds_json ls ->
  getAllExpenses
    (put EXPENSES_KEY (List.map json_object (getAllExpenses ls ++ v)) ls)
  = getAllExpenses ls ++ List.map migrate (List.map json_object v).
Proof.
  intros Hj. rewrite getAllExpenses_put, !List.map_app.
  now rewrite (reread_stored ls Hj).
Qed.

(** X7. [saveExpense] never loses what is stored and never throws:
    whatever the browser does with the writes, the trips are untouched
    and the expenses read afterwards are those read before, in order,
    followed by at most one record, the new expense as serialised, with or
    without its image. *)
Theorem saveExpense_keeps_stored ls expense :
  holds_json ls ->
  let ls' := fst (saveExpenseL ls expense) in
  trips_item ls' = trips_item ls
  /\ exists added,
      getAllExpenses ls' = getAllExpenses ls ++ added
      /\ (added = []
          \/ added = [migrate (json_object expense)]
          \/ added
             = [migrate
                  (json_object
                     (set_field "receiptImage" JUndefined expense))]).
Proof.
  intros Hj. unfold LocalStore.saveExpense, setItem.
  destruct (setItem_throws ls EXPENSES_KEY (_ ++ [expense])) as [e|].
  - destruct (isQuotaExceeded e ls).
    + destruct (setItem_throws ls EXPENSES_KEY _) as [e2|]; cbn [fst].
      * split; [reflexivity|]. exists []. now rewrite app_nil_r; auto.
      * split; [reflexivity|]. eexists. split.
        -- apply (getAllExpenses_written ls _ Hj).
        -- cbn. auto.
    + cbn. split; [reflexivity|]. exists []. rewrite app_nil_r; auto.
  - cbn [fst]. split; [reflexivity|]. eexists. split.
    + apply (getAllExpenses_written ls _ Hj).
    + cbn. auto.
Qed.

Lemma item_to_js_json its :
  List.map json (List.map item_to_js its) = List.map item_to_js its.
Proof. induction its as [|i its IH]; [reflexivity|]. cbn. now rewrite IH. Qed.

(** The first five properties of a typed expense as stored. *)
Lemma stored_expense_head e :
  exists rest,
    json_object (expense_to_js e)
    = ("id", JStr (id e)) :: ("tripId", JStr (tripId e))
      :: ("storeName", JStr (storeName e)) :: ("date", JStr (date e))
      :: ("items", JArr (List.map item_to_js (items e))) :: rest.
Proof.
  unfold expense_to_js. rewrite !json_object_cons. cbn [is_undefined json].
  rewrite item_to_js_json. eexists. reflexivity.
Qed.

Lemma migrate_stored_expense e :
  migrate (json_object (expense_to_js e)) = json_object (expense_to_js e).
Proof.
  destruct (stored_expense_head e) as (rest & ->).
  unfold migrate. cbn [get].
  repeat (rewrite bool_decide_eq_false_2 by discriminate).
  rewrite bool_decide_eq_true_2 by reflexivity.
  destruct (items e); reflexivity.
Qed.

(** X8. An expense that is stored is read back: when the browser accepts
    the write, the expense is the last of those read for its trip, as
    JSON keeps it (with its id, trip and items), the expenses read for
    every other trip are as before, and the user is shown nothing. *)
Theorem saveExpense_read_back ls e :
  holds_json ls ->
  setItem_throws ls EXPENSES_KEY (getAllExpenses ls ++ [expense_to_js e])
  = None ->
  exists ls',
    saveExpenseL ls (expense_to_js e) = (ls', [])
    /\ getExpensesForTrip ls' (tripId e)
       = getExpensesForTrip ls (tripId e) ++ [json_object (expense_to_js e)]
    /\ (forall T, T <> tripId e ->
                  getExpensesForTrip ls' T = getExpensesForTrip ls T)
    /\ get "id" (json_object (expense_to_js e)) = JStr (id e)
    /\ get "items" (json_object (expense_to_js e))
       = JArr (List.map item_to_js (items e)).
Proof.
  intros Hj Hw. unfold LocalStore.saveExpense, setItem. rewrite Hw.
  eexists. split; [reflexivity|].
  assert (Hall : getAllExpenses
                   (put EXPENSES_KEY
                      (List.map json_object
                         (getAllExpenses ls ++ [expense_to_js e])) ls)
                 = getAllExpenses ls ++ [json_object (expense_to_js e)]).
  { rewrite (getAllExpenses_written ls _ Hj). cbn [List.map].
    now rewrite migrate_stored_expense. }
  destruct (stored_expense_head e) as (rest & Hhead).
  assert (Htrip : get "tripId" (json_object (expense_to_js e))
                  = JStr (tripId e)).
  { rewrite Hhead. cbn [get].
    rewrite bool_decide_eq_false_2 by discriminate.
    now rewrite bool_decide_eq_true_2 by reflexivity. }
  unfold getExpensesForTrip. rewrite Hall.
  split; [|split; [|split]].
  - rewrite List.filter_app. cbn [List.filter]. rewrite Htrip.
    cbn [equals_string]. now rewrite bool_decide_eq_true_2 by reflexivity.
  - intros T HT. rewrite List.filter_app. cbn [List.filter]. rewrite Htrip.
    cbn [equals_string]. rewrite bool_decide_eq_false_2 by congruence.
    apply app_nil_r.
  - rewrite Hhead. cbn [get].
    now rewrite bool_decide_eq_true_2 by reflexivity.
  - rewrite Hhead. cbn [get].
    repeat (rewrite bool_decide_eq_false_2 by discriminate).
    now rewrite bool_decide_eq_true_2 by reflexivity.
Qed.

Lemma replace_by_id_length u es :
  length (replace_by_id u es) = length es.
Proof. apply List.length_map. Qed.

Lemma replace_by_id_absent u es :
  Forall (fun e => strict_equals (get "id" e) (get "id" u) = false) es ->
  replace_by_id u es = es.
Proof.
  intros H. unfold replace_by_id.
  induction H as [|e es He _ IH]; [reflexivity|].
  cbn [List.map]. now rewrite He, IH.
Qed.

(** X10. [updateExpense] never adds and never removes a record.  Whatever
    the browser does with the writes, as many expenses are read after it
    as before and the trips are untouched; and when no stored expense has
    the id of the one passed, the expenses read are exactly those read
    before: the new data is not stored. *)
Theorem updateExpense_never_adds ls updated :
  holds_json ls ->
  let ls' := fst (updateExpenseL ls updated) in
  length (getAllExpenses ls') = length (getAllExpenses ls)
  /\ trips_item ls' = trips_item ls
  /\ (Forall (fun e => strict_equals (get "id" e) (get "id" updated)
                       = false)
             (getAllExpenses ls) ->
      getAllExpenses ls' = getAllExpenses ls).
Proof.
  intros Hj. unfold LocalStore.updateExpense, setItem.
  assert (Hlen : forall u,
             length (getAllExpenses
                       (put EXPENSES_KEY
                          (List.map json_object
                             (replace_by_id u (getAllExpenses ls))) ls))
             = length (getAllExpenses ls)).
  { intros u. rewrite getAllExpenses_put, !List.length_map.
    apply replace_by_id_length. }
  assert (Habs : forall u,
             Forall (fun e => strict_equals (get "id" e) (get "id" u)
                              = false) (getAllExpenses ls) ->
             getAllExpenses
               (put EXPENSES_KEY
                  (List.map json_object
                     (replace_by_id u (getAllExpenses ls))) ls)
             = getAllExpenses ls).
  { intros u Hu. rewrite getAllExpenses_put, (replace_by_id_absent u _ Hu).
    now apply reread_stored. }
  destruct (setItem_throws ls EXPENSES_KEY
              (replace_by_id updated (getAllExpenses ls))) as [e|].
  - destruct (isQuotaExceeded e ls); [|now cbn].
    destruct (truthy (get "receiptImage" updated)); [|now cbn].
    destruct (setItem_throws ls EXPENSES_KEY _) as [e2|]; [now cbn|].
    cbn [fst]. split; [apply Hlen|]. split; [reflexivity|].
    intros Hu. apply Habs.
    rewrite get_set_field_ne by discriminate. exact Hu.
  - cbn [fst]. split; [apply Hlen|]. split; [reflexivity|]. apply Habs.
Qed.

(** X11. An accepted update replaces every stored record that has the id
    of the expense and no other: the expenses then read are those read
    before, in the same places, with each record whose [id] is that
    string replaced by the expense as JSON keeps it. *)
Theorem updateExpense_replaces ls e :
  holds_json ls ->
  setItem_throws ls EXPENSES_KEY
    (replace_by_id (expense_to_js e) (getAllExpenses ls)) = None ->
  exists ls',
    updateExpenseL ls (expense_to_js e) = (ls', [])
    /\ getAllExpenses ls'
       = List.map
           (fun old => if equals_string (get "id" old) (id e)
                       then json_object (expense_to_js e) else old)
           (getAllExpenses ls).
Proof.
  intros Hj Hw. unfold LocalStore.updateExpense, setItem. rewrite Hw.
  eexists. split; [reflexivity|].
  rewrite getAllExpenses_put. unfold replace_by_id.
  rewrite !List.map_map.
  rewrite <- (reread_stored ls Hj) at 2. rewrite !List.map_map.
  apply List.map_ext_in. intros old Hold.
  assert (Hfix : migrate (json_object old) = old).
  { pose proof (reread_stored ls Hj) as Hr. rewrite List.map_map in Hr.
    apply list_elem_of_In, list_elem_of_lookup in Hold as [i Hi].
    apply (f_equal (fun l => l !! i)) in Hr.
    change (List.map ?f ?l) with (f <$> l) in Hr.
    rewrite list_lookup_fmap, Hi in Hr. now injection Hr. }
  change (get "id" (expense_to_js e)) with (JStr (id e)).
  rewrite Hfix.
  destruct (get "id" old) as [| |b|x|s|xs|fs]; cbn; try exact Hfix.
  case_bool_decide; [apply migrate_stored_expense|exact Hfix].
Qed.

(** X12. [deleteExpense] removes every stored record with the id and only
    those.  When the browser accepts the write, no expense read
    afterwards has the id, the others are read as before and in order,
    and the trips are untouched; when it refuses, the error is thrown to
    the caller and nothing has changed. *)
Theorem deleteExpense_local ls id0 :
  holds_json ls ->
  let kept :=
    List.filter (fun e => negb (equals_string (get "id" e) id0))
                (getAllExpenses ls) in
  match setItem_throws ls EXPENSES_KEY kept with
  | Some err => deleteExpenseL ls id0 = (ls, Some err)
  | None =>
      exists ls',
        deleteExpenseL ls id0 = (ls', None)
        /\ getAllExpenses ls' = kept
        /\ Forall (fun e => get "id" e <> JStr id0) (getAllExpenses ls')
        /\ trips_item ls' = trips_item ls
  end.
Proof.
  intros Hj kept. unfold LocalStore.deleteExpense, setItem. fold kept.
  destruct (setItem_throws ls EXPENSES_KEY kept) as [err|]; [reflexivity|].
  eexists. split; [reflexivity|].
  assert (Hk : getAllExpenses
                 (put EXPENSES_KEY (List.map json_object kept) ls) = kept).
  { rewrite getAllExpenses_put. subst kept.
    pose proof (reread_stored ls Hj) as Hr.
    induction (getAllExpenses ls) as [|o l IH]; [reflexivity|].
    cbn [List.map] in Hr. injection Hr as Ho Hl.
    cbn [List.filter]. destruct (negb _); cbn [List.map].
    - now rewrite Ho, (IH Hl).
    - exact (IH Hl). }
  rewrite Hk. split; [reflexivity|]. split; [|reflexivity].
  apply Forall_forall. intros o Ho.
  apply list_elem_of_In, List.filter_In in Ho as [_ Ho].
  intros E. rewrite E in Ho. cbn in Ho.
  now rewrite bool_decide_eq_true_2 in Ho.
Qed.

(** X13. [deleteTrip] is not atomic.  When the browser accepts the write of
    the trips and refuses the write of the expenses, the error is thrown
    after the trip is gone: no trip with the id is left, and every expense
    of the trip is still stored and read back. *)
Theorem deleteTrip_local_orphans ls T err :
  holds_json ls ->
  let trips' :=
    List.filter (fun t => negb (equals_string (get "id" t) T))
                (getTrips ls) in
  let ls1 := put TRIPS_KEY (List.map json_object trips') ls in
  setItem_throws ls TRIPS_KEY trips' = None ->
  setItem_throws ls1 EXPENSES_KEY
    (List.filter (fun e => negb (equals_string (get "tripId" e) T))
                 (getAllExpenses ls))
  = Some err ->
  deleteTripL ls T = (ls1, Some err)
  /\ Forall (fun t => get "id" t <> JStr T) (getTrips ls1)
  /\ getAllExpenses ls1 = getAllExpenses ls
  /\ getExpensesForTrip ls1 T = getExpensesForTrip ls T.
Proof.
  intros [Htrips _] trips' ls1 H1 H2.
  unfold LocalStore.deleteTrip, setItem. fold trips'. rewrite H1. fold ls1.
  change (getAllExpenses ls1) with (getAllExpenses ls). rewrite H2.
  split; [reflexivity|]. split; [|split; reflexivity].
  assert (Hfix : List.map json_object trips' = trips').
  { apply map_json_fixed. subst trips'.
    apply Forall_forall. intros t Ht.
    apply list_elem_of_In, List.filter_In in Ht as [Ht _].
    rewrite Forall_forall in Htrips. now apply Htrips, list_elem_of_In. }
  change (getTrips ls1) with (List.map json_object trips'). rewrite Hfix.
  apply Forall_forall. intros t Ht.
  apply list_elem_of_In, List.filter_In in Ht as [_ Ht].
  intros E. rewrite E in Ht. cbn in Ht.
  now rewrite bool_decide_eq_true_2 in Ht.
Qed.

(** X14. A failed write that is not taken for a quota failure is only
    logged.  When [setItem] throws anything but a quota error, or throws a
    quota error while the storage holds no item at all, [saveTrip],
    [saveExpense] and [updateExpense] store nothing, do not retry and
    show the user nothing: the only trace is one console error. *)
Theorem save_failure_only_logged ls x err :
  err = OtherError \/ storage_length ls = 0%nat ->
  (setItem_throws ls TRIPS_KEY (getTrips ls ++ [x]) = Some err ->
   saveTripL ls x = (ls, [Console_error]))
  /\ (setItem_throws ls EXPENSES_KEY (getAllExpenses ls ++ [x]) = Some err ->
      saveExpenseL ls x = (ls, [Console_error]))
  /\ (setItem_throws ls EXPENSES_KEY (replace_by_id x (getAllExpenses ls))
      = Some err ->
      updateExpenseL ls x = (ls, [Console_error])).
Proof.
  intros H.
  assert (Hq : isQuotaExceeded err ls = false).
  { destruct H as [-> | H0]; [reflexivity|].
    destruct err; [|reflexivity]. cbn. now rewrite H0. }
  unfold LocalStore.saveTrip, LocalStore.saveExpense,
    LocalStore.updateExpense, setItem.
  repeat split; intros ->; now rewrite Hq.
Qed.

Lemma migrate_items_present e :
  truthy (get "items" (migrate e)) = true
  /\ legacy_items (get "items" (migrate e)) = false.
Proof.
  unfold migrate. destruct (legacy_items (get "items" e)) eqn:El.
  - rewrite get_set_field_eq. split; [reflexivity|].
    destruct (get "items" e) as [| | | | |[|x xs]|]; try discriminate El.
    reflexivity.
  - destruct (truthy (get "items" e)) eqn:Et; cbn [negb].
    + now split.
    + now rewrite get_set_field_eq.
Qed.

(** X6. No expense is read without items or with legacy items: in every
    record [getAllExpenses] and [getExpensesForTrip] return, whatever
    the storage holds, [items] is a truthy value (never missing, [null]
    or empty text) and is not an array that starts with a string. *)
Theorem getAllExpenses_items_present ls tripId :
  Forall (fun e => truthy (get "items" e) = true
                   /\ legacy_items (get "items" e) = false)
         (getAllExpenses ls)
  /\ Forall (fun e => truthy (get "items" e) = true
                      /\ legacy_items (get "items" e) = false)
            (getExpensesForTrip ls tripId).
Proof.
  assert (H : Forall (fun e => truthy (get "items" e) = true
                               /\ legacy_items (get "items" e) = false)
                (getAllExpenses ls)).
  { unfold getAllExpenses, migrateExpenses. apply Forall_forall.
    intros e He. apply list_elem_of_In, List.in_map_iff in He as (o & <- & _).
    apply migrate_items_present. }
  split; [exact H|].
  unfold getExpensesForTrip. apply Forall_forall. intros e He.
  apply list_elem_of_In, List.filter_In in He as [He _].
  rewrite Forall_forall in H. now apply H, list_elem_of_In.
Qed.

(** *** Saving and deleting, one after the other *)

Lemma holds_json_put_expenses ls v :
  holds_json ls -> holds_json (put EXPENSES_KEY (List.map json_object v) ls).
Proof.
  intros [Ht _]. split; [exact Ht|]. cbn.
  apply Forall_forall. intros o Ho.
  apply list_elem_of_In, List.in_map_iff in Ho as (o0 & <- & _).
  apply json_object_idempotent.
Qed.

Lemma filter_other_ids id0 (l : list JsObject) :
  Forall (fun old => get "id" old <> JStr id0) l ->
  List.filter (fun e => negb (equals_string (get "id" e) id0)) l = l.
Proof.
  intros H. induction H as [|o l Ho _ IH]; [reflexivity|].
  cbn [List.filter].
  assert (E : equals_string (get "id" o) id0 = false).
  { destruct (get "id" o); try reflexivity. cbn.
    apply bool_decide_eq_false_2. congruence. }
  now rewrite E, IH.
Qed.

(** X9. Saving an expense under a new id and deleting it again restores
    what is read.  On a storage that holds JSON, in a browser that accepts
    the writes, when no stored expense has the id of the new one,
    [saveExpense] followed by [deleteExpense] of that id leaves exactly
    the expenses and the trips that were read before. *)
Theorem saveExpense_deleteExpense ls e :
  holds_json ls ->
  (forall s k v, setItem_throws s k v = None) ->
  Forall (fun old => get "id" old <> JStr (id e)) (getAllExpenses ls) ->
  exists ls1 ls2,
    saveExpenseL ls (expense_to_js e) = (ls1, [])
    /\ deleteExpenseL ls1 (id e) = (ls2, None)
    /\ getAllExpenses ls2 = getAllExpenses ls
    /\ trips_item ls2 = trips_item ls.
Proof.
  intros Hj Hw Hfresh.
  unfold LocalStore.saveExpense, LocalStore.deleteExpense, setItem.
  rewrite Hw. eexists. eexists. split; [reflexivity|].
  rewrite Hw. split; [reflexivity|]. split; [|reflexivity].
  rewrite getAllExpenses_put.
  rewrite (getAllExpenses_written ls _ Hj). cbn [List.map].
  rewrite migrate_stored_expense, List.filter_app.
  rewrite (filter_other_ids _ _ Hfresh). cbn [List.filter].
  destruct (stored_expense_head e) as (rest & Hhead).
  rewrite Hhead at 1. cbn [get].
  rewrite bool_decide_eq_true_2 by reflexivity. cbn [equals_string].
  rewrite bool_decide_eq_true_2 by reflexivity. cbn [negb].
  rewrite app_nil_r. now apply reread_stored.
Qed.

Lemma holds_json_put_trips ls v :
  holds_json ls -> holds_json (put TRIPS_KEY (List.map json_object v) ls).
Proof.
  intros [_ He]. split; [|exact He]. cbn.
  apply Forall_forall. intros o Ho.
  apply list_elem_of_In, List.in_map_iff in Ho as (o0 & <- & _).
  apply json_object_idempotent.
Qed.

Lemma filter_other_field k id0 (l : list JsObject) :
  Forall (fun old => get k old <> JStr id0) l ->
  List.filter (fun e => negb (equals_string (get k e) id0)) l = l.
Proof.
  intros H. induction H as [|o l Ho _ IH]; [reflexivity|].
  cbn [List.filter].
  assert (E : equals_string (get k o) id0 = false).
  { destruct (get k o); try reflexivity. cbn.
    apply bool_decide_eq_false_2. congruence. }
  now rewrite E, IH.
Qed.

(** X15. [saveTrip] appends or does nothing, and [deleteTrip] undoes it.
    When the browser accepts the write the trips read afterwards are those
    read before followed by the new trip as JSON keeps it; when it
    refuses, the storage is as before and the user is shown one alert or
    the console one error.  The expenses are untouched either way and
    nothing is thrown.  In a browser that accepts the writes, when no
    stored trip has the id of the new one and no stored expense names it,
    deleting the trip just saved leaves the trips and the expenses that
    were read before. *)
Theorem saveTrip_local ls trip :
  holds_json ls ->
  match setItem_throws ls TRIPS_KEY (getTrips ls ++ [trip]) with
  | None =>
      exists ls',
        saveTripL ls trip = (ls', [])
        /\ getTrips ls' = getTrips ls ++ [json_object trip]
        /\ expenses_item ls' = expenses_item ls
        /\ (forall tid,
               get "id" (json_object trip) = JStr tid ->
               Forall (fun t => get "id" t <> JStr tid) (getTrips ls) ->
               Forall (fun e => get "tripId" e <> JStr tid)
                      (getAllExpenses ls) ->
               (forall s k v, setItem_throws s k v = None) ->
               exists ls'',
                 deleteTripL ls' tid = (ls'', None)
                 /\ getTrips ls'' = getTrips ls
                 /\ getAllExpenses ls'' = getAllExpenses ls)
  | Some err =>
      saveTripL ls trip
      = (ls, [if isQuotaExceeded err ls then Alert_trip_not_saved
              else Console_error])
  end.
Proof.
  intros Hj. pose proof Hj as [Htrips _].
  unfold LocalStore.saveTrip, setItem.
  destruct (setItem_throws ls TRIPS_KEY _) as [err|].
  - now destruct (isQuotaExceeded err ls).
  - set (ls' := put TRIPS_KEY _ ls).
    assert (Hall : getTrips ls' = getTrips ls ++ [json_object trip]).
    { change (getTrips ls')
        with (List.map json_object (getTrips ls ++ [trip])).
      rewrite List.map_app. now rewrite (map_json_fixed _ Htrips). }
    exists ls'. split; [reflexivity|]. split; [exact Hall|].
    split; [reflexivity|].
    intros tid Hid Hfresh Hnone Hw.
    assert (E : exists ls'', deleteTripL ls' tid = (ls'', None)).
    { unfold LocalStore.deleteTrip, setItem. rewrite !Hw. eauto. }
    destruct E as [ls'' E]. exists ls''. split; [exact E|].
    destruct (deleteTrip_local setItem_throws ls' tid ls''
                (holds_json_put_trips ls _ Hj) E) as (He & _ & _ & Ht).
    split.
    + rewrite Ht, Hall, List.filter_app, (filter_other_field _ _ _ Hfresh).
      cbn [List.filter]. rewrite Hid. cbn [equals_string].
      rewrite bool_decide_eq_true_2 by reflexivity. apply app_nil_r.
    + rewrite He. change (getAllExpenses ls') with (getAllExpenses ls).
      now apply filter_other_field.
Qed.

End LocalStoreMore.

(** ** The Firestore adapter: documents written, trips, failures *)

Section RemoveUndefined.
Import JsString Js Encode Firestore.

Lemma removeUndefined_cons k v o :
  removeUndefined ((k, v) :: o)
  = if is_undefined v then removeUndefined o else (k, v) :: removeUndefined o.
Proof. unfold removeUndefined. cbn. now destruct (is_undefined v). Qed.

Lemma is_undefined_spec v : is_undefined v = true <-> v = JUndefined.
Proof. destruct v; cbn; split; congruence. Qed.

Lemma removeUndefined_defined obj :
  Forall (fun kv => kv.2 <> JUndefined) (removeUndefined obj).
Proof.
  apply Forall_forall. intros [k v] H.
  apply list_elem_of_In, List.filter_In in H as [_ H]. cbn in *.
  intros ->. discriminate H.
Qed.

Lemma get_removeUndefined k obj :
  get k obj <> JUndefined -> get k (removeUndefined obj) = get k obj.
Proof.
  induction obj as [|[k' v] obj IH]; [reflexivity|].
  rewrite removeUndefined_cons. cbn [get].
  case_bool_decide as E.
  - intros Hv. destruct (is_undefined v) eqn:Eu.
    + apply is_undefined_spec in Eu. congruence.
    + cbn [get]. now rewrite bool_decide_eq_true_2.
  - intros Hv. destruct (is_undefined v); [now apply IH|].
    cbn [get]. rewrite bool_decide_eq_false_2 by assumption. now apply IH.
Qed.

Lemma get_not_in_keys k o : ~ In k (keys o) -> get k o = JUndefined.
Proof.
  intros H. destruct (get k o) eqn:E; try reflexivity;
    exfalso; apply H, get_in_keys; congruence.
Qed.

Lemma keys_removeUndefined k obj :
  In k (keys (removeUndefined obj)) -> In k (keys obj).
Proof.
  unfold keys, removeUndefined. rewrite !List.in_map_iff.
  intros (kv & <- & H). apply List.filter_In in H as [H _]. eauto.
Qed.

(** X16. [removeUndefined] drops the properties that hold [undefined] and
    nothing else: no property of the result holds [undefined], every
    property with a value keeps it, so that on an object (no property name
    twice) every read gives what it gave before; and an object without
    such properties, the result included, is returned as it is. *)
Theorem removeUndefined_spec obj :
  Forall (fun kv => kv.2 <> JUndefined) (removeUndefined obj)
  /\ (forall k, get k obj <> JUndefined ->
                get k (removeUndefined obj) = get k obj)
  /\ (NoDup (keys obj) ->
      forall k, get k (removeUndefined obj) = get k obj)
  /\ (Forall (fun kv => kv.2 <> JUndefined) obj -> removeUndefined obj = obj)
  /\ removeUndefined (removeUndefined obj) = removeUndefined obj.
Proof.
  assert (Hid : forall o, Forall (fun kv => kv.2 <> JUndefined) o ->
                          removeUndefined o = o).
  { intros o H. induction H as [|[k v] o Hv _ IH]; [reflexivity|].
    rewrite removeUndefined_cons, IH. cbn in Hv.
    destruct (is_undefined v) eqn:Eu; [|reflexivity].
    apply is_undefined_spec in Eu. congruence. }
  split; [apply removeUndefined_defined|].
  split; [intros k; apply get_removeUndefined|].
  split; [|split; [apply Hid|apply Hid, removeUndefined_defined]].
  intros Hnd k. induction obj as [|[k' v] obj IH]; [reflexivity|].
  cbn in Hnd. apply NoDup_cons in Hnd as [Hk' Hnd].
  rewrite removeUndefined_cons. cbn [get]. case_bool_decide as E.
  - subst k'. destruct (is_undefined v) eqn:Eu.
    + apply is_undefined_spec in Eu as ->.
      apply get_not_in_keys. intros Hin. apply Hk'.
      apply list_elem_of_In. now apply keys_removeUndefined.
    + cbn [get]. now rewrite bool_decide_eq_true_2.
  - destruct (is_undefined v); [now apply IH|].
    cbn [get]. rewrite bool_decide_eq_false_2 by assumption. now apply IH.
Qed.

End RemoveUndefined.

Section FirestoreMore.
Import JsString Js Encode Firestore FirestoreTrips.

Variable uid : jsstring.
Variable fault : Request -> option Error.
Variable auto_id : Db -> jsstring.
Variable Date_getTime : JsVal -> option Z.

Local Abbreviation fetch :=
  (fetchExpensesForTrip (Some uid) fault Date_getTime).
Local Abbreviation document_of expense :=
  (removeUndefined (safe_expense uid expense)).
Local Abbreviation save := (Firestore.saveExpense (Some uid) fault auto_id).

Lemma safe_expense_fields expense :
  get "userId" (safe_expense uid expense) = JStr uid
  /\ (exists xs, get "items" (safe_expense uid expense) = JArr xs)
  /\ get "id" (safe_expense uid expense) = get "id" expense
  /\ get "tripId" (safe_expense uid expense) = get "tripId" expense.
Proof.
  unfold safe_expense. repeat split.
  - rewrite get_set_field_ne by discriminate. apply get_set_field_eq.
  - rewrite get_set_field_eq.
    destruct (get "items" _); eexists; reflexivity.
  - now rewrite !get_set_field_ne by discriminate.
  - now rewrite !get_set_field_ne by discriminate.
Qed.

Lemma document_fields expense :
  get "userId" (document_of expense) = JStr uid
  /\ exists xs, get "items" (document_of expense) = JArr xs.
Proof.
  destruct (safe_expense_fields expense) as (Hu & (xs & Hi) & _).
  split.
  - rewrite get_removeUndefined; rewrite Hu; congruence.
  - exists xs. rewrite get_removeUndefined; rewrite Hi; congruence.
Qed.

(** What [saveExpense] does, by the id of the record and the verdict of
    the store, when it ends well. *)
Lemma saveExpense_inversion expense w docId w' :
  save expense w = (inr docId, w') ->
  db w' = {| trips := trips (db w);
             expenses := <[docId := document_of expense]>
                           (expenses (db w)) |}
  /\ log w' = log w.
Proof.
  unfold Firestore.saveExpense, try_catch, getCurrentUserId, bind, ret.
  cbv beta iota zeta.
  destruct (truthy (get "id" (safe_expense uid expense))).
  - destruct (doc_ref (get "id" (safe_expense uid expense))) as [i|].
    + unfold setDoc, bind, request.
      destruct (fault (SetDoc EXPENSES_COLLECTION i _)) as [err|].
      * unfold throw, emit, ret.
        destruct err; cbn; discriminate.
      * cbn. intros [= <- <-]. now split.
    + unfold throw, emit, ret. cbn. discriminate.
  - unfold addDoc, bind, request.
    destruct (fault (AddDoc EXPENSES_COLLECTION _)) as [err|].
    + unfold throw, emit, ret. destruct err; cbn; discriminate.
    + cbn. intros [= <- <-]. now split.
Qed.

(** X17. Every expense document [saveExpense] writes belongs to the caller
    and is well formed.  When [saveExpense] ends well, the document kept
    under the id it returns has the caller as [userId], whatever the
    record passed said, an array as [items] and no property holding
    [undefined]; no other expense document, no trip and nothing the user
    is shown has changed. *)
Theorem saveExpense_document expense w docId w' :
  save expense w = (inr docId, w') ->
  exists d,
    expenses (db w') !! docId = Some d
    /\ get "userId" d = JStr uid
    /\ (exists xs, get "items" d = JArr xs)
    /\ Forall (fun kv => kv.2 <> JUndefined) d
    /\ (forall k, k <> docId ->
                  expenses (db w') !! k = expenses (db w) !! k)
    /\ trips (db w') = trips (db w)
    /\ log w' = log w.
Proof.
  intros H. apply saveExpense_inversion in H as [Hdb Hlog].
  exists (document_of expense). rewrite Hdb. cbn [expenses trips].
  destruct (document_fields expense) as [Hu Hi].
  split; [apply lookup_insert_eq|]. split; [exact Hu|]. split; [exact Hi|].
  split; [apply removeUndefined_defined|].
  split; [|now split].
  intros k Hk. now rewrite lookup_insert_ne by congruence.
Qed.

(** X18. What is saved is fetched.  When the store accepts the write of an
    expense with an id and a trip and answers the query, the caller's
    next [fetchExpensesForTrip] for that trip returns the record of the
    document just written. *)
Theorem saveExpense_then_fetch expense docId T w :
  get "id" expense = JStr docId ->
  docId <> [] ->
  get "tripId" expense = JStr T ->
  fault (SetDoc EXPENSES_COLLECTION docId (document_of expense)) = None ->
  fault (GetDocs EXPENSES_COLLECTION) = None ->
  exists w' l,
    save expense w = (inr docId, w')
    /\ fetch T w' = (inr l, w')
    /\ In (with_id (docId, document_of expense)) l.
Proof.
  intros Hid Hne HT Hset Hget.
  rewrite (saveExpense_stored uid fault auto_id expense docId w Hid Hne Hset).
  eexists. eexists. split; [reflexivity|].
  rewrite (fetch_answer uid fault Date_getTime T _ Hget).
  split; [reflexivity|].
  apply (Permutation_in _ (Permutation_sym (sort_perm _ _))).
  apply List.in_map. apply selected_spec. cbn [db expenses].
  split; [apply lookup_insert_eq|].
  destruct (safe_expense_fields expense) as (Hu & _ & _ & Ht).
  unfold expense_of.
  rewrite !get_removeUndefined by (rewrite ?Hu, ?Ht, ?HT; congruence).
  rewrite Hu, Ht, HT. cbn.
  now rewrite !bool_decide_eq_true_2 by reflexivity.
Qed.

Lemma deleteDoc_run c i w :
  deleteDoc fault c i w
  = match fault (DeleteDoc c i) with
    | Some err => (inl err, w)
    | None =>
        (inr tt,
         {| db := with_docs c (delete i (docs_of c (db w))) (db w);
            log := log w |})
    end.
Proof.
  unfold deleteDoc, bind, request.
  now destruct (fault (DeleteDoc c i)).
Qed.

(** X19. [deleteTrip] deletes the trip first and asks who is signed in
    afterwards.  When the store refuses to delete the trip document,
    nothing changes.  When it deletes it and then nobody is signed in, or
    the query for the expenses of the trip fails, [deleteTrip] throws
    with the trip document gone and every expense document still there. *)
Theorem deleteTrip_trip_first currentUser T w :
  T <> [] ->
  match fault (DeleteDoc TRIPS_COLLECTION T) with
  | Some err =>
      Firestore.deleteTrip currentUser fault Date_getTime T w
      = (inl err, {| db := db w; log := log w ++ [Console_error] |})
  | None =>
      currentUser = None \/ fault (GetDocs EXPENSES_COLLECTION) <> None ->
      exists err w',
        Firestore.deleteTrip currentUser fault Date_getTime T w
        = (inl err, w')
        /\ trips (db w') = delete T (trips (db w))
        /\ expenses (db w') = expenses (db w)
  end.
Proof.
  intros Hne. destruct T as [|c T]; [congruence|].
  unfold Firestore.deleteTrip, try_catch, bind.
  cbn [doc_ref is_empty]. rewrite deleteDoc_run.
  destruct (fault (DeleteDoc TRIPS_COLLECTION (c :: T))) as [err|].
  - reflexivity.
  - intros H. cbn [with_docs docs_of].
    set (w1 := {| db := _; log := log w |}).
    assert (Hfetch : exists err,
               fetchExpensesForTrip currentUser fault Date_getTime
                 (c :: T) w1
               = (inl err,
                  {| db := db w1; log := log w1 ++ [Console_error] |})).
    { destruct currentUser as [u|].
      - destruct H as [H|H]; [discriminate|].
        destruct (fault (GetDocs EXPENSES_COLLECTION)) as [err|] eqn:Eg;
          [|congruence].
        exists err. now apply fetch_refused.
      - exists NotAuthenticated. reflexivity. }
    destruct Hfetch as [err ->]. unfold emit, throw. cbn.
    eexists. eexists. split; [reflexivity|]. now split.
Qed.

(** *** The record of a fetched document *)

Lemma get_assign_ne k base src :
  ~ In k (keys src) -> get k (assign base src) = get k base.
Proof.
  unfold assign. revert base.
  induction src as [|[k' v] src IH]; intros base Hk; [reflexivity|].
  cbn [fold_left fst snd]. cbn in Hk.
  rewrite IH by (intros H; apply Hk; now right).
  apply get_set_field_ne. intros ->. apply Hk. now left.
Qed.

Lemma get_assign_in k base src :
  NoDup (keys src) -> In k (keys src) ->
  get k (assign base src) = get k src.
Proof.
  unfold assign. revert base.
  induction src as [|[k' v] src IH]; intros base Hnd Hk; [destruct Hk|].
  cbn in Hnd. apply NoDup_cons in Hnd as [Hk' Hnd].
  cbn [fold_left fst snd get]. case_bool_decide as E.
  - subst k'.
    change (fold_left _ src ?b) with (assign b src).
    rewrite get_assign_ne by (rewrite <- list_elem_of_In; exact Hk').
    apply get_set_field_eq.
  - destruct Hk as [Hk|Hk]; [cbn in Hk; congruence|]. now apply IH.
Qed.

(** The record made of a fetched document, [{ id: doc.id,
    ...doc.data() }], has every property of the document with its value,
    and as [id] the one the document itself holds when it has one: the
    document's key is the [id] only of a document without an [id]
    property. *)
Lemma with_id_fields k d :
  NoDup (keys d) ->
  (forall f, In f (keys d) -> get f (with_id (k, d)) = get f d)
  /\ (~ In "id" (keys d) -> get "id" (with_id (k, d)) = JStr k)
  /\ (forall f, f <> "id" -> get f (with_id (k, d)) = get f d).
Proof.
  intros Hnd. unfold with_id. cbn [fst snd]. repeat split.
  - intros f Hf. now apply get_assign_in.
  - intros Hid. rewrite get_assign_ne by assumption. reflexivity.
  - intros f Hf. destruct (in_dec string_dec f (keys d)) as [Hin|Hout].
    + now apply get_assign_in.
    + rewrite get_assign_ne by assumption. cbn [get].
      rewrite bool_decide_eq_false_2 by assumption.
      symmetry. now apply get_not_in_keys.
Qed.

(** *** Trips *)

Local Abbreviation trips_of w :=
  (List.filter (fun kd => owned_by uid kd.2) (map_to_list (trips (db w)))).

Lemma fetchTrips_answer w :
  fault (GetDocs TRIPS_COLLECTION) = None ->
  fetchTrips (Some uid) fault w = (inr (List.map with_id (trips_of w)), w).
Proof.
  intros Hf. unfold fetchTrips, try_catch, bind, getCurrentUserId,
    getDocs, request, ret, get_db, bind.
  rewrite Hf. reflexivity.
Qed.

(** X20. [fetchTrips] returns the caller's trips and no one else's.  Signed
    in and with the store answering, it returns the records of exactly the
    trip documents whose [userId] is the caller, one for each, and leaves
    the store and what the user is shown as they were; when the store
    refuses the query the error is logged and thrown again. *)
Theorem fetchTrips_own_trips w :
  match fault (GetDocs TRIPS_COLLECTION) with
  | None =>
      exists l,
        fetchTrips (Some uid) fault w = (inr l, w)
        /\ length l = length (trips_of w)
        /\ forall t,
            In t l <->
            exists k d,
              trips (db w) !! k = Some d
              /\ get "userId" d = JStr uid
              /\ t = with_id (k, d)
  | Some err =>
      fetchTrips (Some uid) fault w
      = (inl err, {| db := db w; log := log w ++ [Console_error] |})
  end.
Proof.
  destruct (fault (GetDocs TRIPS_COLLECTION)) as [err|] eqn:Hf.
  - unfold fetchTrips, try_catch, bind, getCurrentUserId, getDocs, request,
      ret, get_db, bind, emit, throw. rewrite Hf. reflexivity.
  - rewrite (fetchTrips_answer w Hf). eexists. split; [reflexivity|].
    split; [apply List.length_map|].
    intros t. rewrite List.in_map_iff. split.
    + intros ([k d] & <- & Hin).
      apply List.filter_In in Hin as [Hin Hown]. cbn [snd] in Hown.
      apply list_elem_of_In, elem_of_map_to_list in Hin.
      exists k, d. split; [assumption|]. split; [|reflexivity].
      unfold owned_by in Hown. destruct (get "userId" d); try discriminate.
      cbn in Hown. now apply bool_decide_eq_true_1 in Hown as ->.
    + intros (k & d & Hk & Hu & ->). exists (k, d). split; [reflexivity|].
      apply List.filter_In. split.
      * now apply list_elem_of_In, elem_of_map_to_list.
      * cbn [snd]. unfold owned_by. rewrite Hu. cbn.
        now apply bool_decide_eq_true_2.
Qed.

(** X21. A trip that is saved is fetched, as the caller's.  When the store
    accepts the write of a trip with an id and answers the query,
    [saveTrip] returns that id, the document kept under it has the caller
    as [userId], the expenses are untouched, and the caller's next
    [fetchTrips] returns the record of that document. *)
Theorem saveTrip_then_fetchTrips trip tid w :
  get "id" trip = JStr tid ->
  tid <> [] ->
  let data := removeUndefined (set_field "userId" (JStr uid) trip) in
  fault (SetDoc TRIPS_COLLECTION tid data) = None ->
  fault (GetDocs TRIPS_COLLECTION) = None ->
  exists w' l,
    saveTrip (Some uid) fault auto_id trip w = (inr tid, w')
    /\ trips (db w') !! tid = Some data
    /\ get "userId" data = JStr uid
    /\ expenses (db w') = expenses (db w)
    /\ fetchTrips (Some uid) fault w' = (inr l, w')
    /\ In (with_id (tid, data)) l.
Proof.
  intros Hid Hne data Hset Hget.
  assert (Hu : get "userId" data = JStr uid).
  { subst data. rewrite get_removeUndefined; rewrite get_set_field_eq;
      congruence. }
  unfold saveTrip, try_catch, getCurrentUserId, bind, ret.
  cbv beta iota zeta. rewrite Hid.
  destruct tid as [|c tid]; [congruence|].
  cbn [truthy is_empty negb doc_ref].
  unfold setDoc, bind, request. fold data. rewrite Hset.
  cbn [ret bind get_db set_db with_docs docs_of db log].
  eexists. eexists. split; [reflexivity|].
  cbn [db trips expenses].
  split; [apply lookup_insert_eq|]. split; [exact Hu|].
  split; [reflexivity|].
  rewrite (fetchTrips_answer _ Hget). split; [reflexivity|].
  apply List.in_map, List.filter_In. cbn [db trips snd]. split.
  - apply list_elem_of_In, elem_of_map_to_list, lookup_insert_eq.
  - unfold owned_by. rewrite Hu. cbn. now apply bool_decide_eq_true_2.
Qed.

(** X22. [deleteExpense] deletes the document with the id and nothing else,
    and does not ask who is signed in.  When the store accepts, the
    document is gone and every other document, the trips and what the user
    is shown are as before; when it refuses, or the id is the empty
    string, nothing changes and the error is logged and thrown again.  It
    undoes [saveExpense]: saving an expense under an id no document has
    and deleting that id leaves the store as it was. *)
Theorem deleteExpense_remote id0 w :
  match doc_ref (JStr id0) with
  | None =>
      FirestoreTrips.deleteExpense fault id0 w
      = (inl InvalidReference,
         {| db := db w; log := log w ++ [Console_error] |})
  | Some _ =>
      match fault (DeleteDoc EXPENSES_COLLECTION id0) with
      | Some err =>
          FirestoreTrips.deleteExpense fault id0 w
          = (inl err, {| db := db w; log := log w ++ [Console_error] |})
      | None =>
          (exists w',
              FirestoreTrips.deleteExpense fault id0 w = (inr tt, w')
              /\ expenses (db w') !! id0 = None
              /\ (forall k, k <> id0 ->
                            expenses (db w') !! k = expenses (db w) !! k)
              /\ trips (db w') = trips (db w)
              /\ log w' = log w)
          /\ (forall expense,
                 get "id" expense = JStr id0 ->
                 expenses (db w) !! id0 = None ->
                 fault (SetDoc EXPENSES_COLLECTION id0 (document_of expense))
                 = None ->
                 exists w1,
                   save expense w = (inr id0, w1)
                   /\ FirestoreTrips.deleteExpense fault id0 w1
                      = (inr tt, w))
      end
  end.
Proof.
  unfold FirestoreTrips.deleteExpense, try_catch.
  destruct (doc_ref (JStr id0)) as [i|] eqn:Ei; [|reflexivity].
  pose proof Ei as Hne. apply doc_ref_string in Ei as ->.
  rewrite !deleteDoc_run.
  destruct (fault (DeleteDoc EXPENSES_COLLECTION id0)) as [err|] eqn:Ed;
    [reflexivity|].
  split.
  - eexists. split; [reflexivity|]. cbn.
    split; [apply lookup_delete_eq|]. split; [|now split].
    intros k Hk. now apply lookup_delete_ne.
  - intros expense Hid Hfresh Hset.
    assert (Hne' : id0 <> []) by (intros ->; discriminate Hne).
    rewrite (saveExpense_stored uid fault auto_id expense id0 w Hid Hne'
               Hset).
    eexists. split; [reflexivity|].
    rewrite deleteDoc_run, Ed. cbn [with_docs docs_of db log expenses trips].
    rewrite delete_insert_id by exact Hfresh.
    destruct w as [[t e] l]. reflexivity.
Qed.

End FirestoreMore.

(** ** The gateway: cache and daily allowance *)

Section GatewayMore.
Import JsString Js Gemini GeminiState.

Variable toUpperCase : jsstring -> jsstring.
Variable parseFloat : jsstring -> float.
Variable setItem_throws : Storage -> Write -> bool.
Variable JSON_parse : jsstring -> option JsVal.
Variable currentUserEmail : option jsstring.
Variable env_API_KEY : jsstring.

Local Abbreviation fetchRate :=
  (fetchExchangeRate toUpperCase parseFloat setItem_throws).
Local Abbreviation analyze :=
  (analyzeReceipt setItem_throws JSON_parse currentUserEmail env_API_KEY).
Local Abbreviation saveRate := (saveRateToCache setItem_throws).

(** What a call that made the lookup returns and leaves, by the answer. *)
Lemma fetchExchangeRate_resumed st today c q k o st1 :
  fetchRate st today c = Ask q k ->
  (k o st1 = ({| rate := 1; source := js "Error" |}, st1)
   \/ k o st1 = ({| rate := 1; source := js "Failed" |}, st1))
  \/ exists r,
      PrimFloat.ltb 0 r = true
      /\ k o st1 = ({| rate := r; source := js "Google Search" |},
                    saveRate st1 today (toUpperCase c) r).
Proof.
  unfold fetchExchangeRate. case_bool_decide as E; [discriminate|].
  destruct (getRateFromCache _ _ _); [discriminate|].
  intros [= _ <-].
  destruct o as [|[text|]]; auto.
  destruct (is_empty text); auto.
  destruct (PrimFloat.ltb 0 _) eqn:Epos; eauto.
Qed.

Lemma saveRateToCache_cases st today c r :
  saveRate st today c r = st
  \/ saveRate st today c r
     = {| rate_cache :=
            Some (<[c := {| entry_rate :=
                              if JsNumber.is_finite r then Some r else None;
                            entry_date := today |}]>
                    (from_option (fun x => x) ∅ (rate_cache st)));
          api_usage := api_usage st;
          user_api_key := user_api_key st |}.
Proof.
  unfold saveRateToCache, try_setItem.
  destruct (setItem_throws _ _); [left|right]; reflexivity.
Qed.

Lemma saveRateToCache_positive st today c r :
  PrimFloat.ltb 0 r = true ->
  cache_positive st -> cache_positive (saveRate st today c r).
Proof.
  intros Hr Hst.
  destruct (saveRateToCache_cases st today c r) as [-> | ->]; [assumption|].
  intros cache c' e r' [= <-] Hc He.
  destruct (decide (c' = c)) as [->|Hne].
  - rewrite lookup_insert_eq in Hc. injection Hc as <-.
    cbn in He. destruct (JsNumber.is_finite r); [|discriminate].
    now injection He as <-.
  - rewrite lookup_insert_ne in Hc by congruence.
    destruct (rate_cache st) as [cache0|] eqn:E0; cbn in Hc.
    + exact (Hst cache0 c' e r' E0 Hc He).
    + now rewrite lookup_empty in Hc.
Qed.

(** X24. Positive rates are an invariant of the resolver: when every rate in
    the cache is positive, every rate [fetchExchangeRate] returns is
    positive, whether it comes from the default, the cache or the lookup,
    and so is every rate in the cache it leaves. *)
Theorem fetchExchangeRate_rate_positive st today c :
  cache_positive st ->
  match fetchRate st today c with
  | Done res => PrimFloat.ltb 0 (rate res) = true
  | Ask _ k =>
      forall o st1,
        cache_positive st1 ->
        PrimFloat.ltb 0 (rate (fst (k o st1))) = true
        /\ cache_positive (snd (k o st1))
  end.
Proof.
  intros Hst. destruct (fetchRate st today c) as [res|q k] eqn:Hcall.
  - revert Hcall. unfold fetchExchangeRate.
    case_bool_decide as E; [now intros [= <-]|].
    destruct (getRateFromCache _ _ _) as [r|] eqn:Ec; [|discriminate].
    intros [= <-]. cbn. unfold getRateFromCache in Ec.
    destruct (rate_cache st) as [cache|] eqn:E0; [|discriminate].
    destruct (cache !! toUpperCase c) as [e|] eqn:E1; [|discriminate].
    case_bool_decide; [|discriminate].
    exact (Hst cache _ e r E0 E1 Ec).
  - intros o st1 Hst1.
    destruct (fetchExchangeRate_resumed _ _ _ _ _ o st1 Hcall)
      as [[-> | ->] | (r & Hr & ->)]; cbn [fst snd rate].
    + now split.
    + now split.
    + split; [assumption|]. now apply saveRateToCache_positive.
Qed.

Lemma getRateFromCache_saved_other st today c r day c2 :
  c2 <> c ->
  getRateFromCache (saveRate st today c r) day c2
  = getRateFromCache st day c2.
Proof.
  intros Hne.
  destruct (saveRateToCache_cases st today c r) as [-> | ->]; [reflexivity|].
  unfold getRateFromCache. cbn [rate_cache].
  rewrite lookup_insert_ne by congruence.
  destruct (rate_cache st); [reflexivity|]. cbn. now rewrite lookup_empty.
Qed.

(** A lookup writes at most the cache entry of its own currency: the
    rates cached for every other currency are served as before, on every
    day, and the usage counter and the user's key are not touched. *)
Lemma fetchExchangeRate_keeps_other_entries st today c q k o st1 :
  fetchRate st today c = Ask q k ->
  (forall day c2,
      c2 <> toUpperCase c ->
      getRateFromCache (snd (k o st1)) day c2 = getRateFromCache st1 day c2)
  /\ api_usage (snd (k o st1)) = api_usage st1
  /\ user_api_key (snd (k o st1)) = user_api_key st1.
Proof.
  intros Hcall.
  destruct (fetchExchangeRate_resumed _ _ _ _ _ o st1 Hcall)
    as [[-> | ->] | (r & Hr & ->)]; cbn [snd]; try (now repeat split).
  split; [intros day c2 Hne; now apply getRateFromCache_saved_other|].
  destruct (saveRateToCache_cases st1 today (toUpperCase c) r)
    as [-> | ->]; now split.
Qed.

Lemma google_search_saved st today c q k o st1 r st' :
  fetchRate st today c = Ask q k ->
  k o st1 = ({| rate := r; source := js "Google Search" |}, st') ->
  st' = saveRate st1 today (toUpperCase c) r.
Proof.
  intros Hcall Hk.
  destruct (fetchExchangeRate_resumed _ _ _ _ _ o st1 Hcall)
    as [[E | E] | (r' & _ & E)]; rewrite E in Hk.
  - apply (f_equal (fun x => source (fst x))) in Hk. vm_compute in Hk.
    discriminate Hk.
  - apply (f_equal (fun x => source (fst x))) in Hk. vm_compute in Hk.
    discriminate Hk.
  - now injection Hk as -> <-.
Qed.

(** X25. A cached rate is served on its own day only: after a lookup whose
    rate the browser let the cache keep, a call for the same currency on
    any other day makes the lookup again. *)
Theorem fetchExchangeRate_cache_expires st today c q k o st1 r st' day :
  fetchRate st today c = Ask q k ->
  k o st1 = ({| rate := r; source := js "Google Search" |}, st') ->
  setItem_throws st1 (cache_write st1 today (toUpperCase c) r) = false ->
  day <> today ->
  asks (fetchRate st' day c) = true.
Proof.
  intros Hcall Hk Hw Hday.
  pose proof (fetchExchangeRate_asks _ _ _ _ _ _ _ _ Hcall) as [Hc _].
  rewrite (google_search_saved _ _ _ _ _ _ _ _ _ Hcall Hk).
  unfold fetchExchangeRate.
  rewrite bool_decide_eq_false_2 by assumption.
  unfold saveRateToCache, try_setItem. rewrite Hw.
  unfold cache_write, getRateFromCache. cbn [apply_write rate_cache].
  rewrite lookup_insert_eq. cbn [entry_date].
  rewrite bool_decide_eq_false_2 by congruence. reflexivity.
Qed.

(** *** The daily allowance of the shared key *)

Lemma usage_after_increment st today :
  setItem_throws st
    (WriteApiUsage {| usage_date := today;
                      usage_count := getApiUsageToday st today + 1 |})
  = false ->
  getApiUsageToday (incrementApiUsage setItem_throws st today) today
  = (getApiUsageToday st today + 1)%Z
  /\ user_api_key (incrementApiUsage setItem_throws st today)
     = user_api_key st
  /\ rate_cache (incrementApiUsage setItem_throws st today)
     = rate_cache st.
Proof.
  intros Hw. unfold incrementApiUsage, try_setItem. rewrite Hw.
  unfold getApiUsageToday at 1. cbn.
  rewrite bool_decide_eq_true_2 by reflexivity. auto.
Qed.

Lemma analyzeReceipt_shared st today img :
  has_key (getUserApiKey st) = false ->
  isAdmin currentUserEmail = false ->
  if hasReachedDailyLimit st today
  then analyze st today img = Done (inl DAILY_LIMIT_REACHED)
  else exists k,
      analyze st today img = Ask (env_API_KEY, img) k
      /\ forall o st1,
          snd (k o st1)
          = match o with
            | ModelResponse (Some (_ :: _)) =>
                incrementApiUsage setItem_throws st1 today
            | _ => st1
            end.
Proof.
  intros Hkey Hadm. unfold analyzeReceipt. rewrite Hkey, Hadm. cbn [negb andb].
  destruct (hasReachedDailyLimit st today); [reflexivity|].
  eexists. split; [reflexivity|].
  intros [|[[|c t]|]] st1; cbn; try reflexivity.
  now destruct (JSON_parse (c :: t)).
Qed.

(** X27. The shared key allows two analyses a day.  For a user without a key
    of their own who is not an administrator, on a day with no analysis
    counted yet and a browser that accepts the writes of the counter, the
    first two calls reach the model and, once each has been answered with
    a text, the third is refused with [DAILY_LIMIT_REACHED] before any
    call to the model. *)
Theorem analyzeReceipt_daily_allowance st today i1 i2 i3 t1 t2 :
  (forall s w, setItem_throws s w = false) ->
  has_key (getUserApiKey st) = false ->
  isAdmin currentUserEmail = false ->
  getApiUsageToday st today = 0%Z ->
  t1 <> [] -> t2 <> [] ->
  exists q1 k1 q2 k2,
    analyze st today i1 = Ask q1 k1
    /\ analyze (snd (k1 (ModelResponse (Some t1)) st)) today i2 = Ask q2 k2
    /\ analyze
         (snd (k2 (ModelResponse (Some t2))
                  (snd (k1 (ModelResponse (Some t1)) st))))
         today i3
       = Done (inl DAILY_LIMIT_REACHED).
Proof.
  intros Hw Hkey Hadm H0 Ht1 Ht2.
  destruct t1 as [|c1 t1]; [congruence|].
  destruct t2 as [|c2 t2]; [congruence|].
  pose proof (analyzeReceipt_shared st today i1 Hkey Hadm) as H1.
  unfold hasReachedDailyLimit in H1. rewrite H0 in H1. cbn in H1.
  destruct H1 as (k1 & E1 & Hk1).
  set (st1 := snd (k1 (ModelResponse (Some (c1 :: t1))) st)).
  assert (Hst1 : st1 = incrementApiUsage setItem_throws st today)
    by apply Hk1.
  destruct (usage_after_increment st today (Hw _ _)) as (Hu1 & Hkey1 & _).
  rewrite <- Hst1 in Hu1, Hkey1. rewrite H0 in Hu1.
  assert (Hkey1' : has_key (getUserApiKey st1) = false)
    by (unfold getUserApiKey in *; now rewrite Hkey1).
  pose proof (analyzeReceipt_shared st1 today i2 Hkey1' Hadm) as H2.
  unfold hasReachedDailyLimit in H2. rewrite Hu1 in H2. cbn in H2.
  destruct H2 as (k2 & E2 & Hk2).
  set (st2 := snd (k2 (ModelResponse (Some (c2 :: t2))) st1)).
  assert (Hst2 : st2 = incrementApiUsage setItem_throws st1 today)
    by apply Hk2.
  destruct (usage_after_increment st1 today (Hw _ _)) as (Hu2 & Hkey2 & _).
  rewrite <- Hst2 in Hu2, Hkey2. rewrite Hu1 in Hu2.
  assert (Hkey2' : has_key (getUserApiKey st2) = false)
    by (unfold getUserApiKey in *; now rewrite Hkey2).
  pose proof (analyzeReceipt_shared st2 today i3 Hkey2' Hadm) as H3.
  unfold hasReachedDailyLimit in H3. rewrite Hu2 in H3. cbn in H3.
  exists (env_API_KEY, i1), k1, (env_API_KEY, i2), k2. auto.
Qed.

(** X28. Only an answer with a text is counted.  With the shared key, a call
    to the model that throws or answers without text leaves the storage as
    it is; an answer with a text is counted even when the text is not
    JSON, in which case the caller still gets the fallback record. *)
Theorem analyzeReceipt_counts_answers st today img q k :
  has_key (getUserApiKey st) = false ->
  isAdmin currentUserEmail = false ->
  analyze st today img = Ask q k ->
  (forall st1,
      snd (k ModelThrows st1) = st1
      /\ snd (k (ModelResponse None) st1) = st1
      /\ snd (k (ModelResponse (Some [])) st1) = st1)
  /\ (forall c t st1,
         snd (k (ModelResponse (Some (c :: t))) st1)
         = incrementApiUsage setItem_throws st1 today
         /\ (JSON_parse (c :: t) = None ->
             fst (k (ModelResponse (Some (c :: t))) st1)
             = inr (JObj (fallback today)))).
Proof.
  intros Hkey Hadm Hcall.
  pose proof (analyzeReceipt_shared st today img Hkey Hadm) as H.
  destruct (hasReachedDailyLimit st today); [congruence|].
  destruct H as (k' & E & Hk). rewrite E in Hcall.
  injection Hcall as _ <-. split.
  - intros st1. repeat split; apply Hk.
  - intros c t st1. split; [apply Hk|].
    intros Hp. revert E. unfold analyzeReceipt. rewrite Hkey, Hadm.
    cbn [negb andb]. destruct (hasReachedDailyLimit st today);
      [discriminate|].
    intros [= <-]. cbn. now rewrite Hp.
Qed.

(** X29. A user with a key of their own, and an administrator, are never
    limited and never counted: the call always reaches the model, with the
    user's key when there is one and the shared key otherwise, and
    whatever the answer the storage is left as it is. *)
Theorem analyzeReceipt_own_key st today img :
  has_key (getUserApiKey st) = true \/ isAdmin currentUserEmail = true ->
  exists k,
    analyze st today img
    = Ask (match getUserApiKey st with
           | Some key => if is_empty key then env_API_KEY else key
           | None => env_API_KEY
           end, img) k
    /\ forall o st1, snd (k o st1) = st1.
Proof.
  intros H. unfold analyzeReceipt.
  assert (Hs : negb (has_key (getUserApiKey st))
               && negb (isAdmin currentUserEmail) = false).
  { destruct H as [-> | ->]; [reflexivity|apply andb_false_r]. }
  rewrite Hs. cbn [andb]. eexists. split.
  - f_equal. f_equal. unfold has_key.
    destruct (getUserApiKey st) as [[|c key]|]; reflexivity.
  - intros [|[[|c t]|]] st1; cbn; try reflexivity.
    now destruct (JSON_parse (c :: t)).
Qed.

(** *** The number read from the answer *)

Lemma span_numeric_run tok post :
  all_numeric tok = true -> head_digit post = false ->
  span_numeric (tok ++ post) = (tok, post).
Proof.
  intros Ht Hp. induction tok as [|c tok IH].
  - destruct post as [|p post]; [reflexivity|].
    cbn in Hp. cbn. now rewrite Hp.
  - cbn in Ht. apply andb_prop in Ht as [Hc Ht].
    cbn [app span_numeric]. rewrite Hc, (IH Ht). reflexivity.
Qed.

Lemma first_numeric_token_run pre tok post :
  no_numeric pre = true -> tok <> [] -> all_numeric tok = true ->
  head_digit post = false ->
  first_numeric_token (pre ++ tok ++ post) = Some tok.
Proof.
  intros Hpre Hne Ht Hp. induction pre as [|c pre IH].
  - destruct tok as [|d tok]; [congruence|].
    cbn [app first_numeric_token].
    pose proof Ht as Ht'. cbn in Ht'. apply andb_prop in Ht' as [Hd _].
    rewrite Hd.
    change (d :: tok ++ post) with ((d :: tok) ++ post).
    now rewrite span_numeric_run.
  - cbn in Hpre. apply andb_prop in Hpre as [Hc Hpre].
    apply negb_true_iff in Hc.
    cbn [app first_numeric_token]. rewrite Hc. now apply IH.
Qed.

(** X26. The rate is read from the leftmost run of digits and dots of the
    answer and from nothing else: when that run reads as a positive number
    it is the rate returned and cached, and when it does not the lookup is
    reported as failed and nothing is cached, whatever follows the run in
    the text. *)
Theorem fetchExchangeRate_reads_first_run st today c q k pre tok post st1 :
  fetchRate st today c = Ask q k ->
  no_numeric pre = true ->
  tok <> [] -> all_numeric tok = true ->
  head_digit post = false ->
  k (ModelResponse (Some (pre ++ tok ++ post))) st1
  = if PrimFloat.ltb 0 (parseFloat tok)
    then ({| rate := parseFloat tok; source := js "Google Search" |},
          saveRate st1 today (toUpperCase c) (parseFloat tok))
    else ({| rate := 1; source := js "Failed" |}, st1).
Proof.
  intros Hcall Hpre Hne Ht Hp. revert Hcall. unfold fetchExchangeRate.
  case_bool_decide as E; [discriminate|].
  destruct (getRateFromCache _ _ _); [discriminate|].
  intros [= _ <-].
  rewrite (first_numeric_token_run pre tok post Hpre Hne Ht Hp).
  destruct (pre ++ tok ++ post) as [|x rest] eqn:Etext.
  - destruct pre; [destruct tok; [congruence|discriminate]|discriminate].
  - reflexivity.
Qed.

End GatewayMore.

(** ** The items text: what parsing keeps, drops and returns *)

Section TextFacts.
Import JsString AddExpenseModal EditForm.

Lemma trim_start_head s : head_white (trim_start s) = false.
Proof.
  induction s as [|c s IH]; [reflexivity|].
  cbn [trim_start]. destruct (is_white c) eqn:E; [exact IH|].
  cbn. exact E.
Qed.

Lemma trim_start_snoc l c :
  is_white c = false -> trim_start (l ++ [c]) = trim_start l ++ [c].
Proof.
  intros Hc. induction l as [|x l IH]; cbn [app trim_start].
  - now rewrite Hc.
  - destruct (is_white x); [exact IH|reflexivity].
Qed.

(** What [trim] returns has no white space at either end. *)
Lemma trim_is_trimmed s : is_trimmed (trim s) = true.
Proof.
  unfold is_trimmed, trim, trim_end.
  rewrite rev_involutive, trim_start_head. rewrite andb_true_r.
  apply negb_true_iff.
  pose proof (trim_start_head s) as Hh.
  destruct (trim_start s) as [|c t]; [reflexivity|].
  cbn [head_white] in Hh. cbn [rev].
  rewrite trim_start_snoc by assumption.
  rewrite rev_app_distr. cbn [rev app head_white]. exact Hh.
Qed.

Lemma trim_start_blank s : forallb is_white s = true -> trim_start s = [].
Proof.
  induction s as [|c s IH]; [reflexivity|]. cbn.
  intros H. apply andb_prop in H as [-> H]. now apply IH.
Qed.

Lemma trim_blank s : forallb is_white s = true -> trim s = [].
Proof.
  intros H. unfold trim, trim_end. now rewrite (trim_start_blank s H).
Qed.

(** [trim] keeps a code unit that is not white space. *)
Lemma in_trim_start c s :
  In c s -> is_white c = false -> In c (trim_start s).
Proof.
  induction s as [|x s IH]; intros Hin Hc; [destruct Hin|].
  cbn [trim_start]. destruct (is_white x) eqn:Ex; [|exact Hin].
  destruct Hin as [->|Hin]; [congruence|]. now apply IH.
Qed.

Lemma in_trim c s : In c s -> is_white c = false -> In c (trim s).
Proof.
  intros Hin Hc. unfold trim, trim_end.
  apply List.in_rev. rewrite rev_involutive.
  apply in_trim_start; [|assumption].
  apply -> List.in_rev. now apply in_trim_start.
Qed.

Lemma trim_not_empty c s :
  In c s -> is_white c = false -> is_empty (trim s) = false.
Proof.
  intros Hin Hc. pose proof (in_trim c s Hin Hc) as H.
  now destruct (trim s).
Qed.

(** [trim] returns a part of the text. *)
Lemma trim_start_suffix s : exists w, s = w ++ trim_start s.
Proof.
  induction s as [|c s [w IH]]; [now exists []|].
  cbn [trim_start]. destruct (is_white c).
  - exists (c :: w). cbn. now f_equal.
  - now exists [].
Qed.

Lemma trim_infix s : exists a b, s = a ++ trim s ++ b.
Proof.
  unfold trim, trim_end.
  destruct (trim_start_suffix s) as [a Ha].
  destruct (trim_start_suffix (rev (trim_start s))) as [w Hw].
  exists a, (rev w). rewrite <- rev_app_distr, <- Hw, rev_involutive.
  exact Ha.
Qed.

Lemma in_trim_inv c s : In c (trim s) -> In c s.
Proof.
  destruct (trim_infix s) as (a & b & E). intros H. rewrite E.
  apply List.in_or_app. right. apply List.in_or_app. now left.
Qed.

(** A separator that starts a text starts every extension of it. *)
Lemma starts_with_app sep s t :
  starts_with sep s = true -> starts_with sep (s ++ t) = true.
Proof.
  revert s. induction sep as [|a sep IH]; intros s; [reflexivity|].
  destruct s as [|b s]; [discriminate|]. cbn [app starts_with].
  intros H. apply andb_prop in H as [-> H]. cbn. now apply IH.
Qed.

Lemma includes_app_l sep s t :
  includes sep (s ++ t) = false -> includes sep s = false.
Proof.
  induction s as [|c s IH]; cbn [app].
  - intros H. destruct sep as [|a sep]; [|reflexivity].
    destruct t; discriminate H.
  - intros H. apply includes_false_cons in H as [H1 H2].
    rewrite includes_cons, (IH H2), orb_false_r.
    destruct (starts_with sep (c :: s)) eqn:E; [|reflexivity].
    change (c :: s ++ t) with ((c :: s) ++ t) in H1.
    now rewrite (starts_with_app _ _ t E) in H1.
Qed.

Lemma includes_app_r sep s t :
  includes sep (s ++ t) = false -> includes sep t = false.
Proof.
  induction s as [|c s IH]; cbn [app]; [auto|].
  intros H. apply includes_false_cons in H as [_ H]. now apply IH.
Qed.

Lemma includes_trim sep s :
  includes sep s = false -> includes sep (trim s) = false.
Proof.
  destruct (trim_infix s) as (a & b & E). intros H. rewrite E in H.
  apply includes_app_r in H. now apply includes_app_l in H.
Qed.

Lemma includes_newline_in s : includes newline s = false <-> ~ In 10%N s.
Proof.
  induction s as [|c s IH]; [cbn; tauto|].
  rewrite includes_cons. cbn [starts_with newline In].
  rewrite andb_true_r, orb_false_iff, IH, N.eqb_neq. intuition congruence.
Qed.

(** *** The pieces of [split] *)

(** Every code unit of a piece is one of the text. *)
Lemma split_go_chars sep skip cur s :
  Forall (fun p => forall x, In x p -> In x cur \/ In x s)
         (split_go sep skip cur s).
Proof.
  revert skip cur. induction s as [|c s IH]; intros skip cur.
  - cbn. constructor; [|constructor]. intros x Hx. left.
    now apply List.in_rev.
  - cbn [split_go]. destruct skip as [|k].
    + destruct (starts_with sep (c :: s)).
      * constructor.
        -- intros x Hx. left. now apply List.in_rev.
        -- eapply Forall_impl; [apply IH|]. cbn.
           intros p Hp x Hx. destruct (Hp x Hx) as [[]|H]; auto.
      * eapply Forall_impl; [apply IH|]. cbn.
        intros p Hp x Hx. destruct (Hp x Hx) as [[->|H]|H]; auto.
    + eapply Forall_impl; [apply IH|]. cbn.
      intros p Hp x Hx. destruct (Hp x Hx) as [H|H]; auto.
Qed.

Lemma split_chars sep s :
  Forall (fun p => forall x, In x p -> In x s) (split sep s).
Proof.
  eapply Forall_impl; [apply (split_go_chars sep 0 [] s)|]. cbn.
  intros p Hp x Hx. destruct (Hp x Hx) as [[]|H]; exact H.
Qed.

Lemma none_starts_nil sep s : none_starts sep [] s.
Proof.
  intros b c E Hc. symmetry in E. apply app_eq_nil in E as [_ ->].
  congruence.
Qed.

Lemma none_starts_includes sep a s :
  sep <> [] -> none_starts sep a s -> includes sep a = false.
Proof.
  intros Hsep. induction a as [|x a IH]; intros H.
  - destruct sep; [congruence|reflexivity].
  - rewrite includes_cons. apply orb_false_iff. split.
    + destruct (starts_with sep (x :: a)) eqn:E; [|reflexivity].
      rewrite <- (H [] (x :: a) eq_refl ltac:(discriminate)).
      symmetry. now apply starts_with_app.
    + apply IH. intros b c E Hc. apply (H (x :: b) c); [|assumption].
      cbn. now f_equal.
Qed.

Lemma none_starts_snoc sep a c s :
  none_starts sep a (c :: s) ->
  starts_with sep (c :: s) = false ->
  none_starts sep (a ++ [c]) s.
Proof.
  intros H Hc b c0 E Hne.
  destruct (exists_last Hne) as (c1 & x & ->).
  rewrite app_assoc in E. apply app_inj_tail in E as [Ea <-].
  rewrite <- app_assoc. cbn [app].
  destruct c1 as [|y c1]; [exact Hc|].
  apply (H b (y :: c1)); [assumption|discriminate].
Qed.

(** No piece of [split] holds the separator. *)
Lemma split_go_pieces sep skip cur s :
  sep <> [] ->
  (skip = 0%nat -> none_starts sep (rev cur) s) ->
  (skip <> 0%nat -> cur = []) ->
  Forall (fun p => includes sep p = false) (split_go sep skip cur s).
Proof.
  intros Hsep. revert skip cur.
  induction s as [|c s IH]; intros skip cur H0 Hk.
  - cbn. constructor; [|constructor].
    destruct skip as [|k].
    + now apply (none_starts_includes sep _ []), H0.
    + rewrite Hk by discriminate. destruct sep; [congruence|reflexivity].
  - cbn [split_go]. destruct skip as [|k].
    + destruct (starts_with sep (c :: s)) eqn:E.
      * constructor.
        -- now apply (none_starts_includes sep _ (c :: s)), H0.
        -- apply IH; [intros _; apply none_starts_nil|reflexivity].
      * apply IH; [|congruence]. intros _. cbn [rev].
        apply none_starts_snoc; [now apply H0|exact E].
    + rewrite Hk by discriminate.
      apply IH; [intros _; apply none_starts_nil|reflexivity].
Qed.

Lemma split_pieces sep s :
  sep <> [] -> Forall (fun p => includes sep p = false) (split sep s).
Proof.
  intros Hsep. apply split_go_pieces; [assumption| |congruence].
  intros _. apply none_starts_nil.
Qed.

End TextFacts.

Section ItemsMore.
Import JsString Types AddExpenseModal EditForm.

Lemma newline_not_empty : newline <> [].
Proof. discriminate. Qed.

Lemma bars_not_empty : bars <> [].
Proof. discriminate. Qed.

Lemma split_go_not_empty sep skip cur s : split_go sep skip cur s <> [].
Proof.
  revert skip cur. induction s as [|c s IH]; intros skip cur; cbn.
  - discriminate.
  - destruct skip; [|apply IH].
    destruct (starts_with sep (c :: s)); [discriminate|apply IH].
Qed.

(** A text that holds the separator has at least two pieces. *)
Lemma split_go_two sep cur s :
  sep <> [] -> includes sep s = true ->
  exists p0 p1 rest, split_go sep 0 cur s = p0 :: p1 :: rest.
Proof.
  intros Hsep. revert cur. induction s as [|c s IH]; intros cur H.
  - destruct sep; [congruence|discriminate].
  - cbn [split_go]. destruct (starts_with sep (c :: s)) eqn:E.
    + pose proof (split_go_not_empty sep (length sep - 1) [] s) as Hne.
      destruct (split_go sep (length sep - 1) [] s) as [|p1 rest];
        [congruence|]. eauto.
    + rewrite includes_cons, E in H. now apply IH.
Qed.

Lemma plain_trim_piece l p :
  includes newline l = false ->
  (forall x, In x p -> In x l) ->
  includes bars p = false ->
  plain (trim p).
Proof.
  intros Hl Hsub Hp. split; [apply trim_is_trimmed|]. split.
  - apply includes_newline_in. intros H.
    apply includes_newline_in in Hl. apply Hl, Hsub.
    now apply in_trim_inv.
  - now apply includes_trim.
Qed.

Lemma parse_line_plain l :
  includes newline l = false ->
  plain (name (parse_line l)) /\ plain (originalName (parse_line l)).
Proof.
  intros Hl. unfold parse_line.
  pose proof (split_pieces bars l bars_not_empty) as Hp.
  pose proof (split_chars bars l) as Hc.
  destruct (includes bars l) eqn:Eb.
  - destruct (split_go_two bars [] l bars_not_empty Eb)
      as (p0 & p1 & rest & E).
    unfold split in *. rewrite E in *.
    apply Forall_cons in Hp as [Hp0 Hp]. apply Forall_cons in Hp as [Hp1 _].
    apply Forall_cons in Hc as [Hc0 Hc]. apply Forall_cons in Hc as [Hc1 _].
    cbn [name originalName]. split; now apply (plain_trim_piece l).
  - unfold split. rewrite split_go_no_sep by assumption.
    cbn [rev app name originalName].
    split; now apply (plain_trim_piece l).
Qed.

Lemma trim_after_space s : is_trimmed s = true -> trim (s ++ [32%N]) = s.
Proof.
  intros H. destruct s as [|c s]; [reflexivity|].
  now apply trim_space_after.
Qed.

(** A line made of plain fields is read back as those fields. *)
Lemma parse_format_plain i :
  plain (name i) -> plain (originalName i) ->
  parse_line (format_line i) = i.
Proof.
  intros (Hn1 & _ & Hn3) (Ho1 & _ & Ho3).
  destruct i as [n o]. cbn [name originalName] in *.
  unfold format_line, parse_line, jsstring_eqb, split.
  cbn [name originalName]. case_bool_decide as E.
  - subst o. rewrite split_go_no_sep by assumption. cbn [rev app].
    now rewrite trim_id.
  - rewrite split_go_spaced by assumption. cbn [rev app].
    now rewrite trim_after_space, trim_space_before.
Qed.

Lemma format_line_plain_one_line i :
  plain (name i) -> plain (originalName i) ->
  includes newline (format_line i) = false.
Proof.
  intros (_ & Hn & _) (_ & Ho & _). unfold format_line.
  destruct (jsstring_eqb _ _); [assumption|].
  rewrite !includes_newline_app, Hn, Ho. reflexivity.
Qed.

(** The line of an item is blank only when both its texts are empty. *)
Lemma format_line_blank i :
  plain (name i) -> plain (originalName i) ->
  negb (is_empty (trim (format_line i))) = has_text i.
Proof.
  intros (Hn & _) (Ho & _). unfold format_line, has_text, jsstring_eqb.
  case_bool_decide as E.
  - rewrite E, (trim_id _ Hn). now destruct (name i).
  - rewrite (trim_not_empty 124%N).
    + destruct (name i), (originalName i); try reflexivity. congruence.
    + apply List.in_or_app. right. cbn. auto.
    + reflexivity.
Qed.

Lemma parse_format_plain_items its :
  Forall (fun i => plain (name i) /\ plain (originalName i)) its ->
  parseStringToItems (formatItemsToString its) = List.filter has_text its.
Proof.
  intros H. unfold parseStringToItems, formatItemsToString.
  destruct its as [|i0 its0]; [reflexivity|].
  set (its := i0 :: its0) in *.
  rewrite split_join_lines.
  - induction H as [|i l [Hn Ho] _ IH]; [reflexivity|].
    cbn [List.map List.filter].
    rewrite (format_line_blank i Hn Ho).
    destruct (has_text i); cbn [List.map]; [|exact IH].
    now rewrite (parse_format_plain i Hn Ho), IH.
  - discriminate.
  - apply Forall_forall. intros l Hl.
    apply list_elem_of_In, List.in_map_iff in Hl as (a & <- & Ha).
    rewrite Forall_forall in H.
    destruct (H a) as [Hn Ho]; [now apply list_elem_of_In|].
    now apply format_line_plain_one_line.
Qed.

Lemma parseStringToItems_plain text :
  Forall (fun i => plain (name i) /\ plain (originalName i))
         (parseStringToItems text).
Proof.
  unfold parseStringToItems. apply Forall_forall. intros i Hi.
  apply list_elem_of_In, List.in_map_iff in Hi as (l & <- & Hl).
  apply List.filter_In in Hl as [Hl _].
  apply parse_line_plain.
  pose proof (split_pieces newline text newline_not_empty) as H.
  rewrite Forall_forall in H. now apply H, list_elem_of_In.
Qed.

(** Parsing what was parsed and shown again. *)
Lemma parseStringToItems_reparse text :
  parseStringToItems (formatItemsToString (parseStringToItems text))
  = List.filter has_text (parseStringToItems text).
Proof. apply parse_format_plain_items, parseStringToItems_plain. Qed.

Lemma filter_blank_lines lines :
  Forall (fun l => forallb is_white l = true) lines ->
  List.filter (fun line => negb (is_empty (trim line))) lines = [].
Proof.
  intros H. induction H as [|l ls Hl _ IH]; [reflexivity|].
  cbn [List.filter]. now rewrite (trim_blank l Hl).
Qed.

Lemma parseStringToItems_blank text :
  forallb is_white text = true -> parseStringToItems text = [].
Proof.
  intros H. unfold parseStringToItems.
  rewrite filter_blank_lines; [reflexivity|].
  pose proof (split_chars newline text) as Hc.
  eapply Forall_impl; [exact Hc|]. cbn. intros p Hp.
  apply List.forallb_forall. intros x Hx.
  rewrite List.forallb_forall in H. now apply H, Hp.
Qed.

(** X3. Items that were parsed are stable, and a blank text has none.
    Whatever the text, every item parsed from it has a name and an
    original name without white space at the ends, line break or ["||"];
    showing the parsed items in the textarea and parsing that text again
    gives the same items, in order, except those whose two texts are both
    empty (a line of ["||"] and white space), which are dropped; and a
    text of white space only, the empty text included, has no items. *)
Theorem parseStringToItems_stable text :
  Forall (fun i => plain (name i) /\ plain (originalName i))
         (parseStringToItems text)
  /\ parseStringToItems (formatItemsToString (parseStringToItems text))
     = List.filter has_text (parseStringToItems text)
  /\ (forallb is_white text = true -> parseStringToItems text = []).
Proof.
  split; [apply parseStringToItems_plain|].
  split; [apply parseStringToItems_reparse|apply parseStringToItems_blank].
Qed.

(** *** More than two parts *)

Lemma no_bar_starts c a rest :
  no_bar (c :: a) = true -> starts_with bars (c :: a ++ rest) = false.
Proof.
  unfold no_bar. cbn [forallb]. intros H. apply andb_prop in H as [H _].
  apply negb_true_iff, N.eqb_neq in H.
  unfold bars. cbn [starts_with].
  now rewrite (proj2 (N.eqb_neq 124 c)) by congruence.
Qed.

(** Up to the first ["||"] after a text without ["|"]. *)
Lemma split_go_bar_free cur a rest :
  no_bar a = true ->
  split_go bars 0 cur (a ++ bars ++ rest)
  = (rev cur ++ a) :: split_go bars 0 [] rest.
Proof.
  revert cur. induction a as [|c a IH]; intros cur H.
  - cbn. now rewrite app_nil_r.
  - cbn [app split_go]. rewrite (no_bar_starts c a _ H).
    unfold no_bar in H. cbn [forallb] in H. apply andb_prop in H as [_ H].
    rewrite (IH (c :: cur) H). cbn [rev]. now rewrite <- app_assoc.
Qed.

(** X4. A line keeps its first two parts only.  When a line has a second
    ["||"], what follows it is dropped: for texts [a] and [b] without
    ["|"], the line [a || b || c] is parsed as the item with original
    name [a] and name [b], both trimmed, whatever [c] is. *)
Theorem parse_line_extra_parts a b c :
  no_bar a = true -> no_bar b = true ->
  parse_line (a ++ bars ++ b ++ bars ++ c)
  = {| name := trim b; originalName := trim a |}.
Proof.
  intros Ha Hb. unfold parse_line, split.
  rewrite (split_go_bar_free [] a _ Ha).
  rewrite (split_go_bar_free [] b _ Hb). reflexivity.
Qed.

End ItemsMore.

(** ** Saving from the form: missing amounts, and editing without a
    change *)

Section HandleSaveMore.
Import JsNumber JsString Types AddExpenseModal EditForm.

Lemma or_zero_idempotent x : or_zero (or_zero x) = or_zero x.
Proof.
  unfold or_zero. destruct (truthy x) eqn:E; [now rewrite E|].
  now destruct (truthy 0).
Qed.

Lemma or_zero_falsy x : truthy x = false -> or_zero x = 0%float.
Proof. unfold or_zero. now intros ->. Qed.

(** [+0] times a positive finite number is [+0]. *)
Lemma float_zero_mul r :
  is_finite r = true -> PrimFloat.ltb 0 r = true -> (0 * r)%float = 0%float.
Proof.
  unfold is_finite. rewrite ltb_spec. intros Hf Hpos.
  apply Prim2SF_inj. rewrite mul_spec.
  change (Prim2SF 0) with (S754_zero false) in *.
  destruct (Prim2SF r) as [s|s| |s m e]; try discriminate.
  destruct s; [discriminate|reflexivity].
Qed.

(** [+0] divided by a number that is at least [1] is [+0]. *)
Lemma float_zero_div n :
  PrimFloat.leb 1 n = true -> (0 / n)%float = 0%float.
Proof.
  rewrite leb_spec. intros Hn.
  apply Prim2SF_inj. rewrite div_spec.
  change (Prim2SF 0) with (S754_zero false).
  change (Prim2SF 1) with (S754_finite false 4503599627370496 (-52)) in Hn.
  destruct (Prim2SF n) as [s|s| |s m e]; try discriminate;
    destruct s; try discriminate; reflexivity.
Qed.

Lemma split_count_ge f :
  (f_isSplit f = true -> PrimFloat.is_nan (f_totalPeople f) = false) ->
  PrimFloat.leb 1
    (if f_isSplit f then Math_max_1 (f_totalPeople f) else 1%float) = true.
Proof.
  intros H. destruct (f_isSplit f); [|reflexivity].
  now apply Math_max_1_ge, H.
Qed.

(** X1. An expense saved without an amount is an expense of zero.  When
    the amount field is blank, zero or not a number, the rate is a
    positive finite number and the head count of a split is a number, the
    amount stored is [0] and so are the total, the share and the debt:
    none of them is [NaN]. *)
Theorem handleSave_no_amount T init u iso f e :
  handleSave T init u iso f = Some e ->
  truthy (Number_of (f_amount f)) = false ->
  is_finite (f_rate f) = true ->
  PrimFloat.ltb 0 (f_rate f) = true ->
  (f_isSplit f = true -> PrimFloat.is_nan (f_totalPeople f) = false) ->
  originalAmount e = 0%float
  /\ totalTWD e = 0%float
  /\ myShareTWD e = 0%float
  /\ debtAmountTWD e = 0%float.
Proof.
  intros Hs Ha Hf Hpos Hn.
  destruct (handleSave_fields T init u iso f e Hs)
    as (Hamt & Hr & Hsc & Ht & Hm & Hd).
  rewrite (or_zero_falsy _ Ha) in Hamt.
  assert (Ht0 : totalTWD e = 0%float).
  { rewrite Ht, Hamt, Hr. now apply float_zero_mul. }
  assert (Hm0 : myShareTWD e = 0%float).
  { rewrite Hm, Ht0, Hsc. now apply float_zero_div, split_count_ge. }
  repeat split; try assumption.
  rewrite Hd, Ht0, Hm0. reflexivity.
Qed.

Lemma split_count_reload sc :
  PrimFloat.is_nan sc = false ->
  (sc = 1%float \/ exists p, sc = Math_max_1 p) ->
  (if PrimFloat.ltb 1 sc
   then Math_max_1 (if PrimFloat.ltb 1 sc then sc else 1%float)
   else 1%float) = sc.
Proof.
  intros Hnan Hsc. destruct (PrimFloat.ltb 1 sc) eqn:E.
  - unfold Math_max_1. now rewrite Hnan, E.
  - destruct Hsc as [-> | [p ->]]; [reflexivity|].
    unfold Math_max_1 in *. destruct (PrimFloat.is_nan p); [discriminate|].
    destruct (PrimFloat.ltb 1 p) eqn:Ep; [congruence|reflexivity].
Qed.

Lemma filter_all {A} (f : A -> bool) l :
  forallb f l = true -> List.filter f l = l.
Proof.
  induction l as [|x l IH]; [reflexivity|]. cbn.
  intros H. apply andb_prop in H as [-> H]. now rewrite IH.
Qed.

(** X2. Editing an expense and saving it unchanged changes nothing.  For
    an expense [e] that the form saved (with an id, a split count that is
    a number, and no item without text), opening [e] in the form and
    saving at once hands [onSave] the same expense, field by field,
    provided the date shown for [e] converts back to the date of [e]. *)
Theorem handleSave_edit_unchanged
    T init0 u0 u1 iso toLocalDateTime now f0 e :
  handleSave T init0 u0 iso f0 = Some e ->
  id e <> [] ->
  PrimFloat.is_nan (splitCount e) = false ->
  forallb has_text (items e) = true ->
  iso (f_date (edit_form toLocalDateTime now e)) = Some (date e) ->
  handleSave T (Some e) u1 iso (edit_form toLocalDateTime now e) = Some e.
Proof.
  intros Hs Hid Hnan Hitems Hdate.
  assert (Hsc : splitCount e = 1%float
                \/ exists p, splitCount e = Math_max_1 p).
  { destruct (handleSave_fields T init0 u0 iso f0 e Hs)
      as (_ & _ & Hsc & _).
    rewrite Hsc. destruct (f_isSplit f0); eauto. }
  pose proof (split_count_reload _ Hnan Hsc) as Hreload.
  assert (Hreparse : parseStringToItems (formatItemsToString (items e))
                     = items e).
  { revert Hs Hitems. unfold handleSave.
    destruct (iso (f_date f0)); [|discriminate]. intros [= <-].
    cbn [items]. intros Hitems.
    rewrite parse_format_plain_items by apply parseStringToItems_plain.
    now apply filter_all. }
  unfold handleSave at 1. rewrite Hdate.
  cbn [edit_form f_amount f_rate f_isSplit f_totalPeople f_storeName
       f_itemsText f_currency f_image Number_of from_option].
  rewrite Hreparse, Hreload.
  revert Hs Hid. unfold handleSave.
  destruct (iso (f_date f0)) as [d0|]; [|discriminate]. intros [= <-].
  cbn [id tripId storeName date items originalCurrency originalAmount
       exchangeRate totalTWD paidByMe splitCount myShareTWD debtAmountTWD
       isRepaid receiptImage].
  intros Hid. rewrite or_zero_idempotent. f_equal. f_equal.
  - unfold or_else at 1. now destruct (or_else _ u0).
  - unfold or_else. destruct (f_storeName f0); reflexivity.
  - destruct (f_image f0) as [[|c img]|]; reflexivity.
Qed.

End HandleSaveMore.

(** ** The user's key and the allowance shown *)

Section UserKeyFacts.
Import JsString Js Gemini GeminiState.

Variable setItem_throws : Storage -> Write -> bool.
Variable JSON_parse : jsstring -> option JsVal.
Variable currentUserEmail : option jsstring.
Variable env_API_KEY : jsstring.
Variable setKey_throws : Storage -> jsstring -> bool.
Variable removeKey_throws : Storage -> bool.

Local Abbreviation analyze :=
  (analyzeReceipt setItem_throws JSON_parse currentUserEmail env_API_KEY).

(** The allowance shown agrees with the gate.  The number of analyses
    left that the settings show is [0] exactly when [analyzeReceipt]
    would refuse a user of the shared key; it is never negative, and it
    is what is left of the two of the day when no more than two were
    counted. *)
Lemma getRemainingApiCalls_gate st today :
  (getRemainingApiCalls st today = 0%Z
   <-> hasReachedDailyLimit st today = true)
  /\ (0 <= getRemainingApiCalls st today)%Z
  /\ ((getApiUsageToday st today <= DAILY_API_LIMIT)%Z ->
      (getRemainingApiCalls st today + getApiUsageToday st today
       = DAILY_API_LIMIT)%Z).
Proof.
  unfold getRemainingApiCalls, hasReachedDailyLimit, DAILY_API_LIMIT.
  rewrite Z.leb_le. repeat split; lia.
Qed.

(** X30. A key the user saves is the key that is used.  When the text is
    not blank and the browser accepts the write, [saveUserApiKey] keeps
    the trimmed text, [hasUserApiKey] holds, and from then on every
    [analyzeReceipt] reaches the model with that key, whatever was
    counted that day; a text that is blank once trimmed is ignored and
    leaves the storage, an earlier key included, as it is. *)
Theorem saveUserApiKey_used st key :
  (is_empty (trim key) = true ->
   saveUserApiKey setKey_throws st key = st)
  /\ (is_empty (trim key) = false ->
      setKey_throws st (trim key) = false ->
      let st' := saveUserApiKey setKey_throws st key in
      getUserApiKey st' = Some (trim key)
      /\ hasUserApiKey st' = true
      /\ rate_cache st' = rate_cache st
      /\ api_usage st' = api_usage st
      /\ forall today img,
          exists k,
            analyze st' today img = Ask (trim key, img) k
            /\ forall o st1, snd (k o st1) = st1).
Proof.
  unfold saveUserApiKey. split; [now intros ->|].
  intros Hne Hw. rewrite Hne, Hw. cbn zeta.
  unfold hasUserApiKey. cbn [with_key getUserApiKey user_api_key rate_cache
                             api_usage].
  rewrite Hne. repeat split.
  intros today img. unfold analyzeReceipt.
  cbn [with_key getUserApiKey user_api_key has_key]. rewrite Hne.
  cbn [negb andb from_option]. eexists. split; [reflexivity|].
  intros [|[[|c t]|]] st1; cbn; try reflexivity.
  now destruct (JSON_parse (c :: t)).
Qed.

(** Clearing the key puts the user back on the shared key: once the
    browser has removed it, [hasUserApiKey] no longer holds, and a user
    who is not an administrator, with the day's allowance spent, is
    refused again. *)
Lemma clearUserApiKey_shared st today img :
  removeKey_throws st = false ->
  let st' := clearUserApiKey removeKey_throws st in
  hasUserApiKey st' = false
  /\ api_usage st' = api_usage st
  /\ (isAdmin currentUserEmail = false ->
      hasReachedDailyLimit st today = true ->
      analyze st' today img = Done (inl DAILY_LIMIT_REACHED)).
Proof.
  intros Hw. unfold clearUserApiKey. rewrite Hw. cbn zeta.
  split; [reflexivity|]. split; [reflexivity|].
  intros Hadm Hlim. unfold analyzeReceipt.
  cbn [with_key getUserApiKey user_api_key has_key]. rewrite Hadm.
  unfold hasReachedDailyLimit, getApiUsageToday in *.
  cbn [with_key api_usage]. now rewrite Hlim.
Qed.

End UserKeyFacts.

(** ** The totals of the trip view *)

Section TotalsFacts.
Import JsString Types TripDetailView.

Lemma owed_from acc es :
  fold_left (fun sum e => if isRepaid e then sum
                          else (sum + debtAmountTWD e)%float) es acc
  = fold_left (fun sum x => (sum + x)%float)
      (List.map debtAmountTWD (List.filter (fun e => negb (isRepaid e)) es))
      acc.
Proof.
  revert acc. induction es as [|e es IH]; intros acc; [reflexivity|].
  cbn [fold_left List.filter]. destruct (isRepaid e); cbn; apply IH.
Qed.

(** X5. What is owed counts the debts that are not repaid and only those:
    [totalOwedToMe] is the sum, from [0] and in the order of the list, of
    the debts of the expenses not marked repaid; it is the total of the
    list without the repaid expenses, and [0] when all are repaid. *)
Theorem totalOwedToMe_unrepaid es :
  totalOwedToMe es
  = fold_left (fun sum x => (sum + x)%float)
      (List.map debtAmountTWD (List.filter (fun e => negb (isRepaid e)) es))
      0%float
  /\ totalOwedToMe es
     = totalOwedToMe (List.filter (fun e => negb (isRepaid e)) es)
  /\ (forallb isRepaid es = true -> totalOwedToMe es = 0%float).
Proof.
  unfold totalOwedToMe. split; [apply owed_from|]. split.
  - rewrite !owed_from. f_equal. f_equal.
    induction es as [|e es IH]; [reflexivity|].
    cbn [List.filter]. destruct (isRepaid e) eqn:E; cbn [negb].
    + exact IH.
    + cbn [List.filter]. rewrite E. cbn [negb]. now f_equal.
  - intros H. rewrite owed_from.
    replace (List.filter (fun e => negb (isRepaid e)) es) with (@nil Expense);
      [reflexivity|].
    induction es as [|e es IH]; [reflexivity|].
    cbn in H. apply andb_prop in H as [He H].
    cbn [List.filter]. rewrite He. cbn [negb]. now apply IH.
Qed.

Lemma toggled_twice e : toggled (toggled e) = e.
Proof. destruct e. unfold toggled. cbn. now rewrite negb_involutive. Qed.

(** Marking an expense repaid and unmarking it restores the list.
    When the expenses shown have distinct ids, [toggleRepayment] changes
    the expense passed and no other, flipping [isRepaid] and nothing
    else, and a second [toggleRepayment], of the expense as now shown,
    gives the first list back. *)
Lemma toggleRepayment_twice e es :
  In e es ->
  NoDup (List.map id es) ->
  let es' := toggleRepayment e es in
  List.map id es' = List.map id es
  /\ (forall x, In x es -> x <> e -> In x es')
  /\ In (toggled e) es'
  /\ toggleRepayment (toggled e) es' = es.
Proof.
  intros Hin Hnd es'.
  assert (Hsame : forall x, In x es -> id x = id e -> x = e).
  { clear es'. induction es as [|y es IH]; [destruct Hin|].
    cbn in Hnd. apply NoDup_cons in Hnd as [Hy Hnd].
    intros x [->|Hx] Hid; destruct Hin as [->|He]; try reflexivity.
    - exfalso. apply Hy. rewrite Hid.
      now apply list_elem_of_In, List.in_map.
    - exfalso. apply Hy. rewrite <- Hid.
      now apply list_elem_of_In, List.in_map.
    - now apply IH. }
  subst es'. unfold toggleRepayment. cbn zeta.
  change (id (toggled ?x)) with (id x).
  split; [|split; [|split]].
  - rewrite List.map_map. apply List.map_ext. intros x.
    now case_bool_decide as E; [rewrite E|].
  - intros x Hx Hne. apply List.in_map_iff. exists x. split; [|assumption].
    rewrite bool_decide_eq_false_2; [reflexivity|].
    intros E. apply Hne. now apply Hsame.
  - apply List.in_map_iff. exists e. split; [|assumption].
    now rewrite bool_decide_eq_true_2.
  - rewrite List.map_map. rewrite <- (List.map_id es) at 2.
    apply List.map_ext_in. intros x Hx. rewrite toggled_twice.
    destruct (bool_decide_reflect (id x = id e)) as [E|E].
    + change (id (toggled e)) with (id e).
      rewrite bool_decide_eq_true_2 by reflexivity.
      symmetry. now apply Hsame.
    + now rewrite bool_decide_eq_false_2.
Qed.

End TotalsFacts.

(** ** The theme preference *)

Section ThemeFacts.
Import JsString Theme.

(** The theme that is saved is the theme that is read, and what is
    read is always a theme: after an accepted [saveThemePreference]
    [getThemePreference] returns the mode saved; after a refused one, the
    stored value is as before and the console shows the error; and any
    stored text other than ["light"] and ["dark"], or none, reads as
    [system]. *)
Lemma theme_round_trip setItem_throws item theme :
  (setItem_throws (text_of theme) = false ->
   getThemePreference
     (fst (saveThemePreference setItem_throws item theme)) = theme)
  /\ (setItem_throws (text_of theme) = true ->
      saveThemePreference setItem_throws item theme = (item, true))
  /\ (forall s, s <> js "light" -> s <> js "dark" ->
                getThemePreference (Some s) = system)
  /\ getThemePreference None = system.
Proof.
  unfold saveThemePreference. repeat split.
  - intros ->. now destruct theme.
  - now intros ->.
  - intros s Hl Hd. unfold getThemePreference.
    now rewrite !bool_decide_eq_false_2 by assumption.
Qed.

End ThemeFacts.

(** ** Updating an expense document *)

Section UpdateFacts.
Import JsString Js Encode Firestore FirestoreTrips.

Lemma keys_set_field_absent k v o :
  ~ In k (keys o) -> keys (set_field k v o) = keys o ++ [k].
Proof.
  induction o as [|[k' v'] o IH]; cbn; [reflexivity|].
  intros H. rewrite bool_decide_eq_false_2 by (intros ->; apply H; now left).
  cbn. f_equal. apply IH. intros Hin. apply H. now right.
Qed.

Lemma NoDup_keys_set_field k v o :
  NoDup (keys o) -> NoDup (keys (set_field k v o)).
Proof.
  intros Hnd. destruct (in_dec string_dec k (keys o)) as [Hin|Hout].
  - now rewrite keys_set_field_present.
  - rewrite keys_set_field_absent by assumption.
    apply NoDup_app. split; [assumption|]. split.
    + intros x Hx Hk. apply list_elem_of_In in Hx.
      apply list_elem_of_In in Hk as [->|[]]. contradiction.
    + apply NoDup_singleton.
Qed.

Lemma NoDup_keys_removeUndefined o :
  NoDup (keys o) -> NoDup (keys (removeUndefined o)).
Proof.
  induction o as [|[k v] o IH]; [constructor|].
  cbn [keys List.map fst]. intros Hnd.
  apply NoDup_cons in Hnd as [Hk Hnd].
  rewrite removeUndefined_cons. destruct (is_undefined v); [now apply IH|].
  cbn. apply NoDup_cons. split; [|now apply IH].
  intros Hin. apply Hk, list_elem_of_In, keys_removeUndefined.
  now apply list_elem_of_In.
Qed.

(** A property that reads as [undefined] is not sent. *)
Lemma removeUndefined_absent f o :
  NoDup (keys o) -> get f o = JUndefined ->
  ~ In f (keys (removeUndefined o)).
Proof.
  induction o as [|[k v] o IH]; [intros _ _ []|].
  cbn [keys List.map fst get]. intros Hnd Hget.
  apply NoDup_cons in Hnd as [Hk Hnd].
  rewrite removeUndefined_cons. case_bool_decide as E.
  - subst k v. cbn [is_undefined]. intros Hin. apply Hk.
    now apply list_elem_of_In, keys_removeUndefined.
  - destruct (is_undefined v); [now apply IH|].
    cbn. intros [Heq|Hin]; [congruence|]. now apply IH.
Qed.

Variable uid : jsstring.
Variable updateDoc_fault : jsstring -> JsObject -> option Error.

Local Abbreviation update := (updateExpense (Some uid) updateDoc_fault).
Local Abbreviation data_of updated :=
  (removeUndefined (set_field "userId" (JStr uid) updated)).

(** X23. [updateExpense] changes an existing document and never creates
    one.  Without an id it throws before anything else; when no document
    has the id it fails and the store is as before.  When it ends well
    the document had existed, and it now has the caller as [userId],
    every property passed with a value, and, for every other property,
    one not passed or passed as [undefined], the value it had: an update
    without a [receiptImage] keeps the image stored. *)
Theorem updateExpense_merges updated d :
  NoDup (keys updated) ->
  (truthy (get "id" updated) = false ->
   update updated d
   = (inl Expense_ID_is_missing, d, [Console_error_updating]))
  /\ (forall docId,
         get "id" updated = JStr docId ->
         expenses d !! docId = None ->
         exists err, fst (update updated d) = (inl err, d))
  /\ (forall d' evs,
         update updated d = (inr tt, d', evs) ->
         exists docId old new,
           get "id" updated = JStr docId
           /\ expenses d !! docId = Some old
           /\ expenses d' !! docId = Some new
           /\ get "userId" new = JStr uid
           /\ (forall f, f <> "userId" -> get f updated <> JUndefined ->
                         get f new = get f updated)
           /\ (forall f, f <> "userId" -> get f updated = JUndefined ->
                         get f new = get f old)
           /\ (forall k, k <> docId -> expenses d' !! k = expenses d !! k)
           /\ trips d' = trips d
           /\ evs = []).
Proof.
  intros Hnd. unfold updateExpense.
  split; [now intros ->|]. split.
  - intros docId Hid Hmiss. rewrite Hid.
    destruct docId as [|c docId]; cbn [truthy is_empty negb doc_ref].
    + eexists. reflexivity.
    + destruct (updateDoc_fault _ _) as [err|].
      * exists (Thrown err). reflexivity.
      * rewrite Hmiss. eexists. reflexivity.
  - intros d' evs. destruct (truthy (get "id" updated)); [|discriminate].
    cbn [negb].
    destruct (doc_ref (get "id" updated)) as [docId|] eqn:Eref;
      [|discriminate].
    destruct (updateDoc_fault docId _) as [err|]; [discriminate|].
    destruct (expenses d !! docId) as [old|] eqn:Eold; [|discriminate].
    intros [= <- <-].
    assert (Hid : get "id" updated = JStr docId).
    { unfold doc_ref in Eref. destruct (get "id" updated); try discriminate.
      destruct (is_empty s); now inversion Eref. }
    set (sent := set_field "userId" (JStr uid) updated).
    assert (Hsent : NoDup (keys sent)) by now apply NoDup_keys_set_field.
    assert (Hkeys : NoDup (keys (removeUndefined sent)))
      by now apply NoDup_keys_removeUndefined.
    assert (Huser : get "userId" (removeUndefined sent) = JStr uid).
    { subst sent.
      rewrite get_removeUndefined; rewrite get_set_field_eq; congruence. }
    exists docId, old, (assign old (removeUndefined sent)).
    cbn [expenses trips].
    split; [exact Hid|]. split; [exact Eold|].
    split; [apply lookup_insert_eq|]. split.
    { rewrite get_assign_in; [exact Huser|exact Hkeys|].
      apply get_in_keys. rewrite Huser. discriminate. }
    split.
    { intros f Hf Hv.
      assert (Hget : get f (removeUndefined sent) = get f updated).
      { subst sent. rewrite get_removeUndefined;
          rewrite get_set_field_ne by congruence; [reflexivity|exact Hv]. }
      rewrite get_assign_in; [exact Hget|exact Hkeys|].
      apply get_in_keys. now rewrite Hget. }
    split.
    { intros f Hf Hv. apply get_assign_ne.
      apply removeUndefined_absent; [exact Hsent|].
      subst sent. now rewrite get_set_field_ne by congruence. }
    split; [intros k Hk; now apply lookup_insert_ne|]. now split.
Qed.

End UpdateFacts.

(** ** The further developments on sample data *)

Section GatewayMoreExamples.
Import JsString Js Gemini GeminiState Samples MoreSamples.

Lemma cached_storage_positive : cache_positive cached_storage.
Proof.
  intros cache c e r [= <-] Hc He.
  destruct (decide (c = js "USD")) as [->|Hne].
  - rewrite lookup_singleton_eq in Hc. injection Hc as <-.
    now injection He as <-.
  - now rewrite lookup_singleton_ne in Hc by congruence.
Qed.

Lemma fetchExchangeRate_rate_positive_witness :
  fetchExchangeRate upper_ascii parse_sample accepts_writes cached_storage
    today usd
  = Done {| rate := 32.5; source := js "Cache (Today)" |}
  /\ PrimFloat.ltb 0 32.5 = true.
Proof.
  split; [vm_compute; reflexivity|].
  exact (fetchExchangeRate_rate_positive upper_ascii parse_sample
           accepts_writes cached_storage today usd cached_storage_positive).
Defined.

(** A lookup for the yen leaves the cached rate of the dollar. *)
Lemma fetchExchangeRate_keeps_other_entries_witness :
  exists q k,
    fetchExchangeRate upper_ascii parse_sample accepts_writes cached_storage
      today (js "jpy") = Ask q k
    /\ getRateFromCache
         (snd (k (ModelResponse (Some (js "32.5"))) cached_storage))
         today (js "USD")
       = Some 32.5%float.
Proof.
  do 2 eexists. split; [reflexivity|].
  destruct (fetchExchangeRate_keeps_other_entries upper_ascii parse_sample
              accepts_writes cached_storage today (js "jpy") _ _
              (ModelResponse (Some (js "32.5"))) cached_storage eq_refl)
    as (H & _).
  rewrite (H today (js "USD")); [reflexivity|discriminate].
Defined.

Lemma fetchExchangeRate_cache_expires_witness :
  exists q k st',
    fetchExchangeRate upper_ascii parse_sample accepts_writes fresh_storage
      today usd = Ask q k
    /\ k (ModelResponse (Some (js "32.5"))) fresh_storage
       = ({| rate := 32.5; source := js "Google Search" |}, st')
    /\ asks (fetchExchangeRate upper_ascii parse_sample accepts_writes st'
               tomorrow usd) = true.
Proof.
  do 3 eexists. split; [reflexivity|]. split; [reflexivity|].
  refine (fetchExchangeRate_cache_expires upper_ascii parse_sample
            accepts_writes fresh_storage today usd _ _
            (ModelResponse (Some (js "32.5"))) fresh_storage 32.5 _ tomorrow
            eq_refl eq_refl eq_refl _).
  discriminate.
Defined.

(** The answer "about 0 today, 32.5 tomorrow" is read as [0]. *)
Lemma fetchExchangeRate_reads_first_run_witness :
  exists q k,
    fetchExchangeRate upper_ascii parse_sample accepts_writes fresh_storage
      today usd = Ask q k
    /\ k (ModelResponse (Some (js "about 0 today, 32.5 tomorrow")))
         fresh_storage
       = ({| rate := 1; source := js "Failed" |}, fresh_storage).
Proof.
  do 2 eexists. split; [reflexivity|].
  exact (fetchExchangeRate_reads_first_run upper_ascii parse_sample
           accepts_writes fresh_storage today usd _ _
           (js "about ") (js "0") (js " today, 32.5 tomorrow") fresh_storage
           eq_refl eq_refl ltac:(discriminate) eq_refl eq_refl).
Defined.

Lemma analyzeReceipt_daily_allowance_witness :
  exists q1 k1 q2 k2,
    analyzeReceipt accepts_writes parse_json_sample None (js "shared-key")
      fresh_storage today receipt = Ask q1 k1
    /\ analyzeReceipt accepts_writes parse_json_sample None (js "shared-key")
         (snd (k1 (ModelResponse (Some (js "{}"))) fresh_storage))
         today receipt = Ask q2 k2
    /\ analyzeReceipt accepts_writes parse_json_sample None (js "shared-key")
         (snd (k2 (ModelResponse (Some (js "{}")))
                  (snd (k1 (ModelResponse (Some (js "{}"))) fresh_storage))))
         today receipt
       = Done (inl DAILY_LIMIT_REACHED).
Proof.
  apply (analyzeReceipt_daily_allowance accepts_writes parse_json_sample
           None (js "shared-key") fresh_storage today receipt receipt
           receipt (js "{}") (js "{}"));
    first [reflexivity | discriminate].
Defined.

(** A reply that is not JSON is counted, and answered with the
    fallback. *)
Lemma analyzeReceipt_counts_answers_witness :
  exists q k,
    analyzeReceipt accepts_writes parse_json_sample None (js "shared-key")
      fresh_storage today receipt = Ask q k
    /\ snd (k ModelThrows fresh_storage) = fresh_storage
    /\ getApiUsageToday
         (snd (k (ModelResponse (Some (js "<html>"))) fresh_storage)) today
       = 1%Z
    /\ fst (k (ModelResponse (Some (js "<html>"))) fresh_storage)
       = inr (JObj (fallback today)).
Proof.
  do 2 eexists. split; [reflexivity|].
  destruct (analyzeReceipt_counts_answers accepts_writes parse_json_sample
              None (js "shared-key") fresh_storage today receipt _ _
              eq_refl eq_refl eq_refl) as [Hfail Hans].
  split; [exact (proj1 (Hfail fresh_storage))|].
  destruct (Hans 60%N (js "html>") fresh_storage) as [Hs Hf].
  split; [|exact (Hf eq_refl)].
  change (js "<html>") with (60%N :: js "html>"). rewrite Hs. reflexivity.
Defined.

Lemma analyzeReceipt_own_key_witness :
  exists k,
    analyzeReceipt accepts_writes parse_json_sample None (js "shared-key")
      spent_storage today receipt
    = Ask (js "my-key", receipt) k
    /\ snd (k (ModelResponse (Some (js "{}"))) spent_storage)
       = spent_storage.
Proof.
  destruct (analyzeReceipt_own_key accepts_writes parse_json_sample None
              (js "shared-key") spent_storage today receipt
              (or_introl eq_refl)) as (k & Hk & Hst).
  exists k. split; [exact Hk|apply Hst].
Defined.

Lemma saveUserApiKey_used_witness :
  saveUserApiKey accepts_key fresh_storage (js "   ") = fresh_storage
  /\ getUserApiKey (saveUserApiKey accepts_key fresh_storage (js " my-key "))
     = Some (js "my-key")
  /\ exists k,
      analyzeReceipt accepts_writes parse_json_sample None (js "shared-key")
        (saveUserApiKey accepts_key fresh_storage (js " my-key "))
        today receipt
      = Ask (js "my-key", receipt) k.
Proof.
  destruct (saveUserApiKey_used accepts_writes parse_json_sample None
              (js "shared-key") accepts_key fresh_storage (js "   "))
    as [Hblank _].
  destruct (saveUserApiKey_used accepts_writes parse_json_sample None
              (js "shared-key") accepts_key fresh_storage (js " my-key "))
    as [_ Hkey].
  destruct (Hkey eq_refl eq_refl) as (Hget & _ & _ & _ & Hcall).
  split; [exact (Hblank eq_refl)|]. split; [exact Hget|].
  destruct (Hcall today receipt) as (k & Hk & _).
  exists k. exact Hk.
Defined.

Lemma clearUserApiKey_shared_witness :
  hasUserApiKey (clearUserApiKey removes_key spent_storage) = false
  /\ analyzeReceipt accepts_writes parse_json_sample None (js "shared-key")
       (clearUserApiKey removes_key spent_storage) today receipt
     = Done (inl DAILY_LIMIT_REACHED).
Proof.
  destruct (clearUserApiKey_shared accepts_writes parse_json_sample None
              (js "shared-key") removes_key spent_storage today receipt
              eq_refl) as (Hno & _ & Hcall).
  split; [exact Hno|exact (Hcall eq_refl eq_refl)].
Defined.

End GatewayMoreExamples.

Section LocalMoreExamples.
Import JsString Types Js Encode LocalStore Samples MoreSamples.

Lemma legacy_storage_json : holds_json legacy_storage.
Proof. split; repeat constructor. Qed.

(** Out of room for images, the expense is added without its image and
    nothing else changes. *)
Lemma saveExpense_keeps_stored_witness :
  exists added,
    getAllExpenses
      (fst (saveExpense no_room_for_images legacy_storage
              (expense_to_js expense_with_image)))
    = getAllExpenses legacy_storage ++ added
    /\ length added = 1%nat
    /\ trips_item
         (fst (saveExpense no_room_for_images legacy_storage
                 (expense_to_js expense_with_image)))
       = trips_item legacy_storage.
Proof.
  destruct (saveExpense_keeps_stored no_room_for_images legacy_storage
              (expense_to_js expense_with_image) legacy_storage_json)
    as (Htrips & added & Hall & Hadded).
  exists added. split; [exact Hall|]. split; [|exact Htrips].
  destruct Hadded as [-> | [-> | ->]]; [|reflexivity|reflexivity].
  apply (f_equal (@length JsObject)) in Hall. vm_compute in Hall.
  discriminate Hall.
Defined.

Lemma saveExpense_read_back_witness :
  exists ls',
    saveExpense roomy legacy_storage (expense_to_js expense_with_image)
    = (ls', [])
    /\ List.map (get "id") (getExpensesForTrip ls' tokyo)
       = [JStr (js "e1"); JStr (js "e9")]
    /\ getExpensesForTrip ls' (js "T2")
       = getExpensesForTrip legacy_storage (js "T2").
Proof.
  destruct (saveExpense_read_back roomy legacy_storage expense_with_image
              legacy_storage_json eq_refl)
    as (ls' & Hs & Hread & Hother & _).
  exists ls'. split; [exact Hs|]. split.
  - change (tripId expense_with_image) with tokyo in Hread.
    rewrite Hread. vm_compute. reflexivity.
  - apply Hother. discriminate.
Defined.

Lemma saveExpense_deleteExpense_witness :
  exists ls1 ls2,
    saveExpense roomy legacy_storage (expense_to_js expense_with_image)
    = (ls1, [])
    /\ deleteExpense roomy ls1 (js "e9") = (ls2, None)
    /\ getAllExpenses ls2 = getAllExpenses legacy_storage.
Proof.
  destruct (saveExpense_deleteExpense roomy legacy_storage
              expense_with_image legacy_storage_json
              (fun _ _ _ => eq_refl))
    as (ls1 & ls2 & H1 & H2 & H3 & _).
  - repeat constructor; discriminate.
  - exists ls1, ls2. auto.
Defined.

(** An update under an id that is not stored stores nothing. *)
Lemma updateExpense_never_adds_witness :
  getAllExpenses
    (fst (updateExpense roomy legacy_storage
            (expense_to_js expense_with_image)))
  = getAllExpenses legacy_storage.
Proof.
  destruct (updateExpense_never_adds roomy legacy_storage
              (expense_to_js expense_with_image) legacy_storage_json)
    as (_ & _ & H).
  apply H. repeat constructor.
Defined.

Lemma updateExpense_replaces_witness :
  exists ls',
    updateExpense roomy legacy_storage (expense_to_js kyoto_repaid)
    = (ls', [])
    /\ List.map (get "isRepaid") (getAllExpenses ls')
       = [JUndefined; JBool true]
    /\ List.map (get "id") (getAllExpenses ls')
       = [JStr (js "e1"); JStr (js "e2")].
Proof.
  destruct (updateExpense_replaces roomy legacy_storage kyoto_repaid
              legacy_storage_json eq_refl) as (ls' & Hs & Hall).
  exists ls'. split; [exact Hs|]. rewrite Hall.
  split; vm_compute; reflexivity.
Defined.

Lemma deleteExpense_local_witness :
  exists ls',
    deleteExpense roomy legacy_storage (js "e1") = (ls', None)
    /\ List.map (get "id") (getAllExpenses ls') = [JStr (js "e2")]
    /\ trips_item ls' = trips_item legacy_storage.
Proof.
  destruct (deleteExpense_local roomy legacy_storage (js "e1")
              legacy_storage_json) as (ls' & Hs & Hall & _ & Ht).
  exists ls'. split; [exact Hs|]. split; [|exact Ht].
  rewrite Hall. vm_compute. reflexivity.
Defined.

(** The trip is gone and its expense is still there. *)
Lemma deleteTrip_local_orphans_witness :
  exists ls1,
    deleteTrip no_room_for_expenses legacy_storage tokyo
    = (ls1, Some QuotaError)
    /\ List.map (get "id") (getTrips ls1) = [JStr (js "T2")]
    /\ List.map (get "id") (getExpensesForTrip ls1 tokyo)
       = [JStr (js "e1")].
Proof.
  destruct (deleteTrip_local_orphans no_room_for_expenses legacy_storage
              tokyo QuotaError legacy_storage_json eq_refl eq_refl)
    as (Hs & _ & _ & Hexp).
  eexists. split; [exact Hs|]. split; [reflexivity|].
  rewrite Hexp. reflexivity.
Defined.

Lemma save_failure_only_logged_witness :
  saveExpense broken legacy_storage (expense_to_js expense_with_image)
  = (legacy_storage, [Console_error])
  /\ updateExpense broken legacy_storage (expense_to_js kyoto_repaid)
     = (legacy_storage, [Console_error]).
Proof.
  split.
  - apply (save_failure_only_logged broken legacy_storage
             (expense_to_js expense_with_image) OtherError
             (or_introl eq_refl)). reflexivity.
  - apply (save_failure_only_logged broken legacy_storage
             (expense_to_js kyoto_repaid) OtherError (or_introl eq_refl)).
    reflexivity.
Defined.

Lemma saveTrip_local_witness :
  exists ls' ls'',
    saveTrip roomy legacy_storage osaka_trip = (ls', [])
    /\ List.map (get "name") (getTrips ls')
       = [JStr (js "Tokyo"); JStr (js "Kyoto"); JStr (js "Osaka")]
    /\ List.map keys (getTrips ls')
       = [["id"; "name"]; ["id"; "name"]; ["id"; "name"; "startDate"]]
    /\ deleteTrip roomy ls' (js "T3") = (ls'', None)
    /\ getTrips ls'' = getTrips legacy_storage
    /\ getAllExpenses ls'' = getAllExpenses legacy_storage.
Proof.
  destruct (saveTrip_local roomy legacy_storage osaka_trip
              legacy_storage_json) as (ls' & Hs & Hall & _ & Hundo).
  destruct (Hundo (js "T3") eq_refl) as (ls'' & Hd & Ht & He).
  - repeat constructor; discriminate.
  - repeat constructor; discriminate.
  - reflexivity.
  - exists ls', ls''. split; [exact Hs|]. rewrite Hall.
    split; [vm_compute; reflexivity|]. split; [vm_compute; reflexivity|].
    auto.
Defined.

End LocalMoreExamples.

Section FirestoreMoreExamples.
Import JsString Types Js Encode Firestore FirestoreTrips Samples MoreSamples.

(** Bob's copy of an expense is stored as Bob's. *)
Lemma saveExpense_document_witness :
  exists w' d,
    Firestore.saveExpense (Some bob) answering next_id
      (doc (js "e1") tokyo alice (js "2024-01-02T03:30:00.000Z") JNull)
      empty_world
    = (inr (js "e1"), w')
    /\ expenses (db w') !! js "e1" = Some d
    /\ get "userId" d = JStr bob
    /\ get "items" d = JArr [].
Proof.
  assert (E : exists w',
             Firestore.saveExpense (Some bob) answering next_id
               (doc (js "e1") tokyo alice (js "2024-01-02T03:30:00.000Z")
                    JNull) empty_world
             = (inr (js "e1"), w'))
    by (eexists; vm_compute; reflexivity).
  destruct E as [w' E].
  destruct (saveExpense_document bob answering next_id _ _ _ _ E)
    as (d & Hd & Hu & _).
  exists w', d. split; [exact E|]. split; [exact Hd|]. split; [exact Hu|].
  apply (f_equal (fun r => expenses (db (snd r)) !! js "e1")) in E.
  cbn [snd] in E. rewrite Hd in E. vm_compute in E.
  injection E as E. subst d. reflexivity.
Defined.

Lemma saveExpense_then_fetch_witness :
  exists w' l,
    Firestore.saveExpense (Some alice) answering next_id
      (expense_to_js expense_with_image) alice_world
    = (inr (js "e9"), w')
    /\ fetchExpensesForTrip (Some alice) answering sample_time tokyo w'
       = (inr l, w')
    /\ List.map (get "id") l = [JStr (js "e9"); JStr (js "e1")].
Proof.
  destruct (saveExpense_then_fetch alice answering next_id sample_time
              (expense_to_js expense_with_image) (js "e9") tokyo alice_world
              eq_refl ltac:(discriminate) eq_refl eq_refl eq_refl)
    as (w' & l & Hs & Hf & _).
  exists w', l. split; [exact Hs|]. split; [exact Hf|].
  apply (f_equal (fun r => snd r)) in Hs. cbn [snd] in Hs. subst w'.
  apply (f_equal fst) in Hf. vm_compute in Hf. injection Hf as <-.
  reflexivity.
Defined.

(** Signed out, the trip is deleted and its expense stays. *)
Lemma deleteTrip_trip_first_witness :
  exists w',
    Firestore.deleteTrip None answering sample_time tokyo alice_world
    = (inl NotAuthenticated, w')
    /\ trips (db w') !! tokyo = None
    /\ expenses (db w') = expenses (db alice_world).
Proof.
  destruct (deleteTrip_trip_first answering sample_time None tokyo
              alice_world ltac:(discriminate) (or_introl eq_refl))
    as (err & w' & Hd & Ht & He).
  exists w'. split; [|split; [|exact He]].
  - pose proof (f_equal fst Hd) as H1. vm_compute in H1.
    injection H1 as <-. exact Hd.
  - rewrite Ht. apply lookup_delete_eq.
Defined.

Lemma saveTrip_then_fetchTrips_witness :
  exists w' l,
    saveTrip (Some bob) answering next_id kyoto_trip alice_world
    = (inr (js "T2"), w')
    /\ fetchTrips (Some bob) answering w' = (inr l, w')
    /\ List.map (get "name") l = [JStr (js "Kyoto")]
    /\ List.map (get "userId") l = [JStr bob].
Proof.
  destruct (saveTrip_then_fetchTrips bob answering next_id kyoto_trip
              (js "T2") alice_world eq_refl ltac:(discriminate) eq_refl
              eq_refl) as (w' & l & Hs & _ & _ & _ & Hf & _).
  exists w', l. split; [exact Hs|]. split; [exact Hf|].
  apply (f_equal (fun r => snd r)) in Hs. cbn [snd] in Hs. subst w'.
  apply (f_equal fst) in Hf. vm_compute in Hf. injection Hf as <-.
  split; reflexivity.
Defined.

(** The store name is changed; the date, which was not passed, and the
    missing image are as they were. *)
Lemma updateExpense_merges_witness :
  exists d' new,
    updateExpense (Some alice) accepts_update renamed (db alice_world)
    = (inr tt, d', [])
    /\ expenses d' !! js "e1" = Some new
    /\ get "storeName" new = JStr (js "Lawson")
    /\ get "date" new = JStr (js "2024-01-02T03:30:00.000Z")
    /\ get "receiptImage" new = JUndefined.
Proof.
  assert (E : exists d',
             updateExpense (Some alice) accepts_update renamed
               (db alice_world) = (inr tt, d', []))
    by (eexists; vm_compute; reflexivity).
  destruct E as [d' E].
  assert (Hnd : NoDup (keys renamed)).
  { apply (bool_decide_unpack _). vm_compute. exact I. }
  destruct (proj2 (proj2 (updateExpense_merges alice accepts_update renamed
                            (db alice_world) Hnd)) d' [] E)
    as (docId & old & new & Hid & Hold & Hnew & _ & Hkept & Hold' & _).
  injection Hid as <-.
  exists d', new. split; [exact E|]. split; [exact Hnew|].
  vm_compute in Hold. injection Hold as <-.
  split; [exact (Hkept "storeName" ltac:(discriminate) ltac:(discriminate))|].
  split.
  - rewrite (Hold' "date" ltac:(discriminate) eq_refl). reflexivity.
  - rewrite (Hold' "receiptImage" ltac:(discriminate) eq_refl). reflexivity.
Defined.

Lemma deleteExpense_remote_witness :
  exists w1,
    Firestore.saveExpense (Some alice) answering next_id
      (expense_to_js expense_with_image) alice_world
    = (inr (js "e9"), w1)
    /\ FirestoreTrips.deleteExpense answering (js "e9") w1
       = (inr tt, alice_world).
Proof.
  exact (proj2 (deleteExpense_remote alice answering next_id (js "e9")
                  alice_world)
           (expense_to_js expense_with_image) eq_refl eq_refl eq_refl).
Defined.

End FirestoreMoreExamples.

Section ModalMoreExamples.
Import JsNumber JsString Types AddExpenseModal EditForm TripDetailView.
Import Samples MoreSamples.

(** Three lines, the second of bars only: it is parsed as an item without
    text, which is gone once the items are shown and parsed again. *)
Lemma parseStringToItems_stable_witness :
  List.map name (parseStringToItems receipt_text)
  = [[39151; 22296]%N; []; js "Tea"]
  /\ parseStringToItems (formatItemsToString (parseStringToItems receipt_text))
     = [{| name := [39151; 22296]%N; originalName := js "Onigiri" |};
        {| name := js "Tea"; originalName := js "Tea" |}]
  /\ parseStringToItems ([32; 10; 9; 10; 32]%N) = [].
Proof.
  split; [reflexivity|].
  destruct (parseStringToItems_stable receipt_text) as (_ & Hr & _).
  destruct (parseStringToItems_stable [32; 10; 9; 10; 32]%N) as (_ & _ & Hb).
  split; [rewrite Hr; reflexivity|exact (Hb eq_refl)].
Defined.

Lemma parse_line_extra_parts_witness :
  parse_line (js "Coffee || Latte || large")
  = {| name := js "Latte"; originalName := js "Coffee" |}.
Proof.
  exact (parse_line_extra_parts (js "Coffee ") (js " Latte ") (js " large")
           eq_refl eq_refl).
Defined.

Lemma handleSave_no_amount_witness :
  exists e,
    handleSave tokyo None fresh_id iso_of_local form_no_amount = Some e
    /\ originalAmount e = 0%float
    /\ totalTWD e = 0%float
    /\ myShareTWD e = 0%float
    /\ debtAmountTWD e = 0%float
    /\ splitCount e = 3%float.
Proof.
  eexists. split; [reflexivity|].
  destruct (handleSave_no_amount tokyo None fresh_id iso_of_local
              form_no_amount _ eq_refl eq_refl eq_refl eq_refl
              (fun _ => eq_refl)) as (Ha & Ht & Hm & Hd).
  repeat split; try assumption.
Defined.

Lemma handleSave_edit_unchanged_witness :
  exists e,
    handleSave tokyo None fresh_id iso_of_local form_lunch = Some e
    /\ f_date (edit_form local_of_iso now_local e) = js "2024-01-02T12:30"
    /\ handleSave tokyo (Some e) (js "another-id") iso_of_local
         (edit_form local_of_iso now_local e) = Some e.
Proof.
  eexists. split; [reflexivity|]. split; [reflexivity|].
  apply (handleSave_edit_unchanged tokyo None fresh_id (js "another-id")
           iso_of_local local_of_iso now_local form_lunch);
    first [reflexivity | discriminate].
Defined.

Lemma totalOwedToMe_unrepaid_witness :
  totalOwedToMe [expense_with_image; kyoto_repaid] = 165%float
  /\ totalOwedToMe [kyoto_repaid] = 0%float.
Proof.
  destruct (totalOwedToMe_unrepaid [expense_with_image; kyoto_repaid])
    as (Hsum & _ & _).
  destruct (totalOwedToMe_unrepaid [kyoto_repaid]) as (_ & _ & Hall).
  split; [rewrite Hsum; vm_compute; reflexivity|exact (Hall eq_refl)].
Defined.

End ModalMoreExamples.
